(** * interflow_node: the AgentIA system-tool engine

    A shallow embedding of [src/services/agent-ia-actions.js]: the
    name-to-id cache, the slug transformation, the tool catalog generator,
    the name-map builder, the tool dispatcher, the availability calculator
    and the appointment manager, followed by the properties established
    about them.

    Conventions of the embedding.
    - JavaScript values are the JSON-like universe [jsval]; an object is a
      finite map from property names to values (own data properties only:
      what the built-in prototypes would add, such as [constructor] or
      [toString], is outside the model). The statements whose truth
      depends on it carry the hypothesis that the keys involved are none of
      the names every object inherits ([inherited]) and that the values read
      under them are objects.
    - Numbers are the integers plus [NaN]; numeric literals with a fraction,
      an exponent or a radix prefix are outside the model of [Number], and
      statements about arithmetic on unbounded arguments carry the bound
      below which the numbers of the runtime are exact.
    - Strings are byte strings. In the slug transformation, which keeps only
      the characters a to z and 0 to 9 of its result, [toLowerCase] acts on
      the ASCII letters; where names are compared (the name maps) the
      lower-casing is the one of the runtime, over every letter, a parameter
      of the development.
    - A thrown value is an error object, represented by its [message].
    - The relational store, the clock, the date formatting of the runtime and
      the three injected executors are parameters of the development. *)

From stdpp Require Import gmap strings list fin_maps pretty sorting.
From Stdlib Require Import ZArith Ascii Lia.

#[local] Set Warnings "-register-all,-clear-no-such-hyp".
#[local] Open Scope Z_scope.

(** ** Exceptions *)

Inductive exc (A : Type) : Type :=
| Ok (a : A)
| Throw (message : string).
Arguments Ok {A} a.
Arguments Throw {A} message.

#[global] Instance exc_ret : MRet exc := fun A a => Ok a.
#[global] Instance exc_bind : MBind exc := fun A B k m =>
  match m with
  | Ok a => k a
  | Throw e => Throw e
  end.

(** [try { body } catch (error) { handler }] *)
Definition try_catch {A} (body : exc A) (handler : string -> exc A) : exc A :=
  match body with
  | Ok a => Ok a
  | Throw e => handler e
  end.

(** [try { x = body } catch (e) { }] around an assignment: the variable
    keeps its [previous] value when the body throws. *)
Definition keep_on_throw {A} (body : exc A) (previous : A) : A :=
  match body with
  | Ok a => a
  | Throw _ => previous
  end.

(** ** Numbers *)

Inductive num : Type :=
| NaN
| Int (z : Z).

Definition num_add (a b : num) : num :=
  match a, b with Int x, Int y => Int (x + y) | _, _ => NaN end.
Definition num_sub (a b : num) : num :=
  match a, b with Int x, Int y => Int (x - y) | _, _ => NaN end.
Definition num_mul (a b : num) : num :=
  match a, b with Int x, Int y => Int (x * y) | _, _ => NaN end.
(** Comparisons with [NaN] are false. *)
Definition num_lt (a b : num) : bool :=
  match a, b with Int x, Int y => x <? y | _, _ => false end.
Definition num_le (a b : num) : bool :=
  match a, b with Int x, Int y => x <=? y | _, _ => false end.
Definition num_gt (a b : num) : bool := num_lt b a.

(** [Math.floor(a / b)] for a non-zero integer [b]. *)
Definition num_floor_div (a : num) (b : Z) : num :=
  match a with Int x => Int (x `div` b) | NaN => NaN end.
(** [a % b]: the remainder takes the sign of the dividend. *)
Definition num_rem (a : num) (b : Z) : num :=
  match a with Int x => Int (x `rem` b) | NaN => NaN end.

(** [n.toString()] *)
Definition num_toString (n : num) : string :=
  match n with
  | NaN => "NaN"
  | Int z => pretty z
  end.

(** ** Strings *)

Definition chars (s : string) : list ascii := String.list_ascii_of_string s.
Definition of_chars (l : list ascii) : string := String.string_of_list_ascii l.

Definition code (c : ascii) : N := N_of_ascii c.

Definition is_upper (c : ascii) : bool := ((65 <=? code c) && (code c <=? 90))%N.
Definition is_lower (c : ascii) : bool := ((97 <=? code c) && (code c <=? 122))%N.
Definition is_digit (c : ascii) : bool := ((48 <=? code c) && (code c <=? 57))%N.

Definition lower_char (c : ascii) : ascii :=
  if is_upper c then ascii_of_N (code c + 32) else c.

(** [s.toLowerCase()] as the slug transformation uses it: on the letters A
    to Z (the statements that depend on the lower-casing of other characters
    carry [ascii_only]). *)
Definition toLowerCase (s : string) : string :=
  of_chars (lower_char <$> chars s).

Definition underscore : ascii := "_"%char.

Definition is_underscore (c : ascii) : bool := bool_decide (c = underscore).

(** [.replace(/[^a-z0-9]/g, '_')] *)
Definition replace_non_alnum (l : list ascii) : list ascii :=
  (fun c => if is_lower c || is_digit c then c else underscore) <$> l.

(** [.replace(/_+/g, '_')] *)
Fixpoint collapse_underscores (l : list ascii) : list ascii :=
  match l with
  | [] => []
  | c :: t =>
      if is_underscore c then
        match t with
        | c' :: _ => if is_underscore c' then collapse_underscores t
                     else c :: collapse_underscores t
        | [] => [c]
        end
      else c :: collapse_underscores t
  end.

Definition drop_leading_underscore (l : list ascii) : list ascii :=
  match l with
  | c :: t => if is_underscore c then t else l
  | [] => []
  end.

Fixpoint drop_trailing_underscore (l : list ascii) : list ascii :=
  match l with
  | [] => []
  | [c] => if is_underscore c then [] else [c]
  | c :: t => c :: drop_trailing_underscore t
  end.

(** [.replace(/^_|_$/g, '')]: the global scan removes an underscore at the
    very start, then one at the very end of what follows. *)
Definition trim_underscores (l : list ascii) : list ascii :=
  drop_trailing_underscore (drop_leading_underscore l).

Definition slug (s : string) : string :=
  of_chars (trim_underscores (collapse_underscores
    (replace_non_alnum (chars (toLowerCase s))))).

(** ASCII white space, as trimmed by [Number] and skipped by [parseInt]. *)
Fixpoint skip_spaces (l : list ascii) : list ascii :=
  match l with
  | c :: t => if Ascii.is_space c then skip_spaces t else l
  | [] => []
  end.

Definition trim_spaces (l : list ascii) : list ascii :=
  reverse (skip_spaces (reverse (skip_spaces l))).

Definition digit_value (c : ascii) : option Z :=
  if is_digit c then Some (Z.of_N (code c) - 48) else None.

Definition hex_value (c : ascii) : option Z :=
  if is_digit c then Some (Z.of_N (code c) - 48)
  else if ((97 <=? code c) && (code c <=? 102))%N then Some (Z.of_N (code c) - 87)
  else if ((65 <=? code c) && (code c <=? 70))%N then Some (Z.of_N (code c) - 55)
  else None.

(** Reads the longest prefix of digits in the given radix; [None] when the
    prefix is empty. Returns the value and the unread rest. *)
Fixpoint read_digits (value_of : ascii -> option Z) (radix : Z)
    (acc : option Z) (l : list ascii) : option Z * list ascii :=
  match l with
  | c :: t =>
      match value_of c with
      | Some d => read_digits value_of radix (Some (from_option id 0 acc * radix + d)) t
      | None => (acc, l)
      end
  | [] => (acc, [])
  end.

Definition read_sign (l : list ascii) : Z * list ascii :=
  match l with
  | c :: t =>
      if bool_decide (c = "-"%char) then (-1, t)
      else if bool_decide (c = "+"%char) then (1, t)
      else (1, l)
  | [] => (1, [])
  end.

(** [Number(s)] on the decimal integer literals: surrounding white space is
    trimmed, the empty string is [0], anything else is [NaN]. The integers
    are exact in the runtime up to [MAX_SAFE_INTEGER]. *)
Definition Number (s : string) : num :=
  match trim_spaces (chars s) with
  | [] => Int 0
  | l =>
      let '(sign, l1) := read_sign l in
      match read_digits digit_value 10 None l1 with
      | (Some v, []) => Int (sign * v)
      | _ => NaN
      end
  end.

(** [parseInt(s)]: leading white space and a sign are skipped, a [0x] prefix
    selects radix 16, and the longest prefix of digits is read; [undefined]
    (here [None]) and a string without digits give [NaN]. *)
Definition parseInt (arg : option string) : num :=
  match arg with
  | None => NaN
  | Some s =>
      let '(sign, l) := read_sign (skip_spaces (chars s)) in
      match l with
      | z :: x :: t =>
          if bool_decide (z = "0"%char) &&
             (bool_decide (x = "x"%char) || bool_decide (x = "X"%char))
          then match read_digits hex_value 16 None t with
               | (Some v, _) => Int (sign * v)
               | (None, _) => NaN
               end
          else match read_digits digit_value 10 None l with
               | (Some v, _) => Int (sign * v)
               | (None, _) => NaN
               end
      | _ => match read_digits digit_value 10 None l with
             | (Some v, _) => Int (sign * v)
             | (None, _) => NaN
             end
      end
  end.

(** [s.split(sep)] for a one-character separator: never the empty list. *)
Fixpoint split_chars (sep : ascii) (cur : list ascii) (l : list ascii) : list string :=
  match l with
  | [] => [of_chars (reverse cur)]
  | c :: t =>
      if bool_decide (c = sep) then of_chars (reverse cur) :: split_chars sep [] t
      else split_chars sep (c :: cur) t
  end.

Definition split (sep : ascii) (s : string) : list string :=
  split_chars sep [] (chars s).

(** [s.includes('.')] *)
Definition includes_char (c : ascii) (s : string) : bool :=
  bool_decide (c ∈ chars s).

(** [s.padStart(2, '0')] *)
Definition padStart2 (s : string) : string :=
  match s with
  | "" => "00"
  | String c "" => String "0"%char (String c "")
  | _ => s
  end.

(** The double quote character, as a string. *)
Definition quote : string := String (ascii_of_nat 34) "".

(** [parts.join(sep)] on strings. *)
Definition join (sep : string) (parts : list string) : string :=
  String.concat sep parts.

(** ** Values *)

Inductive jsval : Type :=
| JUndefined
| JNull
| JBool (b : bool)
| JNum (n : num)
| JStr (s : string)
| JArr (items : list jsval)
| JObj (props : gmap string jsval).

Abbreviation obj := (gmap string jsval).

(** An object literal: later properties override earlier ones. *)
Definition object (fields : list (string * jsval)) : obj :=
  foldl (fun m kv => <[kv.1 := kv.2]> m) ∅ fields.

(** [{ ...base, fields }] *)
Definition spread (base : obj) (fields : list (string * jsval)) : obj :=
  foldl (fun m kv => <[kv.1 := kv.2]> m) base fields.

Definition truthy (v : jsval) : bool :=
  match v with
  | JUndefined | JNull => false
  | JBool b => b
  | JNum NaN => false
  | JNum (Int z) => negb (z =? 0)
  | JStr s => negb (bool_decide (s = ""))
  | JArr _ | JObj _ => true
  end.

Definition nullish (v : jsval) : bool :=
  match v with
  | JUndefined | JNull => true
  | _ => false
  end.

(** A missing property reads as [undefined]. *)
Definition or_undefined (o : option jsval) : jsval :=
  match o with
  | Some v => v
  | None => JUndefined
  end.

(** [a || b] *)
Definition js_or (a b : jsval) : jsval := if truthy a then a else b.

(** [String(v)], as used by template literals and [join]. *)
Fixpoint to_string (v : jsval) : string :=
  match v with
  | JUndefined => "undefined"
  | JNull => "null"
  | JBool true => "true"
  | JBool false => "false"
  | JNum n => num_toString n
  | JStr s => s
  | JArr items =>
      join "," ((fix each (l : list jsval) : list string :=
                   match l with
                   | [] => []
                   | x :: t => (if nullish x then "" else to_string x) :: each t
                   end) items)
  | JObj _ => "[object Object]"
  end.

(** [items.join(sep)] *)
Definition js_join (sep : string) (items : list jsval) : string :=
  join sep ((fun x => if nullish x then "" else to_string x) <$> items).

(** The numeric value an arithmetic operator reads from [v]. *)
Definition to_number (v : jsval) : num :=
  match v with
  | JUndefined => NaN
  | JNull => Int 0
  | JBool b => Int (if b then 1 else 0)
  | JNum n => n
  | JStr s => Number s
  | JArr _ | JObj _ => Number (to_string v)
  end.

(** The index a property key denotes on an array or a string, if any. *)
Definition array_index (k : string) : option nat :=
  match read_digits digit_value 10 None (chars k) with
  | (Some n, []) => if bool_decide (pretty n = k) then Some (Z.to_nat n) else None
  | _ => None
  end.

Definition type_error_read (v : jsval) (k : string) : string :=
  "Cannot read properties of " +:+ to_string v +:+ " (reading '" +:+ k +:+ "')".

(** [v[k]], also written [v.k]: reading from [null] or [undefined] throws.
    An object is read by the properties it has of its own. *)
Definition get_prop (v : jsval) (k : string) : exc jsval :=
  match v with
  | JUndefined | JNull => Throw (type_error_read v k)
  | JObj m => Ok (or_undefined (m !! k))
  | JArr items =>
      if bool_decide (k = "length") then Ok (JNum (Int (Z.of_nat (length items))))
      else Ok (or_undefined (i ← array_index k; items !! i))
  | JStr s =>
      if bool_decide (k = "length") then Ok (JNum (Int (Z.of_nat (String.length s))))
      else Ok (or_undefined
                 (i ← array_index k; c ← chars s !! i; Some (JStr (String c ""))))
  | JBool _ | JNum _ => Ok JUndefined
  end.

(** [v?.k] *)
Definition get_prop_opt (v : jsval) (k : string) : exc jsval :=
  if nullish v then Ok JUndefined else get_prop v k.

(** [v[k] = x] in strict mode: only an object takes the property. Arrays are
    never the receiver of an assignment in this module and are refused here
    like the primitives. *)
Definition set_prop (v : jsval) (k : string) (x : jsval) : exc jsval :=
  match v with
  | JObj m => Ok (JObj (<[k := x]> m))
  | JUndefined | JNull =>
      Throw ("Cannot set properties of " +:+ to_string v +:+ " (setting '" +:+ k +:+ "')")
  | _ => Throw ("Cannot create property '" +:+ k +:+ "' on " +:+ to_string v)
  end.

(** [s.toLowerCase()] on a value: only strings have the method. *)
Definition js_toLowerCase (v : jsval) : exc string :=
  match v with
  | JStr s => Ok (toLowerCase s)
  | JUndefined | JNull => Throw (type_error_read v "toLowerCase")
  | _ => Throw "toLowerCase is not a function"
  end.

(** [slots.includes(v)] on an array of strings. *)
Definition includes (slots : list string) (v : jsval) : bool :=
  match v with
  | JStr s => bool_decide (s ∈ slots)
  | _ => false
  end.

(** ** The name-to-id cache *)

(** [CACHE_EXPIRATION], in milliseconds (one hour). *)
Definition CACHE_EXPIRATION : Z := 60 * 60 * 1000.

(** [isCacheValid(timestamp)], read at clock value [now] ([Date.now()]). *)
Definition isCacheValid (now : Z) (timestamp : jsval) : bool :=
  truthy timestamp &&
  num_lt (num_sub (Int now) (to_number timestamp)) (Int CACHE_EXPIRATION).

(** [type === 'services' || type === 'providers'] *)
Definition by_schedule (type : string) : bool :=
  bool_decide (type = "services") || bool_decide (type = "providers").

(** [nameToIdCache] is the object [cache]; [organizationId] and [subKey]
    (whose default is [null]) are values used as property keys, looked up
    among the properties the objects have of their own (see [plain_keys]).
    The result is the cached mapping or [null]. *)
Definition getCachedMap (now : Z) (cache : obj) (organizationId : jsval)
    (type : string) (subKey : jsval) : exc jsval :=
  let entry := or_undefined (cache !! to_string organizationId) in
  if negb (truthy entry) then Ok JNull
  else if by_schedule type && negb (truthy subKey) then Ok JNull
  else if by_schedule type then
    bucket ← get_prop entry type;
    if negb (truthy bucket) then Ok JNull
    else
      typeCache ← get_prop bucket (to_string subKey);
      if negb (truthy typeCache) then Ok JNull
      else
        timestamp ← get_prop typeCache "timestamp";
        if negb (isCacheValid now timestamp) then Ok JNull
        else get_prop typeCache "data"
  else
    typeCache ← get_prop entry type;
    if negb (truthy typeCache) then Ok JNull
    else
      timestamp ← get_prop typeCache "timestamp";
      if negb (isCacheValid now timestamp) then Ok JNull
      else get_prop typeCache "data".

Definition empty_organization_cache : jsval :=
  JObj (object [("services", JObj ∅); ("providers", JObj ∅);
                ("teams", JNull); ("flows", JNull)]).

Definition cache_record (map : jsval) (timestamp : Z) : jsval :=
  JObj (object [("data", map); ("timestamp", JNum (Int timestamp))]).

(** [setCachedMap(organizationId, type, map, subKey)] at clock value [now];
    the result is the cache after the call. Nested assignments write the
    updated inner object back into its owner. *)
Definition setCachedMap (now : Z) (cache : obj) (organizationId : jsval)
    (type : string) (map : jsval) (subKey : jsval) : exc obj :=
  if negb (truthy organizationId) then Ok cache
  else
    let org := to_string organizationId in
    let cache1 :=
      if negb (truthy (or_undefined (cache !! org)))
      then <[org := empty_organization_cache]> cache
      else cache in
    let entry := or_undefined (cache1 !! org) in
    let timestamp := now in
    if by_schedule type && truthy subKey then
      bucket ← get_prop entry type;
      '(entry1, bucket1) ←
        (if negb (truthy bucket)
         then entry' ← set_prop entry type (JObj ∅); Ok (entry', JObj ∅)
         else Ok (entry, bucket));
      bucket2 ← set_prop bucket1 (to_string subKey) (cache_record map timestamp);
      entry2 ← set_prop entry1 type bucket2;
      Ok (<[org := entry2]> cache1)
    else
      entry1 ← set_prop entry type (cache_record map timestamp);
      Ok (<[org := entry1]> cache1).

(** ** Slugs *)

(** The shape of every output of [slug]: lower-case letters, digits and
    single underscores, none of them first or last. *)
Definition slug_char (c : ascii) : bool :=
  is_lower c || is_digit c || is_underscore c.

Definition starts_with_underscore (l : list ascii) : bool :=
  match l with
  | c :: _ => is_underscore c
  | [] => false
  end.

Fixpoint ends_with_underscore (l : list ascii) : bool :=
  match l with
  | [] => false
  | [c] => is_underscore c
  | _ :: t => ends_with_underscore t
  end.

Fixpoint single_underscores (l : list ascii) : bool :=
  match l with
  | [] => true
  | c :: t => negb (is_underscore c && starts_with_underscore t) && single_underscores t
  end.

Definition slug_normal (s : string) : bool :=
  forallb slug_char (chars s) && single_underscores (chars s) &&
  negb (starts_with_underscore (chars s)) && negb (ends_with_underscore (chars s)).

(** The pattern [^[a-zA-Z0-9_-]+$] of the source's documentation. *)
Definition matches_slug_pattern (s : string) : bool :=
  negb (bool_decide (s = "")) &&
  forallb (fun c => is_lower c || is_upper c || is_digit c || is_underscore c ||
                    bool_decide (c = "-"%char)) (chars s).

(** [transformToolName(name)] *)
Definition transformToolName (name : jsval) : exc string :=
  if negb (truthy name) then Ok ""
  else
    lowered ← js_toLowerCase name;
    Ok (of_chars (trim_underscores (collapse_underscores
          (replace_non_alnum (chars lowered))))).

(** ** The store and the runtime *)

(** What awaiting a query of the store client yields: [{ data, error }],
    the error being represented by its message. *)
Record response : Type := Response {
  data : jsval;
  error : option string
}.

(** The queries the module sends to the relational store, named after the
    table and the filters of each. Awaiting one may throw. *)
Record Store : Type := {
  (** [schedules]: [id, title] of the active schedule of an organization
      with a given id. *)
  active_schedules : jsval → jsval → exc response;
  (** [schedule_services]: [id, title] of the active services of a schedule. *)
  active_services : jsval → exc response;
  (** [schedule_providers]: [id, profiles(id, full_name)] of the active
      providers of a schedule. *)
  active_providers_profiles : jsval → exc response;
  (** [flows]: [id, name] of the active flows of an organization. *)
  active_flows : jsval → exc response;
  (** [teams]: [id, name] of the teams of an organization. *)
  teams_of : jsval → exc response;
  (** [schedules]: [timezone, title] of the single schedule with an id. *)
  schedule_timezone : jsval → exc response;
  (** [schedules]: the single row with an id. *)
  schedule_row : jsval → exc response;
  (** [schedule_services]: [title, by_arrival_time, capacity] of the single
      service with an id. *)
  service_info : jsval → exc response;
  (** [schedule_services]: [title, duration, by_arrival_time] of the single
      service with an id. *)
  service_duration : jsval → exc response;
  (** [schedule_providers]: [id, profile_id] of the active providers of a
      schedule. *)
  active_providers : jsval → exc response;
  (** [schedule_availability]: [provider_id, start_time, end_time] for the
      given providers and day of the week. *)
  availability_on : list jsval → num → exc response;
  (** [appointments]: [provider_id, start_time, end_time] of the appointments
      of a schedule on a date whose status is not [canceled]. *)
  appointments_on : jsval → jsval → exc response;
  (** [schedule_providers]: [profile_id] of one active provider of a
      schedule ([limit(1).single()]). *)
  first_active_provider : jsval → exc response;
  (** [appointments]: the inserted row ([insert(row).select().single()]). *)
  insert_appointment : obj → exc response;
  (** [appointments]: the scheduled or confirmed appointments of a customer,
      with the schedule and appointment filters applied when given, ordered
      by date and start time. *)
  customer_appointments : jsval → option jsval → option jsval → exc response;
  (** [appointments]: the single scheduled or confirmed appointment with an
      id that belongs to a customer. *)
  open_appointment : jsval → jsval → exc response;
  (** [appointments]: [update(changes).eq('id', id)]. *)
  update_appointment : jsval → obj → exc response;
  (** [appointments]: the scheduled or confirmed appointments of a customer
      on a date, within a schedule when given. *)
  customer_appointments_on : jsval → jsval → option jsval → exc response
}.

(** What the module reads from the JavaScript runtime. *)
Record Runtime : Type := {
  (** [Date.now()] *)
  Date_now : Z;
  (** [new Date(`${date}T12:00:00Z`).getDay()] *)
  getDay : jsval → num;
  (** [new Date(date).toLocaleDateString('pt-BR')] *)
  toLocaleDateString : jsval → string;
  (** [new Date().toISOString()] *)
  toISOString : string;
  (** [s.toLowerCase()] on a name: the lower-casing of the runtime, which
      maps every letter that has a lower-case form, the accented ones
      included. *)
  String_toLowerCase : string → string
}.

(** The rows written to the store, in the order the calls are made. *)
Inductive dbwrite : Type :=
| Inserted (row : obj)
| Updated (id : jsval) (changes : obj).

(** ** The name-map builder *)

(** [name.toLowerCase()] on the name of a row, or on a name the caller
    gives: only strings have the method. *)
Definition lower_name (R : Runtime) (v : jsval) : exc string :=
  match v with
  | JStr s => Ok (String_toLowerCase R s)
  | JUndefined | JNull => Throw (type_error_read v "toLowerCase")
  | _ => Throw "toLowerCase is not a function"
  end.

(** [map[key] = id] on the plain object [map]. The name [__proto__] is the
    accessor every object inherits: assigning to it adds no property to the
    object. (An [id] that is itself an object would become the prototype of
    [map]; the statements that look up names that are not in the map exclude
    such rows.) *)
Definition assign_name (map : obj) (key : string) (id : jsval) : obj :=
  if bool_decide (key = "__proto__") then map else <[key := id]> map.

(** The inner loop over the keys of a dotted path:
    [for (const key of keys) { if (!nested) break; nested = nested[key]; }] *)
Fixpoint walk_path (nested : jsval) (keys : list string) : exc jsval :=
  match keys with
  | [] => Ok nested
  | key :: rest =>
      if negb (truthy nested) then Ok nested
      else next ← get_prop nested key; walk_path next rest
  end.

(** The value read for one key of an item, first directly and then, when
    that is falsy and the key is dotted, along the path. [None] stands for
    the [continue] of the [catch] block. *)
Definition resolve_field (item : jsval) (key : string) : exc (option jsval) :=
  direct ← get_prop item key;
  if negb (truthy direct) && includes_char "."%char key then
    try_catch (nested ← walk_path item (split "."%char key); Ok (Some nested))
              (fun _ => Ok None)
  else Ok (Some direct).

(** One iteration of the loop over [items]: the property it adds to [map],
    if any. *)
Definition item_entry (R : Runtime) (nameKey idKey : string) (item : jsval)
    : exc (option (string * jsval)) :=
  if negb (truthy item) then Ok None
  else
    name ← resolve_field item nameKey;
    match name with
    | None => Ok None
    | Some name =>
        id ← resolve_field item idKey;
        match id with
        | None => Ok None
        | Some id =>
            if truthy name && truthy id then
              key ← lower_name R name; Ok (Some (key, id))
            else Ok None
        end
    end.

Fixpoint add_items (R : Runtime) (nameKey idKey : string) (map : obj)
    (items : list jsval) : exc obj :=
  match items with
  | [] => Ok map
  | item :: rest =>
      entry ← item_entry R nameKey idKey item;
      add_items R nameKey idKey
        (match entry with Some (key, id) => assign_name map key id | None => map end) rest
  end.

(** [createNameToIdMap(items, nameKey, idKey)] *)
Definition createNameToIdMap (R : Runtime) (items : jsval) (nameKey idKey : string)
    : exc obj :=
  match items with
  | JArr l => add_items R nameKey idKey ∅ l
  | _ => Ok ∅
  end.

(** The outcome of [resolve_field] counts as missing when the item was
    abandoned or the value read is falsy ([undefined], [null], the empty
    string, ...). *)
Definition field_missing (field : option jsval) : bool :=
  match field with
  | Some v => negb (truthy v)
  | None => true
  end.

(** ** Array and object helpers *)

(** The elements of [v] for [v.map], [v.some], [v.forEach] and [for ... of]. *)
Definition as_array (v : jsval) (method : string) : exc (list jsval) :=
  match v with
  | JArr items => Ok items
  | JUndefined | JNull => Throw (type_error_read v method)
  | _ => Throw (method +:+ " is not a function")
  end.

(** [v.length === 0], for a truthy [v]. *)
Definition length_is_zero (v : jsval) : bool :=
  match get_prop v "length" with
  | Ok (JNum (Int 0)) => true
  | _ => false
  end.

(** [!v || v.length === 0] *)
Definition none_found (v : jsval) : bool :=
  negb (truthy v) || length_is_zero v.

(** The own properties [{ ...v }] copies. *)
Definition own_props (v : jsval) : obj :=
  match v with
  | JObj m => m
  | JArr items => list_to_map (imap (fun i x => (pretty i, x)) items)
  | JStr s => list_to_map (imap (fun i c => (pretty i, JStr (String c ""))) (chars s))
  | _ => ∅
  end.

(** [v.toString()] *)
Definition js_toString (v : jsval) : exc string :=
  if nullish v then Throw (type_error_read v "toString") else Ok (to_string v).

Fixpoint mapM {A B} (f : A → exc B) (l : list A) : exc (list B) :=
  match l with
  | [] => Ok []
  | x :: t => y ← f x; ys ← mapM f t; Ok (y :: ys)
  end.

Fixpoint foldM {A B} (f : B → A → exc B) (acc : B) (l : list A) : exc B :=
  match l with
  | [] => Ok acc
  | x :: t => acc' ← f acc x; foldM f acc' t
  end.

(** ** The availability calculator *)

(** [timeToMinutes(timeStr)] *)
Definition timeToMinutes (timeStr : jsval) : exc num :=
  if negb (truthy timeStr) then Ok (Int 0)
  else
    match timeStr with
    | JStr s =>
        let parts := Number <$> split ":"%char s in
        let hours := default NaN (parts !! 0%nat) in
        let minutes := default NaN (parts !! 1%nat) in
        Ok (num_add (num_mul hours (Int 60)) minutes)
    | _ => Throw "timeStr.split is not a function"
    end.

(** [minutesToTime(minutes)] *)
Definition minutesToTime (minutes : num) : string :=
  let hours := num_floor_div minutes 60 in
  let mins := num_rem minutes 60 in
  padStart2 (num_toString hours) +:+ ":" +:+ padStart2 (num_toString mins).

(** The callback of [existingAppointments?.some(...)]:
    [aptStart <= slot && aptEnd > slot]. *)
Definition overlaps (slot : Z) (apt : jsval) : exc bool :=
  start_time ← get_prop apt "start_time";
  aptStart ← timeToMinutes start_time;
  end_time ← get_prop apt "end_time";
  aptEnd ← timeToMinutes end_time;
  Ok (num_le aptStart (Int slot) && num_gt aptEnd (Int slot)).

Fixpoint some_overlaps (slot : Z) (apts : list jsval) : exc bool :=
  match apts with
  | [] => Ok false
  | apt :: rest =>
      overlaps slot apt ≫= fun hit : bool =>
      if hit then Ok true else some_overlaps slot rest
  end.

(** [!isOccupied], where [isOccupied] is [undefined] for a missing list. *)
Definition is_free (existingAppointments : jsval) (slot : Z) : exc bool :=
  if nullish existingAppointments then Ok true
  else
    apts ← as_array existingAppointments "some";
    occupied ← some_overlaps slot apts;
    Ok (negb occupied).

(** [for (let slot = startMinutes; slot <= bound; slot += slotInterval)],
    with [bound = endMinutes - duration] and [slotInterval = 30]; [fuel]
    bounds the number of iterations. *)
Fixpoint slot_loop (fuel : nat) (slot bound : Z) (existingAppointments : jsval)
    (allSlots : list string) : exc (list string) :=
  match fuel with
  | O => Ok allSlots
  | S fuel' =>
      if slot <=? bound then
        let slotTime := minutesToTime (Int slot) in
        is_free existingAppointments slot ≫= fun free : bool =>
        slot_loop fuel' (slot + 30) bound existingAppointments
          (if free && negb (bool_decide (slotTime ∈ allSlots))
           then allSlots ++ [slotTime] else allSlots)
      else Ok allSlots
  end.

(** The number of iterations the loop makes from [slot] up to [bound]. *)
Definition iterations (slot bound : Z) : nat :=
  if slot <=? bound then S (Z.to_nat ((bound - slot) `div` 30)) else O.

(** The body of [availabilities.forEach]. *)
Definition window_slots (duration : num) (existingAppointments : jsval)
    (allSlots : list string) (availability : jsval) : exc (list string) :=
  start_time ← get_prop availability "start_time";
  startMinutes ← timeToMinutes start_time;
  end_time ← get_prop availability "end_time";
  endMinutes ← timeToMinutes end_time;
  match startMinutes, num_sub endMinutes duration with
  | Int slot, Int bound =>
      slot_loop (iterations slot bound) slot bound existingAppointments allSlots
  | _, _ => Ok allSlots
  end.

(** [allSlots.sort()]: the strings in ascending order. *)
Definition sort_strings (l : list string) : list string :=
  merge_sort String.le l.

(** The [try] block of [getAvailableSlots]. *)
Definition getAvailableSlots_try (S : Store) (R : Runtime)
    (scheduleId date serviceId : jsval) (duration : num) (isByArrivalTime : jsval)
    : exc (list string) :=
  r ← active_providers S scheduleId;
  let providers := data r in
  if none_found providers then Ok []
  else
    let dayOfWeek := getDay R date in
    rows ← as_array providers "map";
    ids ← mapM (fun p => get_prop p "id") rows;
    r ← availability_on S ids dayOfWeek;
    let availabilities := data r in
    if none_found availabilities then Ok []
    else
      r ← appointments_on S scheduleId date;
      let existingAppointments := data r in
      windows ← as_array availabilities "forEach";
      allSlots ← foldM (window_slots duration existingAppointments) [] windows;
      Ok (sort_strings allSlots).

(** [getAvailableSlots(scheduleId, date, serviceId, duration, isByArrivalTime)]:
    the [catch] block returns the empty list. *)
Definition getAvailableSlots (S : Store) (R : Runtime)
    (scheduleId date serviceId : jsval) (duration : num) (isByArrivalTime : jsval)
    : exc (list string) :=
  try_catch (getAvailableSlots_try S R scheduleId date serviceId duration isByArrivalTime)
            (fun _ => Ok []).

(** [parseInt(parts[0]) * 60 + parseInt(parts[1])] on [duration.toString().split(':')];
    throws when [duration] is [null] or [undefined]. *)
Definition duration_minutes (duration : jsval) : exc num :=
  text ← js_toString duration;
  let durationParts := split ":"%char text in
  Ok (num_add (num_mul (parseInt (durationParts !! 0%nat)) (Int 60))
              (parseInt (durationParts !! 1%nat))).

Definition js_strings (l : list string) : jsval := JArr (JStr <$> l).

Definition count_text (n : nat) : string := pretty (Z.of_nat n).

(** [serviceDuration] and [isByArrivalTime] as [checkAvailability] sets
    them: 30 minutes and [false] unless the service is found. *)
Definition service_settings (S : Store) (serviceId : jsval) : exc (num * jsval) :=
  if truthy serviceId then
    r ← service_duration S serviceId;
    let service := data r in
    if truthy service then
      by_arrival_time ← get_prop service "by_arrival_time";
      duration ← get_prop service "duration";
      Ok (keep_on_throw (duration_minutes duration) (Int 30),
          js_or by_arrival_time (JBool false))
    else Ok (Int 30, JBool false)
  else Ok (Int 30, JBool false).

(** The [try] block of [checkAvailability]. *)
Definition checkAvailability_try (S : Store) (R : Runtime)
    (scheduleId date time serviceId timezone : jsval) : exc obj :=
  r ← schedule_row S scheduleId;
  if bool_decide (is_Some (error r)) || negb (truthy (data r)) then
    Ok (object [("success", JBool false);
                ("message", JStr ("Schedule not found with ID " +:+ to_string scheduleId))])
  else
    '(serviceDuration, isByArrivalTime) ← service_settings S serviceId;
    let formattedDate := toLocaleDateString R date in
    availableSlots ←
      getAvailableSlots S R scheduleId date serviceId serviceDuration isByArrivalTime;
    if negb (truthy time) then
      Ok (object [
        ("success", JBool true);
        ("available", JBool (bool_decide (0 < length availableSlots)%nat));
        ("date", date);
        ("formatted_date", JStr formattedDate);
        ("available_times", js_strings availableSlots);
        ("message", JStr
           (if bool_decide (0 < length availableSlots)%nat
            then count_text (length availableSlots) +:+ " time slots available on "
                   +:+ formattedDate
            else "No available slots on " +:+ formattedDate))])
    else
      let isAvailable := includes availableSlots time in
      Ok (object [
        ("success", JBool true);
        ("available", JBool isAvailable);
        ("date", date);
        ("formatted_date", JStr formattedDate);
        ("requested_time", time);
        ("available_times", js_strings availableSlots);
        ("message", JStr
           (if isAvailable
            then "Slot available on " +:+ formattedDate +:+ " at " +:+ to_string time
            else "No availability on " +:+ formattedDate +:+ " at " +:+ to_string time))]).

(** [checkAvailability(scheduleId, date, time, serviceId, timezone)] *)
Definition checkAvailability (S : Store) (R : Runtime)
    (scheduleId date time serviceId timezone : jsval) : exc obj :=
  try_catch (checkAvailability_try S R scheduleId date time serviceId timezone)
    (fun message =>
       Ok (object [("success", JBool false);
                   ("message", JStr ("Error checking availability: " +:+ message))])).

(** ** Effects *)

(** The mutable state a call works on: the module-level cache, the argument
    object received from the caller, and the rows written to the store. *)
Record World : Type := {
  nameToIdCache : obj;
  args : obj;
  writes : list dbwrite
}.

(** How a piece of a function body completes: normally with a value, by an
    early [return] from the enclosing function, or by a [throw]. *)
Inductive completion (A : Type) : Type :=
| Normal (a : A)
| Returned (result : jsval)
| Thrown (message : string).
Arguments Normal {A} a.
Arguments Returned {A} result.
Arguments Thrown {A} message.

(** A computation that may change the state; what was changed before a
    [return] or a [throw] stays changed. *)
Definition Eff (A : Type) : Type := World → completion A * World.

#[global] Instance Eff_ret : MRet Eff := fun A a w => (Normal a, w).
#[global] Instance Eff_bind : MBind Eff := fun A B k m w =>
  match m w with
  | (Normal a, w') => k a w'
  | (Returned v, w') => (Returned v, w')
  | (Thrown e, w') => (Thrown e, w')
  end.

Definition lift {A} (m : exc A) : Eff A := fun w =>
  match m with
  | Ok a => (Normal a, w)
  | Throw e => (Thrown e, w)
  end.

(** [return v;] *)
Definition return_ {A} (v : jsval) : Eff A := fun w => (Returned v, w).

(** [try { body } catch (error) { handler }]: a [return] inside the block
    is not caught. *)
Definition Eff_try_catch {A} (body : Eff A) (handler : string → Eff A) : Eff A :=
  fun w =>
    match body w with
    | (Thrown e, w') => handler e w'
    | done => done
    end.

(** Calling a function whose body is [body]: the result is the value
    returned, early or at the end. *)
Definition call (body : Eff jsval) : Eff jsval := fun w =>
  match body w with
  | (Returned v, w') => (Normal v, w')
  | done => done
  end.

Definition read_args : Eff obj := fun w => (Normal (args w), w).

(** [args[key] = value] *)
Definition assign_arg (key : string) (value : jsval) : Eff unit := fun w =>
  (Normal (), {| nameToIdCache := nameToIdCache w;
             args := <[key := value]> (args w);
             writes := writes w |}).

Definition read_cache : Eff obj := fun w => (Normal (nameToIdCache w), w).

Definition write_cache (cache : obj) : Eff unit := fun w =>
  (Normal (), {| nameToIdCache := cache; args := args w; writes := writes w |}).

Definition record_write (wr : dbwrite) : Eff unit := fun w =>
  (Normal (), {| nameToIdCache := nameToIdCache w; args := args w;
             writes := writes w ++ [wr] |}).

(** [await supabase.from('appointments').insert(row).select().single()] *)
Definition db_insert (S : Store) (row : obj) : Eff response :=
  _ ← record_write (Inserted row); lift (insert_appointment S row).

(** [await supabase.from('appointments').update(changes).eq('id', id)] *)
Definition db_update (S : Store) (id : jsval) (changes : obj) : Eff response :=
  _ ← record_write (Updated id changes); lift (update_appointment S id changes).

(** ** The appointment manager *)

Record Session : Type := {
  organization_id : jsval;
  customer_id : jsval;
  chat_id : jsval
}.

Definition failure (message : string) : obj :=
  object [("success", JBool false); ("message", JStr message)].

(** The end time computed inside the [try] block of [createAppointment]. *)
Definition end_time_of (serviceData time : jsval) : exc jsval :=
  duration ← get_prop serviceData "duration";
  durationMinutes ← duration_minutes duration;
  match time with
  | JStr s =>
      let parts := Number <$> split ":"%char s in
      let hours := default NaN (parts !! 0%nat) in
      let minutes := default NaN (parts !! 1%nat) in
      let startMinutes := num_add (num_mul hours (Int 60)) minutes in
      let endMinutes := num_add startMinutes durationMinutes in
      let endHours := num_floor_div endMinutes 60 in
      let endMins := num_rem endMinutes 60 in
      Ok (JStr (padStart2 (num_toString endHours) +:+ ":" +:+
                padStart2 (num_toString endMins)))
  | JUndefined | JNull => Throw (type_error_read time "split")
  | _ => Throw "time.split is not a function"
  end.

(** The [try] block of [createAppointment]. *)
Definition createAppointment_try (S : Store) (R : Runtime)
    (scheduleId customerId date time serviceId notes providerId timezone : jsval)
    (session : Session) : Eff obj :=
  availabilityCheck ← lift (checkAvailability S R scheduleId date time serviceId timezone);
  available ← lift (get_prop (JObj availabilityCheck) "available");
  if negb (truthy available) then
    available_times ← lift (get_prop (JObj availabilityCheck) "available_times");
    times ← lift (as_array available_times "join");
    mret (failure ("The requested time slot is not available. Available times: "
                   +:+ js_join ", " times))
  else
    r ← lift (service_duration S serviceId);
    let serviceData := data r in
    if negb (truthy serviceData) then
      mret (failure ("Service not found with ID " +:+ to_string serviceId))
    else
      let endTime := keep_on_throw (end_time_of serviceData time) time in
      selectedProviderId ←
        (if negb (truthy providerId) then
           r ← lift (first_active_provider S scheduleId);
           let availableProvider := data r in
           if truthy availableProvider
           then lift (get_prop availableProvider "profile_id")
           else mret providerId
         else mret providerId);
      r ← db_insert S (object [
             ("schedule_id", scheduleId);
             ("customer_id", customerId);
             ("provider_id", selectedProviderId);
             ("service_id", serviceId);
             ("date", date);
             ("start_time", time);
             ("end_time", endTime);
             ("status", JStr "scheduled");
             ("notes", js_or notes (JStr ""));
             ("chat_id", chat_id session);
             ("metadata", JObj (object [
                ("created_via", JStr "agent_ia_action");
                ("creation_date", JStr (toISOString R))]))]);
      match error r with
      | Some message => lift (Throw message)
      | None =>
          let appointment := data r in
          let formattedDate := toLocaleDateString R date in
          appointment_id ← lift (get_prop appointment "id");
          title ← lift (get_prop serviceData "title");
          mret (object [
            ("success", JBool true);
            ("appointment_id", appointment_id);
            ("date", date);
            ("formatted_date", JStr formattedDate);
            ("time", time);
            ("end_time", endTime);
            ("service_id", serviceId);
            ("service_name", title);
            ("message", JStr ("Appointment successfully created for " +:+ formattedDate
                              +:+ " at " +:+ to_string time))])
      end.

(** [createAppointment(scheduleId, customerId, date, time, serviceId, notes,
    providerId, timezone, session)] *)
Definition createAppointment (S : Store) (R : Runtime)
    (scheduleId customerId date time serviceId notes providerId timezone : jsval)
    (session : Session) : Eff obj :=
  Eff_try_catch
    (createAppointment_try S R scheduleId customerId date time serviceId notes
       providerId timezone session)
    (fun message => mret (failure ("Error creating appointment: " +:+ message))).

(** [if (filter) query = query.eq(..., filter)] *)
Definition when_given (filter : jsval) : option jsval :=
  if truthy filter then Some filter else None.

(** The callback of [(data || []).map(...)] in [checkAppointment]. *)
Definition appointment_summary (R : Runtime) (apt : jsval) : exc jsval :=
  id ← get_prop apt "id";
  date ← get_prop apt "date";
  start_time ← get_prop apt "start_time";
  end_time ← get_prop apt "end_time";
  status ← get_prop apt "status";
  schedules ← get_prop apt "schedules";
  schedule_title ← get_prop_opt schedules "title";
  schedule_services ← get_prop apt "schedule_services";
  service_title ← get_prop_opt schedule_services "title";
  Ok (JObj (object [
    ("id", id);
    ("date", date);
    ("formatted_date", JStr (toLocaleDateString R date));
    ("time", start_time);
    ("end_time", end_time);
    ("status", status);
    ("schedule_name", js_or schedule_title (JStr "Agenda não especificada"));
    ("service_name", js_or service_title (JStr "Serviço não especificado"))])).

(** [checkAppointment(customerId, appointmentId, scheduleId)] *)
Definition checkAppointment (S : Store) (R : Runtime)
    (customerId appointmentId scheduleId : jsval) : exc obj :=
  try_catch
    (r ← customer_appointments S customerId (when_given scheduleId)
           (when_given appointmentId);
     match error r with
     | Some message => Throw message
     | None =>
         rows ← as_array (js_or (data r) (JArr [])) "map";
         appointments ← mapM (appointment_summary R) rows;
         Ok (object [
           ("success", JBool true);
           ("appointments", JArr appointments);
           ("count", JNum (Int (Z.of_nat (length appointments))));
           ("message", JStr
              (if bool_decide (0 < length appointments)%nat
               then "Found " +:+ count_text (length appointments) +:+ " appointment(s)"
               else "No appointments found"))])
     end)
    (fun message => Ok (failure ("Error checking appointments: " +:+ message))).

(** The [update] payload of a cancellation. *)
Definition cancellation (R : Runtime) (metadata : jsval) : obj :=
  object [
    ("status", JStr "canceled");
    ("metadata", JObj (spread (own_props metadata) [
       ("canceled_at", JStr (toISOString R));
       ("canceled_via", JStr "agent_ia_action")]))].

(** The loop of the by-date mode: every appointment found is cancelled in
    turn; the ones whose update reports no error are counted and listed. *)
Fixpoint cancel_each (S : Store) (R : Runtime) (appointments : list jsval)
    (canceled : list jsval) : Eff (list jsval) :=
  match appointments with
  | [] => mret canceled
  | appointment :: rest =>
      metadata ← lift (get_prop appointment "metadata");
      id ← lift (get_prop appointment "id");
      r ← db_update S id (cancellation R metadata);
      match error r with
      | Some _ => cancel_each S R rest canceled
      | None =>
          date ← lift (get_prop appointment "date");
          start_time ← lift (get_prop appointment "start_time");
          cancel_each S R rest
            (canceled ++ [JObj (object [("id", id); ("date", date);
                                        ("time", start_time)])])
      end
  end.

(** The [try] block of [deleteAppointment]. *)
Definition deleteAppointment_try (S : Store) (R : Runtime)
    (appointmentId customerId date scheduleId : jsval) : Eff obj :=
  if truthy appointmentId then
    r ← lift (open_appointment S appointmentId customerId);
    match error r with
    | Some _ =>
        mret (failure ("Appointment not found with ID " +:+ to_string appointmentId
                       +:+ " or it doesn't belong to this customer"))
    | None =>
        let appointment := data r in
        metadata ← lift (get_prop appointment "metadata");
        r ← db_update S appointmentId (cancellation R metadata);
        match error r with
        | Some message => lift (Throw message)
        | None =>
            appointment_date ← lift (get_prop appointment "date");
            let formattedDate := toLocaleDateString R appointment_date in
            start_time ← lift (get_prop appointment "start_time");
            mret (object [
              ("success", JBool true);
              ("appointment_id", appointmentId);
              ("date", appointment_date);
              ("formatted_date", JStr formattedDate);
              ("time", start_time);
              ("message", JStr ("Appointment successfully canceled for " +:+ formattedDate
                                +:+ " at " +:+ to_string start_time))])
        end
    end
  else if truthy date then
    r ← lift (customer_appointments_on S customerId date (when_given scheduleId));
    match error r with
    | Some message => lift (Throw message)
    | None =>
        let appointments := data r in
        if none_found appointments then
          mret (failure ("No appointments found for date " +:+ to_string date))
        else
          rows ← lift (as_array appointments "[Symbol.iterator]");
          canceledAppointments ← cancel_each S R rows [];
          let canceledCount := length canceledAppointments in
          let formattedDate := toLocaleDateString R date in
          mret (object [
            ("success", JBool true);
            ("canceled_count", JNum (Int (Z.of_nat canceledCount)));
            ("canceled_appointments", JArr canceledAppointments);
            ("date", date);
            ("formatted_date", JStr formattedDate);
            ("message", JStr ("Successfully canceled " +:+ count_text canceledCount
                              +:+ " appointment(s) for " +:+ formattedDate))])
    end
  else
    mret (failure "Either appointment_id or date is required to cancel appointments").

(** [deleteAppointment(appointmentId, customerId, date, scheduleId)] *)
Definition deleteAppointment (S : Store) (R : Runtime)
    (appointmentId customerId date scheduleId : jsval) : Eff obj :=
  Eff_try_catch (deleteAppointment_try S R appointmentId customerId date scheduleId)
    (fun message => mret (failure ("Error canceling appointment: " +:+ message))).

Definition error_result (message : string) : jsval :=
  JObj (object [("status", JStr "error"); ("message", JStr message)]).

Definition is_string (v : jsval) (s : string) : bool :=
  match v with
  | JStr s' => bool_decide (s' = s)
  | _ => false
  end.

(** The result of an operation with the context added (the end of
    [processCheckScheduleAction]). *)
Definition enrichedResult (result : obj) (operation date time : jsval)
    (serviceName scheduleName timezone : jsval) : jsval :=
  JObj (spread result [
    ("status", JStr (if truthy (or_undefined (result !! "success"))
                     then "success" else "error"));
    ("operation", operation);
    ("data", JObj (spread result [
       ("service_name", serviceName);
       ("schedule_name", scheduleName);
       ("appointment_date", date);
       ("appointment_time", time);
       ("timezone", timezone)]))]).

(** The [try] block of [processCheckScheduleAction]. *)
Definition processCheckScheduleAction_try (S : Store) (R : Runtime)
    (action : jsval) (args : obj) (session : Session) : Eff jsval :=
  action_config ← lift (get_prop_opt action "config");
  let config := js_or action_config (JObj ∅) in
  let operation := or_undefined (args !! "operation") in
  let date := or_undefined (args !! "date") in
  let time := or_undefined (args !! "time") in
  let appointmentId := or_undefined (args !! "appointment_id") in
  let serviceId := or_undefined (args !! "service_id") in
  let providerId := or_undefined (args !! "provider_id") in
  let notes := or_undefined (args !! "notes") in
  if negb (truthy operation) then
    return_ (error_result "Operation parameter is required for schedule actions.")
  else
    scheduleId ← lift (get_prop config "scheduleId");
    if negb (truthy scheduleId) then
      return_ (error_result "No schedule configured for this action.")
    else
      r ← lift (schedule_timezone S scheduleId);
      let scheduleData := data r in
      schedule_tz ← lift (get_prop_opt scheduleData "timezone");
      let timezone := js_or schedule_tz (JStr "America/Sao_Paulo") in
      schedule_title ← lift (get_prop_opt scheduleData "title");
      let scheduleName := js_or schedule_title (JStr "Agenda") in
      serviceName ←
        (if truthy serviceId then
           r ← lift (service_info S serviceId);
           let service := data r in
           if truthy service then lift (get_prop service "title")
           else mret (JStr "Serviço não especificado")
         else mret (JStr "Serviço não especificado"));
      result ←
        (if is_string operation "checkAvailability" then
           lift (checkAvailability S R scheduleId date time serviceId timezone)
         else if is_string operation "createAppointment" then
           if negb (truthy date) || negb (truthy serviceId) then
             let missingParams :=
               (if negb (truthy date) then ["date"] else []) ++
               (if negb (truthy serviceId) then ["service_id"] else []) in
             return_ (error_result ("Missing required parameters: "
                                    +:+ join ", " missingParams))
           else
             createAppointment S R scheduleId (customer_id session) date time
               serviceId notes providerId timezone session
         else if is_string operation "checkAppointment" then
           lift (checkAppointment S R (customer_id session) appointmentId scheduleId)
         else if is_string operation "deleteAppointment" then
           if negb (truthy appointmentId) && negb (truthy date) then
             return_ (error_result
               "Either appointment_id or date is required to cancel appointments.")
           else
             deleteAppointment S R appointmentId (customer_id session) date scheduleId
         else
           return_ (error_result ("Unsupported operation: " +:+ to_string operation)));
      mret (enrichedResult result operation date time serviceName scheduleName timezone).

(** [processCheckScheduleAction(action, args, session)] *)
Definition processCheckScheduleAction (S : Store) (R : Runtime)
    (action : jsval) (args : obj) (session : Session) : Eff jsval :=
  call (Eff_try_catch (processCheckScheduleAction_try S R action args session)
    (fun message =>
       return_ (error_result ("Error processing schedule action: " +:+ message)))).

(** ** The tool dispatcher *)

(** The three executors injected by the caller. *)
Record Executors : Type := {
  processUpdateCustomerAction : jsval → obj → Session → exc jsval;
  processUpdateChatAction : jsval → obj → Session → exc jsval;
  processStartFlowAction : jsval → obj → Session → exc jsval
}.

Record Tool : Type := { name : string }.

(** [actionsSystem.find(action => action.name === tool.name)] *)
Fixpoint find_action (tool : Tool) (actions : list jsval) : exc jsval :=
  match actions with
  | [] => Ok JUndefined
  | action :: rest =>
      action_name ← get_prop action "name";
      if is_string action_name (name tool) then Ok action else find_action tool rest
  end.

(** [setCachedMap] on the module-level cache. *)
Definition store_in_cache (R : Runtime) (organizationId : jsval) (type : string)
    (map subKey : jsval) : Eff unit :=
  cache ← read_cache;
  cache' ← lift (setCachedMap (Date_now R) cache organizationId type map subKey);
  write_cache cache'.

(** [getCachedMap] on the module-level cache. *)
Definition look_in_cache (R : Runtime) (organizationId : jsval) (type : string)
    (subKey : jsval) : Eff jsval :=
  cache ← read_cache;
  lift (getCachedMap (Date_now R) cache organizationId type subKey).

Definition arg (key : string) : Eff jsval :=
  a ← read_args; mret (or_undefined (a !! key)).

(** Step 1 of the schedule case: [service_name] to [service_id], when the
    name is given. An unknown service ends the call. *)
Definition resolve_service_name (S : Store) (R : Runtime) (session : Session)
    (scheduleId : jsval) : Eff unit :=
  service_name ← arg "service_name";
  if truthy service_name then
    cached ← look_in_cache R (organization_id session) "services" scheduleId;
    serviceMap ←
      (if negb (truthy cached) then
         r ← lift (active_services S scheduleId);
         let services := data r in
         if none_found services then
           return_ (error_result "No services found for this schedule.")
         else
           built ← lift (createNameToIdMap R services "title" "id");
           _ ← store_in_cache R (organization_id session) "services"
                 (JObj built) scheduleId;
           mret (JObj built)
       else mret cached);
    serviceName ← lift (lower_name R service_name);
    found ← lift (get_prop serviceMap serviceName);
    if truthy found then assign_arg "service_id" found
    else return_ (error_result
           ("Service " +:+ quote +:+ to_string service_name +:+ quote
            +:+ " not found. Please choose a valid service."))
  else mret ().

(** The rows handed to the name-map builder for providers:
    [providers.map(p => p.profiles)]. *)
Definition profiles_of (providers : jsval) : exc jsval :=
  rows ← as_array providers "map";
  profiles ← mapM (fun p => get_prop p "profiles") rows;
  Ok (JArr profiles).

(** Step 2 of the schedule case: [provider_name] to [provider_id], when the
    name is given. An unknown provider is let through. *)
Definition resolve_provider_name (S : Store) (R : Runtime) (session : Session)
    (scheduleId : jsval) : Eff unit :=
  provider_name ← arg "provider_name";
  if truthy provider_name then
    cached ← look_in_cache R (organization_id session) "providers" scheduleId;
    providerMap ←
      (if negb (truthy cached) then
         r ← lift (active_providers_profiles S scheduleId);
         let providers := data r in
         if none_found providers then mret cached
         else
           profiles ← lift (profiles_of providers);
           built ← lift (createNameToIdMap R profiles "full_name" "id");
           _ ← store_in_cache R (organization_id session) "providers"
                 (JObj built) scheduleId;
           mret (JObj built)
       else mret cached);
    if truthy providerMap then
      providerName ← lift (lower_name R provider_name);
      found ← lift (get_prop providerMap providerName);
      if truthy found then assign_arg "provider_id" found else mret ()
    else mret ()
  else mret ().

(** [case 'schedule': { ... }] *)
Definition schedule_case (S : Store) (R : Runtime) (action : jsval)
    (session : Session) : Eff jsval :=
  config ← lift (get_prop action "config");
  schedule ← lift (get_prop config "schedule");
  if negb (truthy schedule) then return_ (error_result "Schedule ID is required.")
  else
    r ← lift (active_schedules S (organization_id session) schedule);
    let schedules := data r in
    if bool_decide (is_Some (error r)) then
      return_ (error_result "No active schedules found for this organization.")
    else if none_found schedules then
      return_ (error_result "No active schedules found for this organization.")
    else
      first ← lift (get_prop schedules "0");
      scheduleId ← lift (get_prop first "id");
      _ ← resolve_service_name S R session scheduleId;
      _ ← resolve_provider_name S R session scheduleId;
      operation ← arg "operation";
      date ← arg "date";
      time ← arg "time";
      appointmentId ← arg "appointmentId";
      serviceId ← arg "serviceId";
      notes ← arg "notes";
      let actionReturn := JObj (object [
        ("type", operation);
        ("config", JObj (object [
           ("scheduleId", scheduleId);
           ("operation", operation);
           ("date", date);
           ("time", time);
           ("appointmentId", appointmentId);
           ("serviceId", serviceId);
           ("notes", notes)]))]) in
      a ← read_args;
      result ← processCheckScheduleAction S R actionReturn a session;
      return_ result.

(** [case 'update_customer': { ... }] *)
Definition update_customer_case (X : Executors) (session : Session) : Eff jsval :=
  customer_name ← arg "name";
  let action := JObj (object [
    ("type", JStr "update_customer");
    ("config", JObj (object [("name", customer_name)]))]) in
  a ← read_args;
  result ← lift (processUpdateCustomerAction X action a session);
  return_ result.

(** The first part of the chat case: [team_name] to [team_id], when the
    name is given. An unknown team ends the call; an organization without
    teams is let through. *)
Definition resolve_team_name (S : Store) (R : Runtime) (session : Session) : Eff unit :=
  team_name ← arg "team_name";
  if truthy team_name then
    cached ← look_in_cache R (organization_id session) "teams" JNull;
    teamMap ←
      (if negb (truthy cached) then
         r ← lift (teams_of S (organization_id session));
         let teams := data r in
         if none_found teams then mret cached
         else
           built ← lift (createNameToIdMap R teams "name" "id");
           _ ← store_in_cache R (organization_id session) "teams" (JObj built) JNull;
           mret (JObj built)
       else mret cached);
    if truthy teamMap then
      teamName ← lift (lower_name R team_name);
      found ← lift (get_prop teamMap teamName);
      if truthy found then assign_arg "team_id" found
      else return_ (error_result
             ("Team " +:+ quote +:+ to_string team_name +:+ quote
              +:+ " not found. Please choose a valid team."))
    else mret ()
  else mret ().

(** [case 'update_chat': { ... }] *)
Definition update_chat_case (S : Store) (R : Runtime) (X : Executors)
    (session : Session) : Eff jsval :=
  _ ← resolve_team_name S R session;
  title ← arg "title";
  status ← arg "status";
  team_id ← arg "team_id";
  let action := JObj (object [
    ("type", JStr "update_chat");
    ("config", JObj (object [("title", title); ("status", status);
                             ("teamId", team_id)]))]) in
  a ← read_args;
  result ← lift (processUpdateChatAction X action a session);
  return_ result.

(** The first part of the flow case: [flow_name], which is required, to
    [flow_id]. An unknown flow ends the call. *)
Definition resolve_flow_name (S : Store) (R : Runtime) (session : Session) : Eff unit :=
  flow_name ← arg "flow_name";
  if negb (truthy flow_name) then return_ (error_result "Flow name is required.")
  else
    cached ← look_in_cache R (organization_id session) "flows" JNull;
    flowMap ←
      (if negb (truthy cached) then
         r ← lift (active_flows S (organization_id session));
         let flows := data r in
         if none_found flows then
           return_ (error_result "No active flows found for this organization.")
         else
           built ← lift (createNameToIdMap R flows "name" "id");
           _ ← store_in_cache R (organization_id session) "flows" (JObj built) JNull;
           mret (JObj built)
       else mret cached);
    flowName ← lift (lower_name R flow_name);
    found ← lift (get_prop flowMap flowName);
    if truthy found then assign_arg "flow_id" found
    else return_ (error_result
           ("Flow " +:+ quote +:+ to_string flow_name +:+ quote
            +:+ " not found. Please choose a valid flow.")).

(** [case 'start_flow': { ... }] *)
Definition start_flow_case (S : Store) (R : Runtime) (X : Executors)
    (session : Session) : Eff jsval :=
  _ ← resolve_flow_name S R session;
  flow_id ← arg "flow_id";
  let action := JObj (object [
    ("type", JStr "start_flow");
    ("config", JObj (object [("flowId", flow_id)]))]) in
  a ← read_args;
  result ← lift (processStartFlowAction X action a session);
  return_ result.

(** The [try] block of [handleSystemToolCall]. *)
Definition handleSystemToolCall_try (S : Store) (R : Runtime) (X : Executors)
    (tool : Tool) (actionsSystem : jsval) (session : Session) : Eff jsval :=
  actions ← lift (as_array actionsSystem "find");
  action ← lift (find_action tool actions);
  _ ← lift (get_prop action "config");
  type ← lift (get_prop action "type");
  if is_string type "schedule" then schedule_case S R action session
  else if is_string type "update_customer" then update_customer_case X session
  else if is_string type "update_chat" then update_chat_case S R X session
  else if is_string type "start_flow" then start_flow_case S R X session
  else return_ (error_result ("Unrecognized system tool: " +:+ name tool)).

(** [handleSystemToolCall(tool, args, actionsSystem, session, executors)];
    the argument object [args] is the one of the state. *)
Definition handleSystemToolCall (S : Store) (R : Runtime) (X : Executors)
    (tool : Tool) (actionsSystem : jsval) (session : Session) : Eff jsval :=
  call (Eff_try_catch (handleSystemToolCall_try S R X tool actionsSystem session)
    (fun message =>
       return_ (error_result ("Error processing system tool " +:+ name tool
                              +:+ ": " +:+ message)))).

(** ** The tool catalog generator *)

Definition string_param (description : string) : jsval :=
  JObj (object [("type", JStr "string"); ("description", JStr description)]).

Definition enum_param (enum : list jsval) (description : string) : jsval :=
  JObj (object [("type", JStr "string"); ("enum", JArr enum);
                ("description", JStr description)]).

(** [v && v.length > 0] *)
Definition some_found (v : jsval) : bool :=
  truthy v &&
  match get_prop v "length" with
  | Ok len => num_lt (Int 0) (to_number len)
  | Throw _ => false
  end.

(** [provider.profiles?.full_name] *)
Definition profile_name (provider : jsval) : exc jsval :=
  profiles ← get_prop provider "profiles";
  get_prop_opt profiles "full_name".

(** [generateScheduleTool(organizationId, action)] *)
Definition generateScheduleTool (S : Store) (organizationId action : jsval) : exc jsval :=
  config ← get_prop action "config";
  schedule ← get_prop config "schedule";
  if negb (truthy schedule) then Ok JNull
  else
    try_catch
      (r ← active_schedules S organizationId schedule;
       match error r with
       | Some message => Throw message
       | None =>
           let schedules := data r in
           if none_found schedules then Ok JNull
           else
             first ← get_prop schedules "0";
             scheduleId ← get_prop first "id";
             scheduleName ← get_prop first "title";
             r ← active_services S scheduleId;
             match error r with
             | Some message => Throw message
             | None =>
                 let services := data r in
                 r ← active_providers_profiles S scheduleId;
                 match error r with
                 | Some message => Throw message
                 | None =>
                     let providers := data r in
                     action_name ← get_prop action "name";
                     toolName ← transformToolName
                                  (js_or action_name (JStr "schedule_appointment"));
                     description ← get_prop action "description";
                     let toolDescription :=
                       js_or description
                         (JStr ("Agendar, consultar ou cancelar compromissos na agenda "
                                +:+ quote +:+ to_string scheduleName +:+ quote
                                +:+ ". Use esta ferramenta quando o cliente quiser agendar, verificar disponibilidade ou cancelar um agendamento existente.")) in
                     service_param ←
                       (if some_found services then
                          rows ← as_array services "map";
                          titles ← mapM (fun service => get_prop service "title") rows;
                          Ok [("service_name",
                               enum_param titles "Nome do serviço a ser agendado.")]
                        else Ok []);
                     provider_param ←
                       (if some_found providers then
                          rows ← as_array providers "some";
                          names ← mapM profile_name rows;
                          if existsb truthy names then
                            Ok [("provider_name",
                                 enum_param (filter (fun n => truthy n = true) names)
                                   "Nome do profissional que realizará o atendimento.")]
                          else Ok []
                        else Ok []);
                     Ok (JObj (object [
                       ("name", JStr toolName);
                       ("description", toolDescription);
                       ("parameters", JObj (object [
                          ("type", JStr "object");
                          ("properties", JObj (object (
                             [("operation",
                               enum_param [JStr "checkAvailability"; JStr "createAppointment";
                                           JStr "checkAppointment"; JStr "deleteAppointment"]
                                 "Operação a ser realizada no sistema de agendamento.");
                              ("date", string_param
                                 "Data para o agendamento no formato YYYY-MM-DD (ex: 2023-12-31).");
                              ("time", string_param
                                 "Horário para o agendamento no formato HH:MM (ex: 14:30).")]
                             ++ service_param ++ provider_param ++
                             [("notes", string_param
                                 "Observações ou notas adicionais para o agendamento.");
                              ("appointment_id", string_param
                                 "ID do agendamento para operações de consulta ou cancelamento.")])));
                          ("required", JArr [JStr "operation"])]))]))
                 end
             end
       end)
      (fun _ => Ok JNull).

(** [generateUpdateCustomerTool(action)] *)
Definition generateUpdateCustomerTool (action : jsval) : exc jsval :=
  action_title ← get_prop action "title";
  toolName ← transformToolName (js_or action_title (JStr "update_customer"));
  description ← get_prop action "description";
  let toolDescription :=
    js_or description
      (JStr "Atualizar informações do cliente, como nome, email, telefone ou estágio no funil.") in
  Ok (JObj (object [
    ("name", JStr toolName);
    ("description", toolDescription);
    ("parameters", JObj (object [
       ("type", JStr "object");
       ("properties", JObj (object [
          ("name", string_param "Novo nome para o cliente.");
          ("email", string_param "Novo endereço de email para o cliente.");
          ("phone", string_param "Novo número de telefone para o cliente.");
          ("funnel_stage", string_param
             "Estágio do funil para o qual o cliente deve ser movido. Use o nome do estágio.");
          ("tags", JObj (object [
             ("type", JStr "array");
             ("items", JObj (object [("type", JStr "string")]));
             ("description", JStr "Tags a serem aplicadas ao cliente.")]))]))]))])).

(** [generateUpdateChatTool(action)] *)
Definition generateUpdateChatTool (action : jsval) : exc jsval :=
  action_name ← get_prop action "name";
  toolName ← transformToolName (js_or action_name (JStr "update_chat"));
  description ← get_prop action "description";
  let toolDescription :=
    js_or description
      (JStr "Atualizar informações do chat atual, como título, status ou equipe responsável.") in
  Ok (JObj (object [
    ("name", JStr toolName);
    ("description", toolDescription);
    ("parameters", JObj (object [
       ("type", JStr "object");
       ("properties", JObj (object [
          ("title", string_param "Novo título para o chat.");
          ("status", enum_param [JStr "in_progress"; JStr "waiting"; JStr "closed";
                                 JStr "transferred"] "Novo status para o chat.");
          ("team_name", string_param
             "Nome da equipe que deve ser responsável pelo chat.")]))]))])).

(** [generateStartFlowTool(organizationId, action)] *)
Definition generateStartFlowTool (S : Store) (organizationId action : jsval) : exc jsval :=
  try_catch
    (r ← active_flows S organizationId;
     match error r with
     | Some message => Throw message
     | None =>
         let flows := data r in
         if none_found flows then Ok JNull
         else
           action_name ← get_prop action "name";
           toolName ← transformToolName (js_or action_name (JStr "start_flow"));
           description ← get_prop action "description";
           let toolDescription :=
             js_or description
               (JStr "Iniciar um fluxo de automação para processar uma tarefa específica.") in
           rows ← as_array flows "map";
           names ← mapM (fun flow => get_prop flow "name") rows;
           Ok (JObj (object [
             ("name", JStr toolName);
             ("description", toolDescription);
             ("parameters", JObj (object [
                ("type", JStr "object");
                ("properties", JObj (object [
                   ("flow_name", enum_param names "Nome do fluxo a ser iniciado.");
                   ("variables", JObj (object [
                      ("type", JStr "object");
                      ("description", JStr "Variáveis a serem passadas para o fluxo.");
                      ("additionalProperties", JBool true)]))]));
                ("required", JArr [JStr "flow_name"])]))]))
     end)
    (fun _ => Ok JNull).

(** One iteration of the loop of [generateSystemTools]: the tool an action
    yields, or [null] when the action is skipped. *)
Definition generate_tool (S : Store) (organizationId action : jsval) : exc jsval :=
  if negb (truthy action) then Ok JNull
  else
    type ← get_prop action "type";
    if negb (truthy type) then Ok JNull
    else if is_string type "schedule" then generateScheduleTool S organizationId action
    else if is_string type "update_customer" then generateUpdateCustomerTool action
    else if is_string type "update_chat" then generateUpdateChatTool action
    else if is_string type "start_flow" then generateStartFlowTool S organizationId action
    else Ok JNull.

Fixpoint generate_tools (S : Store) (organizationId : jsval) (actions : list jsval)
    (tools : list jsval) : exc (list jsval) :=
  match actions with
  | [] => Ok tools
  | action :: rest =>
      tool ← generate_tool S organizationId action;
      generate_tools S organizationId rest
        (if truthy tool then tools ++ [tool] else tools)
  end.

(** [generateSystemTools(organizationId, systemActions)] *)
Definition generateSystemTools (S : Store) (organizationId systemActions : jsval)
    : exc (list jsval) :=
  try_catch
    (actions ← as_array (match systemActions with
                         | JUndefined => JArr []
                         | _ => systemActions
                         end) "[Symbol.iterator]";
     generate_tools S organizationId actions [])
    (fun _ => Ok []).

(** ** An in-memory store

    Tables are lists of rows (objects). The queries are answered the way the
    query builder calls of the source read: [eq] keeps the rows whose column
    has the given value, [in] and [not in] test the column against a list,
    [single] demands exactly one row and reports an error otherwise. Writes
    are acknowledged; the tables themselves are those of the moment of the
    call. *)
Record Database : Type := {
  schedules : list jsval;
  schedule_services : list jsval;
  schedule_providers : list jsval;
  schedule_availability : list jsval;
  appointments : list jsval;
  teams : list jsval;
  flows : list jsval
}.

Definition column (row : jsval) (col : string) : jsval :=
  match get_prop row col with
  | Ok v => v
  | Throw _ => JUndefined
  end.

(** [.eq(col, v)]: a [null] column matches nothing. *)
Definition column_is (col : string) (v : jsval) (row : jsval) : bool :=
  negb (nullish (column row col)) &&
  bool_decide (to_string (column row col) = to_string v).

(** [.in(col, values)] *)
Definition column_in (col : string) (values : list jsval) (row : jsval) : bool :=
  existsb (fun v => column_is col v row) values.

(** [.not(col, 'in', values)] *)
Definition column_not_in (col : string) (values : list jsval) (row : jsval) : bool :=
  negb (nullish (column row col)) && negb (column_in col values row).

Definition is_open (row : jsval) : bool :=
  column_in "status" [JStr "scheduled"; JStr "confirmed"] row.

Definition select (keep : jsval → bool) (table : list jsval) : list jsval :=
  filter (fun row => keep row = true) table.

Definition found (rows : list jsval) : exc response :=
  Ok {| data := JArr rows; error := None |}.

(** [.single()] *)
Definition single (rows : list jsval) : exc response :=
  match rows with
  | [row] => Ok {| data := row; error := None |}
  | _ => Ok {| data := JNull;
               error := Some "JSON object requested, multiple (or no) rows returned" |}
  end.

Definition optional_filter (col : string) (filter : option jsval) (row : jsval) : bool :=
  match filter with
  | Some v => column_is col v row
  | None => true
  end.

(** [.order('date').order('start_time')] *)
Definition earlier (r1 r2 : jsval) : Prop :=
  String.le (to_string (column r1 "date") +:+ " " +:+ to_string (column r1 "start_time"))
            (to_string (column r2 "date") +:+ " " +:+ to_string (column r2 "start_time")).

#[global] Instance earlier_dec : RelDecision earlier.
Proof. intros r1 r2. unfold earlier. apply _. Defined.

Definition store_of (db : Database) : Store := {|
  active_schedules org id :=
    found (select (fun row => column_is "organization_id" org row &&
                              column_is "id" id row &&
                              column_is "status" (JStr "active") row) (schedules db));
  active_services schedule :=
    found (select (fun row => column_is "schedule_id" schedule row &&
                              column_is "status" (JStr "active") row)
             (schedule_services db));
  active_providers_profiles schedule :=
    found (select (fun row => column_is "schedule_id" schedule row &&
                              column_is "status" (JStr "active") row)
             (schedule_providers db));
  active_flows org :=
    found (select (fun row => column_is "organization_id" org row &&
                              column_is "is_active" (JBool true) row) (flows db));
  teams_of org :=
    found (select (column_is "organization_id" org) (teams db));
  schedule_timezone id := single (select (column_is "id" id) (schedules db));
  schedule_row id := single (select (column_is "id" id) (schedules db));
  service_info id := single (select (column_is "id" id) (schedule_services db));
  service_duration id := single (select (column_is "id" id) (schedule_services db));
  active_providers schedule :=
    found (select (fun row => column_is "schedule_id" schedule row &&
                              column_is "status" (JStr "active") row)
             (schedule_providers db));
  availability_on providers day :=
    found (select (fun row => column_in "provider_id" providers row &&
                              column_is "day_of_week" (JNum day) row)
             (schedule_availability db));
  appointments_on schedule date :=
    found (select (fun row => column_is "schedule_id" schedule row &&
                              column_is "date" date row &&
                              column_not_in "status" [JStr "canceled"] row)
             (appointments db));
  first_active_provider schedule :=
    single (take 1 (select (fun row => column_is "schedule_id" schedule row &&
                                       column_is "status" (JStr "active") row)
                      (schedule_providers db)));
  insert_appointment row :=
    Ok {| data := JObj (<["id" := JStr "new-appointment"]> row); error := None |};
  customer_appointments customer schedule id :=
    found (merge_sort earlier
             (select (fun row => column_is "customer_id" customer row && is_open row &&
                                 optional_filter "schedule_id" schedule row &&
                                 optional_filter "id" id row) (appointments db)));
  open_appointment id customer :=
    single (select (fun row => column_is "id" id row &&
                               column_is "customer_id" customer row && is_open row)
              (appointments db));
  update_appointment id changes := Ok {| data := JNull; error := None |};
  customer_appointments_on customer date schedule :=
    found (select (fun row => column_is "customer_id" customer row &&
                              column_is "date" date row && is_open row &&
                              optional_filter "schedule_id" schedule row)
             (appointments db))
|}.

(** A store whose lookup of the active providers of a schedule throws. *)
Definition without_providers (S : Store) (message : string) : Store := {|
  active_schedules := active_schedules S;
  active_services := active_services S;
  active_providers_profiles := active_providers_profiles S;
  active_flows := active_flows S;
  teams_of := teams_of S;
  schedule_timezone := schedule_timezone S;
  schedule_row := schedule_row S;
  service_info := service_info S;
  service_duration := service_duration S;
  active_providers _ := Throw message;
  availability_on := availability_on S;
  appointments_on := appointments_on S;
  first_active_provider := first_active_provider S;
  insert_appointment := insert_appointment S;
  customer_appointments := customer_appointments S;
  open_appointment := open_appointment S;
  update_appointment := update_appointment S;
  customer_appointments_on := customer_appointments_on S
|}.

(** A store whose lookup of the appointments of a day answers with an error
    and no data. *)
Definition without_appointments (S : Store) (message : string) : Store := {|
  active_schedules := active_schedules S;
  active_services := active_services S;
  active_providers_profiles := active_providers_profiles S;
  active_flows := active_flows S;
  teams_of := teams_of S;
  schedule_timezone := schedule_timezone S;
  schedule_row := schedule_row S;
  service_info := service_info S;
  service_duration := service_duration S;
  active_providers := active_providers S;
  availability_on := availability_on S;
  appointments_on _ _ := Ok {| data := JNull; error := Some message |};
  first_active_provider := first_active_provider S;
  insert_appointment := insert_appointment S;
  customer_appointments := customer_appointments S;
  open_appointment := open_appointment S;
  update_appointment := update_appointment S;
  customer_appointments_on := customer_appointments_on S
|}.

(** ** A small organization

    One schedule with the service "Corte" (30 minutes) and one provider who
    works on Mondays from 09:00 to 10:00; one appointment already taken at
    09:30 on Monday 2024-01-08. *)
Module Salon.

(** A lower-casing for the example runtime: the letters A to Z, and the
    accented capital letters of Latin-1 in their two-byte UTF-8 form (first
    byte 195, second byte 128 to 158 except the multiplication sign, 151),
    whose lower-case form has the second byte 32 higher. *)
Fixpoint lower_latin (l : list ascii) : list ascii :=
  match l with
  | [] => []
  | c :: t =>
      match t with
      | d :: t' =>
          if ((code c =? 195) && (128 <=? code d) && (code d <=? 158) &&
              negb (code d =? 151))%N
          then c :: ascii_of_N (code d + 32) :: lower_latin t'
          else lower_char c :: lower_latin t
      | [] => [lower_char c]
      end
  end.

Definition schedule : jsval := JObj (object [
  ("id", JStr "sch-1"); ("title", JStr "Salão"); ("timezone", JStr "America/Sao_Paulo");
  ("organization_id", JStr "org-1"); ("status", JStr "active")]).

Definition corte : jsval := JObj (object [
  ("id", JStr "svc-1"); ("title", JStr "Corte"); ("duration", JStr "00:30");
  ("by_arrival_time", JBool false); ("capacity", JNum (Int 1));
  ("schedule_id", JStr "sch-1"); ("status", JStr "active")]).

Definition ana : jsval := JObj (object [
  ("id", JStr "prov-1"); ("profile_id", JStr "prof-1"); ("schedule_id", JStr "sch-1");
  ("status", JStr "active");
  ("profiles", JObj (object [("id", JStr "prof-1"); ("full_name", JStr "Ana")]))]).

Definition monday_morning : jsval := JObj (object [
  ("provider_id", JStr "prov-1"); ("day_of_week", JNum (Int 1));
  ("start_time", JStr "09:00"); ("end_time", JStr "10:00")]).

Definition taken : jsval := JObj (object [
  ("id", JStr "apt-1"); ("schedule_id", JStr "sch-1"); ("customer_id", JStr "cust-1");
  ("provider_id", JStr "prof-1"); ("service_id", JStr "svc-1");
  ("date", JStr "2024-01-08"); ("start_time", JStr "09:30"); ("end_time", JStr "10:00");
  ("status", JStr "scheduled"); ("metadata", JObj ∅)]).

Definition canceled : jsval := JObj (object [
  ("id", JStr "apt-0"); ("schedule_id", JStr "sch-1"); ("customer_id", JStr "cust-1");
  ("provider_id", JStr "prof-1"); ("service_id", JStr "svc-1");
  ("date", JStr "2024-01-08"); ("start_time", JStr "09:00"); ("end_time", JStr "09:30");
  ("status", JStr "canceled"); ("metadata", JObj ∅)]).

Definition db : Database := {|
  schedules := [schedule];
  schedule_services := [corte];
  schedule_providers := [ana];
  schedule_availability := [monday_morning];
  appointments := [canceled; taken];
  teams := [JObj (object [("id", JStr "team-1"); ("name", JStr "Vendas");
                          ("organization_id", JStr "org-1")])];
  flows := [JObj (object [("id", JStr "flow-1"); ("name", JStr "Boas-vindas");
                          ("organization_id", JStr "org-1"); ("is_active", JBool true)])]
|}.

Definition store : Store := store_of db.

(** A runtime whose clock reads one second and for which every date is a
    Monday. *)
Definition runtime : Runtime := {|
  Date_now := 1000;
  getDay _ := Int 1;
  toLocaleDateString date := to_string date;
  toISOString := "2024-01-01T00:00:00.000Z";
  String_toLowerCase s := of_chars (lower_latin (chars s))
|}.

Definition session : Session := {|
  organization_id := JStr "org-1";
  customer_id := JStr "cust-1";
  chat_id := JStr "chat-1"
|}.

(** Executors that acknowledge every call. *)
Definition executors : Executors := {|
  processUpdateCustomerAction _ _ _ :=
    Ok (JObj (object [("status", JStr "success"); ("message", JStr "customer updated")]));
  processUpdateChatAction _ _ _ :=
    Ok (JObj (object [("status", JStr "success"); ("message", JStr "chat updated")]));
  processStartFlowAction _ _ _ :=
    Ok (JObj (object [("status", JStr "success"); ("message", JStr "flow started")]))
|}.

Definition world (arguments : obj) : World :=
  {| nameToIdCache := ∅; args := arguments; writes := [] |}.

Definition early : jsval := JObj (object [
  ("id", JStr "apt-2"); ("schedule_id", JStr "sch-1"); ("customer_id", JStr "cust-2");
  ("provider_id", JStr "prof-1"); ("service_id", JStr "svc-1");
  ("date", JStr "2024-01-08"); ("start_time", JStr "09:00"); ("end_time", JStr "09:30");
  ("status", JStr "confirmed"); ("metadata", JObj ∅)]).

(** The same organization on a fully booked Monday. *)
Definition booked : Store :=
  store_of {|
    schedules := schedules db;
    schedule_services := schedule_services db;
    schedule_providers := schedule_providers db;
    schedule_availability := schedule_availability db;
    appointments := [early; taken];
    teams := teams db;
    flows := flows db
  |}.

(** The same organization while the provider lookup fails. *)
Definition offline : Store := without_providers store "fetch failed".

Definition coloracao : jsval := JObj (object [
  ("id", JStr "svc-2"); ("title", JStr "Coloração"); ("duration", JStr "01:00");
  ("by_arrival_time", JBool false); ("capacity", JNum (Int 1));
  ("schedule_id", JStr "sch-1"); ("status", JStr "active")]).

(** The same organization with two teams whose names differ in case only. *)
Definition two_sections : Store :=
  store_of {|
    schedules := schedules db;
    schedule_services := schedule_services db;
    schedule_providers := schedule_providers db;
    schedule_availability := schedule_availability db;
    appointments := appointments db;
    teams := [JObj (object [("id", JStr "team-2"); ("name", JStr "Seção");
                            ("organization_id", JStr "org-1")]);
              JObj (object [("id", JStr "team-3"); ("name", JStr "SEÇÃO");
                            ("organization_id", JStr "org-1")])];
    flows := flows db
  |}.

(** The same organization with a second service. *)
Definition two_services : Store :=
  store_of {|
    schedules := schedules db;
    schedule_services := [corte; coloracao];
    schedule_providers := schedule_providers db;
    schedule_availability := schedule_availability db;
    appointments := appointments db;
    teams := teams db;
    flows := flows db
  |}.

End Salon.

(** The fields of the argument object that hold resolved identifiers. *)
Definition id_fields : list string :=
  ["service_id"; "provider_id"; "team_id"; "flow_id"].

(** The injected executors keep to the result envelope. *)
Definition is_envelope (v : jsval) : Prop :=
  ∃ result, v = JObj result ∧
    (result !! "status" = Some (JStr "success") ∨
     result !! "status" = Some (JStr "error")) ∧
    is_Some (result !! "message").

Definition executors_return_envelopes (X : Executors) : Prop :=
  (∀ action a session v,
     processUpdateCustomerAction X action a session = Ok v → is_envelope v) ∧
  (∀ action a session v,
     processUpdateChatAction X action a session = Ok v → is_envelope v) ∧
  (∀ action a session v,
     processStartFlowAction X action a session = Ok v → is_envelope v).

(** ** Vocabulary for the statements about the dispatcher *)

(** The dispatcher finds [action] under the tool's name and takes the case
    of the given type. *)
Definition dispatches (tool : Tool) (actionsSystem : jsval) (type : string)
    (action : jsval) : Prop :=
  ∃ actions config,
    as_array actionsSystem "find" = Ok actions ∧
    find_action tool actions = Ok action ∧
    get_prop action "config" = Ok config ∧
    get_prop action "type" = Ok (JStr type).

(** The schedule case finds the configured schedule active and goes on with
    its identifier. *)
Definition schedule_found (S : Store) (session : Session) (action scheduleId : jsval)
    : Prop :=
  ∃ config schedule r first,
    get_prop action "config" = Ok config ∧
    get_prop config "schedule" = Ok schedule ∧ truthy schedule = true ∧
    active_schedules S (organization_id session) schedule = Ok r ∧
    error r = None ∧ none_found (data r) = false ∧
    get_prop (data r) "0" = Ok first ∧
    get_prop first "id" = Ok scheduleId.

(** The name map a resolution step works with, and the cache it leaves:
    the cached map when there is a valid one, otherwise the map built from
    the rows fetched, which is stored. *)
Definition name_map (R : Runtime) (cache : obj) (organizationId : jsval)
    (type : string) (subKey : jsval) (fetched : exc response)
    (rows_of : jsval → exc jsval) (nameKey : string)
    (map : jsval) (cache' : obj) : Prop :=
  (getCachedMap (Date_now R) cache organizationId type subKey = Ok map ∧
   truthy map = true ∧ cache' = cache) ∨
  (∃ cached r rows built,
     getCachedMap (Date_now R) cache organizationId type subKey = Ok cached ∧
     truthy cached = false ∧
     fetched = Ok r ∧ none_found (data r) = false ∧
     rows_of (data r) = Ok rows ∧
     createNameToIdMap R rows nameKey "id" = Ok built ∧
     map = JObj built ∧
     setCachedMap (Date_now R) cache organizationId type (JObj built) subKey = Ok cache').

(** The free-text [name] resolves to [id] in [map]. *)
Definition resolves (R : Runtime) (map name id : jsval) : Prop :=
  ∃ key, lower_name R name = Ok key ∧ get_prop map key = Ok id ∧ truthy id = true.

Definition with_cache (w : World) (cache : obj) : World :=
  {| nameToIdCache := cache; args := args w; writes := writes w |}.

Definition with_arg (w : World) (key : string) (value : jsval) : World :=
  {| nameToIdCache := nameToIdCache w; args := <[key := value]> (args w);
     writes := writes w |}.

(** A call of the scheduling tool by the names "corte" and "ana". *)
Module Booking.

Definition tool : Tool := {| name := "agendar" |}.

Definition action : jsval := JObj (object [
  ("name", JStr "agendar"); ("type", JStr "schedule");
  ("config", JObj (object [("schedule", JStr "sch-1")]))]).

Definition arguments : obj := object [
  ("operation", JStr "checkAvailability"); ("date", JStr "2024-01-08");
  ("service_name", JStr "Corte"); ("provider_name", JStr "ana")].

End Booking.

(** ** Vocabulary for the statements about results and effects *)

(** A time the calculator may offer: the text of a slot that no existing
    appointment covers. *)
Definition free_slot (existingAppointments : jsval) (time : string) : Prop :=
  ∃ slot, time = minutesToTime (Int slot) ∧ is_free existingAppointments slot = Ok true.

Definition has_message (result : obj) : Prop := is_Some (result !! "message").

(** [{ status: "success" | "error", message, ... }] *)
Abbreviation envelope := is_envelope.

(** [args_step fields a a']: the argument object [a'] differs from [a] only
    by truthy values written to the given fields. *)
Definition args_step (fields : list string) (a a' : obj) : Prop :=
  ∀ key, a' !! key = a !! key ∨
         (key ∈ fields ∧ ∃ id, a' !! key = Some id ∧ truthy id = true).

(** [spec fields m QN QR]: from every state, [m] changes the argument object
    only by writing truthy values to the given fields; a value it yields
    normally satisfies [QN] and a value it returns early satisfies [QR]. *)
Definition spec {A} (fields : list string) (m : Eff A)
    (QN : A → Prop) (QR : jsval → Prop) : Prop :=
  ∀ w, args_step fields (args w) (args (m w).2) ∧
       match (m w).1 with
       | Normal a => QN a
       | Returned v => QR v
       | Thrown _ => True
       end.

(** The shape of every cache reached from the empty one through
    [setCachedMap]: each organization entry is an object whose properties
    are [null] or objects. *)
Definition cache_shaped (cache : obj) : Prop :=
  ∀ org entry, cache !! org = Some entry →
    ∃ em, entry = JObj em ∧
      ∀ type bucket, em !! type = Some bucket → bucket = JNull ∨ ∃ bm, bucket = JObj bm.

(** ** Clearing the cache *)

(** [delete v[k]] in strict mode: an own property of an object is removed; a
    character or the length of a string, and the length of an array, cannot
    be deleted; an element deleted from an array leaves a hole, which reads
    as [undefined]. The result is the receiver after the deletion. *)
Definition delete_prop (v : jsval) (k : string) : exc jsval :=
  match v with
  | JObj m => Ok (JObj (delete k m))
  | JArr items =>
      if bool_decide (k = "length")
      then Throw "Cannot delete property 'length' of [object Array]"
      else match array_index k with
           | Some i => Ok (JArr (<[i := JUndefined]> items))
           | None => Ok v
           end
  | JStr s =>
      if bool_decide (k = "length")
      then Throw "Cannot delete property 'length' of [object String]"
      else match array_index k with
           | Some i =>
               if bool_decide (i < String.length s)%nat
               then Throw ("Cannot delete property '" +:+ k +:+ "' of [object String]")
               else Ok v
           | None => Ok v
           end
  | JUndefined | JNull => Throw "Cannot convert undefined or null to object"
  | JBool _ | JNum _ => Ok v
  end.

(** [clearCacheItem(organizationId, type, subKey)]; the result is the cache
    after the call. As in [setCachedMap], a change inside a nested object is
    written back into its owner. *)
Definition clearCacheItem (cache : obj) (organizationId : jsval)
    (type : string) (subKey : jsval) : exc obj :=
  let org := to_string organizationId in
  let entry := or_undefined (cache !! org) in
  if negb (truthy organizationId) || negb (truthy entry) then Ok cache
  else if by_schedule type && truthy subKey then
    bucket ← get_prop entry type;
    if truthy bucket then
      typeCache ← get_prop bucket (to_string subKey);
      if truthy typeCache then
        bucket1 ← delete_prop bucket (to_string subKey);
        entry1 ← set_prop entry type bucket1;
        Ok (<[org := entry1]> cache)
      else Ok cache
    else Ok cache
  else
    bucket ← get_prop entry type;
    if truthy bucket then
      entry1 ← delete_prop entry type;
      Ok (<[org := entry1]> cache)
    else Ok cache.

(** [clearOrganizationCache(organizationId)] *)
Definition clearOrganizationCache (cache : obj) (organizationId : jsval) : obj :=
  if truthy organizationId && truthy (or_undefined (cache !! to_string organizationId))
  then delete (to_string organizationId) cache
  else cache.

(** [clearAllCache()]: every key of the cache is deleted in turn (the order
    of [Object.keys] does not matter to the outcome). *)
Definition clearAllCache (cache : obj) : obj :=
  foldl (fun c key => delete key c) cache (map_to_list cache).*1.

(** The operations the module offers on its cache. *)
Inductive cache_op : Type :=
| SetCachedMap (now : Z) (organizationId : jsval) (type : string) (map subKey : jsval)
| ClearCacheItem (organizationId : jsval) (type : string) (subKey : jsval)
| ClearOrganizationCache (organizationId : jsval)
| ClearAllCache.

Definition run_cache_op (cache : obj) (op : cache_op) : exc obj :=
  match op with
  | SetCachedMap now organizationId type map subKey =>
      setCachedMap now cache organizationId type map subKey
  | ClearCacheItem organizationId type subKey =>
      clearCacheItem cache organizationId type subKey
  | ClearOrganizationCache organizationId => Ok (clearOrganizationCache cache organizationId)
  | ClearAllCache => Ok (clearAllCache cache)
  end.

(** The lookups that a change made under ([org], [type], [subKey]) leaves
    alone: those of another organization, of another type, and, when the
    change is made under a schedule, those of another schedule. *)
Definition other_key (org : jsval) (type : string) (subKey : jsval)
    (org' : jsval) (type' : string) (subKey' : jsval) : Prop :=
  to_string org' ≠ to_string org ∨ type' ≠ type ∨
  (by_schedule type = true ∧ truthy subKey = true ∧
   to_string subKey' ≠ to_string subKey).

(** ** Vocabulary for the statements about property keys *)

(** The names every object inherits from [Object.prototype]: reading one of
    them from an object finds the inherited member when the object has no
    property of that name of its own. *)
Definition inherited_names : list string :=
  ["__proto__"; "constructor"; "hasOwnProperty"; "isPrototypeOf";
   "propertyIsEnumerable"; "toLocaleString"; "toString"; "valueOf";
   "__defineGetter__"; "__defineSetter__"; "__lookupGetter__"; "__lookupSetter__"].

Definition inherited (key : string) : bool := bool_decide (key ∈ inherited_names).

(** The keys of a cache operation are none of the inherited names. *)
Definition plain_keys (organizationId : jsval) (type : string) (subKey : jsval) : Prop :=
  inherited (to_string organizationId) = false ∧ inherited type = false ∧
  inherited (to_string subKey) = false.

Definition plain_op (op : cache_op) : Prop :=
  match op with
  | SetCachedMap _ organizationId type _ subKey
  | ClearCacheItem organizationId type subKey => plain_keys organizationId type subKey
  | ClearOrganizationCache organizationId => inherited (to_string organizationId) = false
  | ClearAllCache => True
  end.

(** A key of a row, dotted or not, none of whose parts is an inherited
    name. *)
Definition plain_key (key : string) : bool :=
  negb (inherited key) &&
  forallb (fun part => negb (inherited part)) (split "."%char key).

(** The values read along a path of keys are objects: the walk stops at a
    falsy value, and reads a property only from an object. *)
Fixpoint plain_walk (nested : jsval) (keys : list string) : bool :=
  match keys with
  | [] => true
  | key :: rest =>
      if truthy nested then
        match nested with
        | JObj m => plain_walk (or_undefined (m !! key)) rest
        | _ => false
        end
      else true
  end.

(** A row as the store returns it: nothing, or an object whose name and
    identifier are reached through objects. *)
Definition plain_row (nameKey idKey : string) (item : jsval) : bool :=
  negb (truthy item) ||
  (plain_walk item (split "."%char nameKey) && plain_walk item (split "."%char idKey)).

(** ** Vocabulary for the statements about name maps *)

(** The name and the identifier of an item that has both. *)
Definition fields_of (nameKey idKey : string) (item : jsval) : option (jsval * jsval) :=
  if truthy item then
    match resolve_field item nameKey, resolve_field item idKey with
    | Ok (Some name), Ok (Some id) =>
        if truthy name && truthy id then Some (name, id) else None
    | _, _ => None
    end
  else None.

(** The item carries a name whose lower-case form is [key], with the
    identifier [id]. *)
Definition names (R : Runtime) (nameKey idKey : string) (item : jsval)
    (key : string) (id : jsval) : Prop :=
  ∃ name, fields_of nameKey idKey item = Some (JStr name, id) ∧
          key = String_toLowerCase R name.

(** The name of an item that has a name and an identifier is a string. *)
Definition text_named (nameKey idKey : string) (item : jsval) : bool :=
  match fields_of nameKey idKey item with
  | Some (JStr _, _) | None => true
  | Some _ => false
  end.

(** [id] is the identifier of the last of the [items] that carry the name
    [key]. *)
Definition last_named (R : Runtime) (nameKey idKey : string) (items : list jsval)
    (key : string) (id : jsval) : Prop :=
  ∃ before item after,
    items = before ++ item :: after ∧
    names R nameKey idKey item key id ∧
    ∀ later id', later ∈ after → ¬ names R nameKey idKey later key id'.

(** ** Vocabulary for the statements about names and catalogs *)

(** The name holds an ASCII letter or digit. *)
Definition has_alnum (s : string) : bool :=
  existsb (fun c => is_lower c || is_upper c || is_digit c) (chars s).

(** The name is made of ASCII characters, on which [toLowerCase] is the
    lower-casing of the letters A to Z. *)
Definition ascii_only (s : string) : bool :=
  forallb (fun c => (code c <? 128)%N) (chars s).

(** The actions [generateSystemTools] hands to a generator: the others
    (a missing action, a missing type, a type that is none of the four) are
    passed over. *)
Definition recognized (action : jsval) : bool :=
  truthy action &&
  match get_prop action "type" with
  | Ok type => is_string type "schedule" || is_string type "update_customer" ||
               is_string type "update_chat" || is_string type "start_flow"
  | Throw _ => false
  end.

(** ** Vocabulary for the statements about the slots offered *)

(** [Number.MAX_SAFE_INTEGER], 2^53 - 1: up to it the integers, and the
    quotients and remainders the time conversions compute from them, are
    exact in the numbers of the runtime. *)
Definition MAX_SAFE_INTEGER : Z := 9007199254740991.

(** A row whose start and end times can be read as minutes: an availability
    window or an appointment as the store returns them. *)
Definition timed (row : jsval) : Prop :=
  ∃ s e, (get_prop row "start_time" ≫= timeToMinutes) = Ok s ∧
         (get_prop row "end_time" ≫= timeToMinutes) = Ok e.

(** The times the windows allow for a service of [duration] minutes: the
    texts of the slots that start a whole number of half hours after the
    start of a window, end within it, and are covered by no existing
    appointment. *)
Definition offered (windows : list jsval) (duration : Z) (existingAppointments : jsval)
    (time : string) : Prop :=
  ∃ window s e k,
    window ∈ windows ∧
    (get_prop window "start_time" ≫= timeToMinutes) = Ok (Int s) ∧
    (get_prop window "end_time" ≫= timeToMinutes) = Ok (Int e) ∧
    0 ≤ k ∧ s + 30 * k ≤ e - duration ∧
    time = minutesToTime (Int (s + 30 * k)) ∧
    is_free existingAppointments (s + 30 * k) = Ok true.

(** The appointments of the day as the calculator can use them: a list of
    rows with readable times, or nothing at all ([null] or [undefined], as
    when the lookup answers with an error). *)
Definition readable (existingAppointments : jsval) : Prop :=
  nullish existingAppointments = true ∨
  ∃ apts, existingAppointments = JArr apts ∧ Forall timed apts.

(** ** Vocabulary for the statements about the state *)

(** A computation that leaves the state as it finds it: the cache, the
    argument object and the rows written. *)
Definition reads_only {A} (m : Eff A) : Prop := ∀ w, (m w).2 = w.

(** The [update] sent to the store for an appointment that is cancelled. *)
Definition cancel_write (R : Runtime) (appointment : jsval) : dbwrite :=
  Updated (or_undefined (own_props appointment !! "id"))
          (cancellation R (or_undefined (own_props appointment !! "metadata"))).

Definition is_object (v : jsval) : Prop := ∃ m, v = JObj m.

(** The organization of [Salon] with the duration of its service kept as a
    number of minutes. *)
Definition by_the_minute : Store :=
  store_of {|
    schedules := schedules Salon.db;
    schedule_services := [JObj (object [
      ("id", JStr "svc-1"); ("title", JStr "Corte"); ("duration", JNum (Int 30));
      ("by_arrival_time", JBool false); ("capacity", JNum (Int 1));
      ("schedule_id", JStr "sch-1"); ("status", JStr "active")])];
    schedule_providers := schedule_providers Salon.db;
    schedule_availability := schedule_availability Salon.db;
    appointments := [];
    teams := teams Salon.db;
    flows := flows Salon.db
  |}.

(** The schedule an action is configured with:
    [(action?.config || {}).scheduleId]. *)
Definition scheduleId_of (action : jsval) : exc jsval :=
  action_config ← get_prop_opt action "config";
  get_prop (js_or action_config (JObj ∅)) "scheduleId".

(** The operations the scheduling tool knows. *)
Definition known_operation (operation : jsval) : bool :=
  is_string operation "checkAvailability" || is_string operation "createAppointment" ||
  is_string operation "checkAppointment" || is_string operation "deleteAppointment".

(** ** Vocabulary for the statements about what the dispatcher forwards *)

(** The action the schedule case hands to [processCheckScheduleAction]. *)
Definition forwarded_schedule_action (scheduleId : jsval) (a : obj) : jsval :=
  JObj (object [
    ("type", or_undefined (a !! "operation"));
    ("config", JObj (object [
       ("scheduleId", scheduleId);
       ("operation", or_undefined (a !! "operation"));
       ("date", or_undefined (a !! "date"));
       ("time", or_undefined (a !! "time"));
       ("appointmentId", or_undefined (a !! "appointmentId"));
       ("serviceId", or_undefined (a !! "serviceId"));
       ("notes", or_undefined (a !! "notes"))]))]).

(** The actions the other cases hand to their executors. *)
Definition forwarded_customer_action (a : obj) : jsval :=
  JObj (object [
    ("type", JStr "update_customer");
    ("config", JObj (object [("name", or_undefined (a !! "name"))]))]).

Definition forwarded_chat_action (a : obj) : jsval :=
  JObj (object [
    ("type", JStr "update_chat");
    ("config", JObj (object [("title", or_undefined (a !! "title"));
                             ("status", or_undefined (a !! "status"));
                             ("teamId", or_undefined (a !! "team_id"))]))]).

Definition forwarded_flow_action (a : obj) : jsval :=
  JObj (object [
    ("type", JStr "start_flow");
    ("config", JObj (object [("flowId", or_undefined (a !! "flow_id"))]))]).

(** What the dispatcher answers when the executor it called ends with
    [outcome]: the executor's result, or the error envelope of the [catch]
    block when the executor throws. *)
Definition executor_result (tool : Tool) (outcome : exc jsval) : jsval :=
  match outcome with
  | Ok v => v
  | Throw message =>
      error_result ("Error processing system tool " +:+ name tool +:+ ": " +:+ message)
  end.

(** The answer to a name that is not in the map. *)
Definition not_found (kind : string) (given : jsval) : jsval :=
  error_result (kind +:+ " " +:+ quote +:+ to_string given +:+ quote
                +:+ " not found. Please choose a valid "
                +:+ toLowerCase kind +:+ ".").

(** The free-text [name] is not in [map]: the map is an object that holds
    no truthy identifier under the lower-cased name, which is none of the
    names every object inherits. *)
Definition unknown_name (R : Runtime) (map name : jsval) : Prop :=
  ∃ key m, lower_name R name = Ok key ∧ inherited key = false ∧
           map = JObj m ∧ truthy (or_undefined (m !! key)) = false.

(** None of the rows the store returns for a name map carries the name
    [__proto__]: the map built from them keeps the prototype of a plain
    object, so that a name it does not hold reads as [undefined]. *)
Definition plain_rows (R : Runtime) (fetched : exc response)
    (rows_of : jsval → exc jsval) (nameKey : string) : Prop :=
  ∀ r rows items item id,
    fetched = Ok r → rows_of (data r) = Ok rows → rows = JArr items →
    item ∈ items → ¬ names R nameKey "id" item "__proto__" id.

(** Neither the cache nor the store has anything to resolve a name with:
    the cache holds no valid map and the rows fetched are none. *)
Definition nothing_to_resolve (R : Runtime) (cache : obj) (organizationId : jsval)
    (type : string) (subKey : jsval) (fetched : exc response) : Prop :=
  ∃ cached r,
    getCachedMap (Date_now R) cache organizationId type subKey = Ok cached ∧
    truthy cached = false ∧
    fetched = Ok r ∧ none_found (data r) = true.

(** * Properties *)

(** ** Generic facts *)

Lemma exc_bind_Ok {A B} (m : exc A) (k : A → exc B) (b : B) :
  m ≫= k = Ok b → ∃ a, m = Ok a ∧ k a = Ok b.
Proof. destruct m as [a|e]; [eauto | discriminate]. Qed.

Lemma truthy_not_nullish v : truthy v = true → nullish v = false.
Proof. by destruct v. Qed.

Lemma get_prop_obj m k : get_prop (JObj m) k = Ok (or_undefined (m !! k)).
Proof. reflexivity. Qed.

Lemma set_prop_Ok v k x v' :
  set_prop v k x = Ok v' → ∃ m, v = JObj m ∧ v' = JObj (<[k := x]> m).
Proof. destruct v; simpl; intros [= <-]; eauto. Qed.

Lemma chars_of_chars l : chars (of_chars l) = l.
Proof. apply String.list_ascii_of_string_of_list_ascii. Qed.

Lemma of_chars_chars s : of_chars (chars s) = s.
Proof. apply String.string_of_list_ascii_of_string. Qed.

(** ** The cache *)

Lemma bind_Ok {A B} (a : A) (k : A → exc B) : Ok a ≫= k = k a.
Proof. reflexivity. Qed.

Lemma cache_record_data map t : get_prop (cache_record map t) "data" = Ok map.
Proof. reflexivity. Qed.

Lemma cache_record_timestamp map t :
  get_prop (cache_record map t) "timestamp" = Ok (JNum (Int t)).
Proof. reflexivity. Qed.

Lemma cache_record_truthy map t : truthy (cache_record map t) = true.
Proof. reflexivity. Qed.

Lemma isCacheValid_timestamp now t :
  t ≠ 0 → isCacheValid now (JNum (Int t)) = bool_decide (now - t < CACHE_EXPIRATION).
Proof.
  intros Hz. unfold isCacheValid; simpl.
  destruct (Z.eqb_spec t 0) as [|_]; [done|]. simpl.
  case_bool_decide; [by apply Z.ltb_lt | by apply Z.ltb_ge; lia].
Qed.

Lemma cache_record_obj map t : ∃ rm, cache_record map t = JObj rm.
Proof. by eexists. Qed.

#[local] Opaque cache_record.

Lemma read_cache_record now map t :
  t ≠ 0 →
  (timestamp ← get_prop (cache_record map t) "timestamp";
   if negb (isCacheValid now timestamp) then Ok JNull
   else get_prop (cache_record map t) "data")
  = Ok (if bool_decide (now - t < CACHE_EXPIRATION) then map else JNull).
Proof.
  intros Hz. rewrite cache_record_timestamp, bind_Ok, isCacheValid_timestamp by done.
  case_bool_decide; simpl; [apply cache_record_data | done].
Qed.

Lemma getCachedMap_stored now cache org type subKey em map t_set :
  t_set ≠ 0 →
  cache !! to_string org = Some (JObj em) →
  (if by_schedule type
   then truthy subKey = true ∧
        ∃ bm, em !! type = Some (JObj bm) ∧
              bm !! to_string subKey = Some (cache_record map t_set)
   else em !! type = Some (cache_record map t_set)) →
  getCachedMap now cache org type subKey =
    Ok (if bool_decide (now - t_set < CACHE_EXPIRATION) then map else JNull).
Proof.
  intros Hz Hc Hshape. unfold getCachedMap. rewrite Hc. cbn [or_undefined truthy negb].
  destruct (by_schedule type).
  - destruct Hshape as (Hsk & bm & Hb & He). rewrite Hsk. cbn [negb andb].
    rewrite get_prop_obj, Hb, bind_Ok. cbn [or_undefined truthy negb].
    rewrite get_prop_obj, He, bind_Ok. cbn [or_undefined]. rewrite cache_record_truthy.
    cbn [negb]. by apply read_cache_record.
  - cbn [andb]. rewrite get_prop_obj, Hshape, bind_Ok. cbn [or_undefined].
    rewrite cache_record_truthy. cbn [negb]. by apply read_cache_record.
Qed.

Lemma setCachedMap_shape now cache cache' org type map subKey :
  truthy org = true →
  setCachedMap now cache org type map subKey = Ok cache' →
  ∃ em, cache' !! to_string org = Some (JObj em) ∧
    if by_schedule type && truthy subKey
    then ∃ bm, em !! type = Some (JObj bm) ∧
               bm !! to_string subKey = Some (cache_record map now)
    else em !! type = Some (cache_record map now).
Proof.
  intros Horg. unfold setCachedMap. rewrite Horg. cbn [negb].
  set (cache1 := if negb _ then _ else _). clearbody cache1.
  destruct (by_schedule type && truthy subKey).
  - intros (bucket & Hbucket & H)%exc_bind_Ok.
    apply exc_bind_Ok in H as ([entry1 bucket1] & Hinit & H).
    apply exc_bind_Ok in H as (bucket2 & (bm & -> & ->)%set_prop_Ok & H).
    apply exc_bind_Ok in H as (entry2 & (em & -> & ->)%set_prop_Ok & [= <-]).
    eexists. rewrite lookup_insert_eq. split; [done|].
    eexists. rewrite lookup_insert_eq. split; [done|]. by rewrite lookup_insert_eq.
  - intros (entry1 & (em & _ & ->)%set_prop_Ok & [= <-])%exc_bind_Ok.
    eexists. rewrite lookup_insert_eq. split; [done|]. by rewrite lookup_insert_eq.
Qed.

Lemma empty_organization_cache_shaped :
  ∃ em, empty_organization_cache = JObj em ∧
    ∀ type bucket, em !! type = Some bucket → bucket = JNull ∨ ∃ bm, bucket = JObj bm.
Proof.
  eexists. split; [reflexivity|]. intros type bucket. unfold object. cbn [foldl fst snd].
  rewrite !lookup_insert. repeat case_decide; intros [= <-]; eauto.
Qed.

Lemma cache_shaped_empty : cache_shaped ∅.
Proof. intros org entry. by rewrite lookup_empty. Qed.

Lemma cache_shaped_insert cache org em :
  cache_shaped cache →
  (∀ type bucket, em !! type = Some bucket → bucket = JNull ∨ ∃ bm, bucket = JObj bm) →
  cache_shaped (<[org := JObj em]> cache).
Proof.
  intros Hcache Hem org' entry. rewrite lookup_insert. case_decide; [|by apply Hcache].
  intros [= <-]. eauto.
Qed.

(** On such a cache [setCachedMap] never throws, and it keeps the shape. *)
Lemma setCachedMap_shaped now cache org type map subKey :
  cache_shaped cache →
  ∃ cache', setCachedMap now cache org type map subKey = Ok cache' ∧ cache_shaped cache'.
Proof.
  intros Hcache. unfold setCachedMap. destruct (truthy org); cbn [negb]; [|eauto].
  destruct (cache_record_obj map now) as [rm ->].
  set (cache1 := if negb _ then _ else _).
  assert (cache_shaped cache1 ∧ ∃ em, cache1 !! to_string org = Some (JObj em))
    as (Hcache1 & em & Hem).
  { subst cache1. destruct (cache !! to_string org) as [entry|] eqn:Hentry.
    - destruct (Hcache _ _ Hentry) as (em & -> & Hbuckets). cbn [or_undefined truthy negb].
      eauto.
    - cbn [or_undefined truthy negb].
      destruct empty_organization_cache_shaped as (em & Heq & Hbuckets). rewrite Heq.
      split; [by apply cache_shaped_insert|]. exists em. apply lookup_insert_eq. }
  clearbody cache1. rewrite Hem. cbn [or_undefined].
  destruct (Hcache1 _ _ Hem) as (em' & [= <-] & Hbuckets).
  assert (∀ bm, (∀ type' bucket, <[type := JObj bm]> em !! type' = Some bucket →
                   bucket = JNull ∨ ∃ bm', bucket = JObj bm')) as Hput.
  { intros bm type' bucket. rewrite lookup_insert. case_decide; [|by apply Hbuckets].
    intros [= <-]. eauto. }
  destruct (by_schedule type && truthy subKey).
  - rewrite get_prop_obj, bind_Ok.
    destruct (em !! type) as [bucket|] eqn:Hbucket; cbn [or_undefined].
    + destruct (Hbuckets _ _ Hbucket) as [->|[bm ->]]; cbn [truthy negb set_prop];
        rewrite !bind_Ok; cbn [set_prop]; rewrite ?bind_Ok;
        (eexists; split; [reflexivity|]); apply cache_shaped_insert; try done;
        rewrite ?insert_insert_eq; apply Hput.
    + cbn [truthy negb set_prop]. rewrite !bind_Ok. cbn [set_prop]. rewrite ?bind_Ok.
      eexists. split; [reflexivity|]. apply cache_shaped_insert; [done|].
      rewrite insert_insert_eq. apply Hput.
  - cbn [set_prop]. rewrite bind_Ok. eexists. split; [reflexivity|].
    apply cache_shaped_insert; [done|]. apply Hput.
Qed.

(** C3 (as amended). A [get] that follows a [set] with the same non-empty
    organization, type and sub-key, the [set] having returned at a non-zero
    clock reading, yields exactly the stored mapping while the record is
    younger than one hour and [null] from one hour on; a [get] for services
    or providers without a sub-key yields [null] on every cache. *)
Theorem getCachedMap_after_setCachedMap
    (cache cache' : obj) (org : jsval) (type : string) (subKey : jsval)
    (map : jsval) (t_set t_get : Z) :
  truthy org = true → t_set ≠ 0 →
  setCachedMap t_set cache org type map subKey = Ok cache' →
  (by_schedule type = false ∨ truthy subKey = true →
     (t_get - t_set < CACHE_EXPIRATION →
        getCachedMap t_get cache' org type subKey = Ok map) ∧
     (CACHE_EXPIRATION ≤ t_get - t_set →
        getCachedMap t_get cache' org type subKey = Ok JNull)) ∧
  (by_schedule type = true → truthy subKey = false →
     ∀ c now, getCachedMap now c org type subKey = Ok JNull).
Proof.
  intros Horg Hz Hset. split.
  - intros Hkey.
    destruct (setCachedMap_shape _ _ _ _ _ _ _ Horg Hset) as (em & Hem & Hshape).
    assert (getCachedMap t_get cache' org type subKey =
            Ok (if bool_decide (t_get - t_set < CACHE_EXPIRATION) then map else JNull))
      as ->.
    { apply (getCachedMap_stored _ _ _ _ _ em); [done..|].
      destruct (by_schedule type) eqn:Hty.
      - destruct Hkey as [|Hk]; [done|]. rewrite Hk in Hshape |- *. done.
      - done. }
    split; intros; [rewrite bool_decide_eq_true_2 | rewrite bool_decide_eq_false_2];
      first [done | lia].
  - intros Hty Hk c now. unfold getCachedMap. rewrite Hty, Hk.
    by destruct (negb (truthy _)).
Qed.

Lemma getCachedMap_after_setCachedMap_witness :
  ∃ cache',
    setCachedMap 1000 ∅ (JStr "org-1") "services" (JObj {["corte" := JStr "svc-1"]})
      (JStr "sch-1") = Ok cache' ∧
    getCachedMap 2000 cache' (JStr "org-1") "services" (JStr "sch-1")
      = Ok (JObj {["corte" := JStr "svc-1"]}) ∧
    getCachedMap (1000 + CACHE_EXPIRATION) cache' (JStr "org-1") "services" (JStr "sch-1")
      = Ok JNull.
Proof.
  destruct (setCachedMap 1000 ∅ (JStr "org-1") "services"
              (JObj {["corte" := JStr "svc-1"]}) (JStr "sch-1"))
    as [cache'|] eqn:Hset; [|by vm_compute in Hset].
  exists cache'. split; [done|].
  destruct (getCachedMap_after_setCachedMap ∅ cache' (JStr "org-1") "services"
              (JStr "sch-1") (JObj {["corte" := JStr "svc-1"]}) 1000 2000)
    as [H _]; [done..|].
  destruct (getCachedMap_after_setCachedMap ∅ cache' (JStr "org-1") "services"
              (JStr "sch-1") (JObj {["corte" := JStr "svc-1"]}) 1000
              (1000 + CACHE_EXPIRATION)) as [H' _]; [done..|].
  split.
  - apply H; [by right | by vm_compute].
  - apply H'; [by right | by vm_compute].
Defined.

(** C3 as stated fails for the empty organization identifier, which
    [setCachedMap] refuses to store: the [get] that follows finds nothing. *)
Lemma getCachedMap_after_setCachedMap_empty_organization :
  ∃ cache',
    setCachedMap 1000 ∅ (JStr "") "teams" (JObj {["vendas" := JStr "team-1"]}) JNull
      = Ok cache' ∧
    getCachedMap 1001 cache' (JStr "") "teams" JNull
      ≠ Ok (JObj {["vendas" := JStr "team-1"]}).
Proof. exists ∅. split; [reflexivity | discriminate]. Qed.

(** ** The slug transformation *)

Lemma lower_char_slug_char c :
  slug_char (if is_lower (lower_char c) || is_digit (lower_char c)
             then lower_char c else underscore) = true.
Proof. by destruct c as [[] [] [] [] [] [] [] []]. Qed.

Lemma slug_char_fixed c :
  slug_char c = true →
  lower_char c = c ∧ (if is_lower c || is_digit c then c else underscore) = c.
Proof.
  destruct c as [[] [] [] [] [] [] [] []]; vm_compute; first [done | by split].
Qed.

Lemma replace_lower_slug_chars l :
  forallb slug_char (replace_non_alnum (lower_char <$> l)) = true.
Proof.
  induction l as [|c l IH]; [done|]. unfold replace_non_alnum in *.
  cbn [fmap list_fmap forallb]. by rewrite lower_char_slug_char, IH.
Qed.

Lemma slug_chars_fixed l :
  forallb slug_char l = true →
  lower_char <$> l = l ∧ replace_non_alnum l = l.
Proof.
  induction l as [|c l IH]; [done|]. cbn [forallb].
  intros [Hc Hl]%andb_prop. destruct (IH Hl) as [IH1 IH2].
  destruct (slug_char_fixed c Hc) as [H1 H2].
  unfold replace_non_alnum in *. cbn [fmap list_fmap].
  split; f_equal; done.
Qed.

#[local] Arguments is_underscore : simpl never.

Lemma collapse_cons2 c c' t :
  collapse_underscores (c :: c' :: t) =
    if is_underscore c
    then if is_underscore c' then collapse_underscores (c' :: t)
         else c :: collapse_underscores (c' :: t)
    else c :: collapse_underscores (c' :: t).
Proof. reflexivity. Qed.

Lemma collapse_starts l :
  starts_with_underscore (collapse_underscores l) = starts_with_underscore l.
Proof.
  induction l as [|c [|c' t] IH]; [done| |].
  - cbn. destruct (is_underscore c) eqn:Hc; cbn; by rewrite ?Hc.
  - rewrite collapse_cons2.
    destruct (is_underscore c) eqn:Hc; [|by cbn; rewrite Hc].
    destruct (is_underscore c') eqn:Hc'; [|by cbn; rewrite Hc].
    rewrite IH. cbn. by rewrite Hc, Hc'.
Qed.

Lemma collapse_slug_chars l :
  forallb slug_char l = true → forallb slug_char (collapse_underscores l) = true.
Proof.
  induction l as [|c [|c' t] IH]; [done| |].
  - cbn. by destruct (is_underscore c).
  - rewrite collapse_cons2. intros H. pose proof H as [Hc Ht]%andb_prop.
    destruct (is_underscore c), (is_underscore c'); auto;
      cbn [forallb]; rewrite Hc; by apply IH.
Qed.

Lemma collapse_single l : single_underscores (collapse_underscores l) = true.
Proof.
  induction l as [|c [|c' t] IH]; [done| |].
  - cbn. destruct (is_underscore c) eqn:Hc; cbn; by rewrite ?Hc, ?andb_false_r.
  - rewrite collapse_cons2. destruct (is_underscore c) eqn:Hc.
    + destruct (is_underscore c') eqn:Hc'; [done|].
      cbn [single_underscores]. rewrite IH, collapse_starts. cbn. by rewrite Hc, Hc'.
    + cbn [single_underscores]. by rewrite IH, Hc.
Qed.

Lemma collapse_fixed l : single_underscores l = true → collapse_underscores l = l.
Proof.
  induction l as [|c [|c' t] IH]; [done| |].
  - cbn. by destruct (is_underscore c).
  - rewrite collapse_cons2. cbn [single_underscores starts_with_underscore].
    intros [Hc Ht]%andb_prop. rewrite (IH Ht).
    destruct (is_underscore c); [|done]. by destruct (is_underscore c').
Qed.

Lemma drop_trailing_cons2 c c' t :
  drop_trailing_underscore (c :: c' :: t) = c :: drop_trailing_underscore (c' :: t).
Proof. reflexivity. Qed.

Lemma ends_cons2 c c' t :
  ends_with_underscore (c :: c' :: t) = ends_with_underscore (c' :: t).
Proof. reflexivity. Qed.

Lemma drop_trailing_slug_chars l :
  forallb slug_char l = true → forallb slug_char (drop_trailing_underscore l) = true.
Proof.
  induction l as [|c [|c' t] IH]; [done| |].
  - cbn. by destruct (is_underscore c).
  - rewrite drop_trailing_cons2. cbn [forallb] in *.
    intros [Hc Ht]%andb_prop. by rewrite Hc, IH.
Qed.

Lemma drop_trailing_starts l :
  starts_with_underscore l = false →
  starts_with_underscore (drop_trailing_underscore l) = false.
Proof.
  destruct l as [|c [|c' t]]; [done| |]; cbn; [|done].
  intros Hc. rewrite Hc. cbn. by rewrite Hc.
Qed.

Lemma drop_trailing_single l :
  single_underscores l = true →
  single_underscores (drop_trailing_underscore l) = true ∧
  ends_with_underscore (drop_trailing_underscore l) = false.
Proof.
  induction l as [|c [|c' t] IH]; [done| |].
  - cbn. destruct (is_underscore c) eqn:Hc; cbn; by rewrite ?Hc, ?andb_false_r.
  - rewrite drop_trailing_cons2. cbn [single_underscores starts_with_underscore].
    intros [Hc Ht]%andb_prop. destruct (IH Ht) as [IH1 IH2].
    destruct t as [|c'' t].
    + cbn in *. destruct (is_underscore c') eqn:Hc'; cbn.
      * rewrite andb_true_r in Hc. split; [by rewrite andb_false_r|].
        by destruct (is_underscore c).
      * rewrite Hc', !andb_false_r. done.
    + rewrite drop_trailing_cons2 in *. cbn [single_underscores starts_with_underscore].
      rewrite ends_cons2. cbn [single_underscores starts_with_underscore] in IH1.
      by rewrite Hc, IH1.
Qed.

Lemma drop_trailing_fixed l :
  ends_with_underscore l = false → drop_trailing_underscore l = l.
Proof.
  induction l as [|c [|c' t] IH]; [done| |].
  - cbn. by intros ->.
  - rewrite drop_trailing_cons2, ends_cons2. by intros ->%IH.
Qed.

Lemma drop_leading_normal l :
  forallb slug_char l = true → single_underscores l = true →
  forallb slug_char (drop_leading_underscore l) = true ∧
  single_underscores (drop_leading_underscore l) = true ∧
  starts_with_underscore (drop_leading_underscore l) = false.
Proof.
  destruct l as [|c t]; [done|]. cbn [forallb single_underscores drop_leading_underscore].
  intros [Hc Ht]%andb_prop [Hs Hst]%andb_prop.
  destruct (is_underscore c) eqn:Hu.
  - cbn in Hs. by destruct (starts_with_underscore t).
  - cbn [forallb single_underscores starts_with_underscore].
    by rewrite Hc, Ht, Hst, Hu.
Qed.

Lemma drop_leading_fixed l :
  starts_with_underscore l = false → drop_leading_underscore l = l.
Proof. destruct l as [|c t]; [done|]. cbn. by intros ->. Qed.

Lemma slug_normal_intro l :
  forallb slug_char l = true → single_underscores l = true →
  slug_normal (of_chars (trim_underscores l)) = true.
Proof.
  intros Hc Hs. unfold slug_normal, trim_underscores. rewrite chars_of_chars.
  destruct (drop_leading_normal l Hc Hs) as (Hc1 & Hs1 & Hst1).
  destruct (drop_trailing_single _ Hs1) as [Hs2 He2].
  by rewrite (drop_trailing_slug_chars _ Hc1), Hs2, (drop_trailing_starts _ Hst1), He2.
Qed.

Lemma slug_is_normal s : slug_normal (slug s) = true.
Proof.
  unfold slug, toLowerCase. rewrite chars_of_chars. apply slug_normal_intro.
  - apply collapse_slug_chars, replace_lower_slug_chars.
  - apply collapse_single.
Qed.

Lemma slug_of_normal s : slug_normal s = true → slug s = s.
Proof.
  unfold slug_normal, slug, toLowerCase, trim_underscores.
  intros [[[Hc Hs]%andb_prop Hst%negb_true_iff]%andb_prop He%negb_true_iff]%andb_prop.
  destruct (slug_chars_fixed _ Hc) as [-> Hr].
  rewrite of_chars_chars, Hr, (collapse_fixed _ Hs), (drop_leading_fixed _ Hst),
    (drop_trailing_fixed _ He). apply of_chars_chars.
Qed.

Lemma transformToolName_string s : transformToolName (JStr s) = Ok (slug s).
Proof.
  unfold transformToolName. cbn [truthy]. case_bool_decide as Hs; [by subst|done].
Qed.

(** C7 (as amended). The slug transformation is idempotent; it returns
    unchanged every string already in the form it produces (lower-case
    letters, digits and single underscores, none first or last); and it
    sends "Agendar Consulta!" to "agendar_consulta". *)
Theorem transformToolName_idempotent :
  (∀ s, transformToolName (JStr s) ≫= (λ r, transformToolName (JStr r))
        = transformToolName (JStr s)) ∧
  (∀ s, slug_normal s = true → transformToolName (JStr s) = Ok s) ∧
  transformToolName (JStr "Agendar Consulta!") = Ok "agendar_consulta".
Proof.
  split; [|split].
  - intros s. rewrite transformToolName_string, bind_Ok, transformToolName_string.
    f_equal. apply slug_of_normal, slug_is_normal.
  - intros s Hs. rewrite transformToolName_string. f_equal. by apply slug_of_normal.
  - reflexivity.
Qed.

Lemma transformToolName_idempotent_witness :
  slug_normal "agendar_consulta" = true ∧
  transformToolName (JStr "agendar_consulta") = Ok "agendar_consulta".
Proof.
  split; [reflexivity|].
  apply (proj1 (proj2 transformToolName_idempotent) "agendar_consulta"). reflexivity.
Defined.

(** C7 as stated fails: a string that matches [[a-zA-Z0-9_-]+] is changed
    when it holds an upper-case letter or a hyphen. *)
Lemma transformToolName_changes_valid_slug :
  matches_slug_pattern "Agendar-Consulta" = true ∧
  transformToolName (JStr "Agendar-Consulta") ≠ Ok "Agendar-Consulta".
Proof. split; [reflexivity | discriminate]. Qed.

(** ** The name-map builder *)

Lemma get_prop_truthy item key :
  truthy item = true → ∃ v, get_prop item key = Ok v.
Proof. destruct item; try done; unfold get_prop; intros _; try case_bool_decide; eauto. Qed.

Lemma walk_path_total keys : ∀ nested, ∃ v, walk_path nested keys = Ok v.
Proof.
  induction keys as [|key rest IH]; intros nested; cbn [walk_path]; [eauto|].
  destruct (truthy nested) eqn:Ht; cbn [negb]; [|eauto].
  destruct (get_prop_truthy nested key Ht) as [v ->]. rewrite bind_Ok. apply IH.
Qed.

Lemma resolve_field_total item key :
  truthy item = true → ∃ field, resolve_field item key = Ok field.
Proof.
  intros Ht. unfold resolve_field.
  destruct (get_prop_truthy item key Ht) as [v ->]. rewrite bind_Ok.
  destruct (negb (truthy v) && includes_char "." key); [|eauto].
  destruct (walk_path_total (split "." key) item) as [w ->]. rewrite bind_Ok. cbn. eauto.
Qed.

Lemma item_entry_fields R nameKey idKey item :
  item_entry R nameKey idKey item =
    match fields_of nameKey idKey item with
    | Some (name, id) => key ← lower_name R name; Ok (Some (key, id))
    | None => Ok None
    end.
Proof.
  unfold item_entry, fields_of. destruct (truthy item) eqn:Ht; cbn [negb]; [|done].
  destruct (resolve_field_total item nameKey Ht) as [name ->].
  destruct (resolve_field_total item idKey Ht) as [id ->]. rewrite bind_Ok.
  destruct name as [name|]; [|done]. rewrite bind_Ok. destruct id as [id|]; [|done].
  by destruct (truthy name && truthy id).
Qed.

Lemma fields_of_missing nameKey idKey item :
  truthy item = false ∨
  (∃ name, resolve_field item nameKey = Ok name ∧ field_missing name = true) ∨
  (∃ id, resolve_field item idKey = Ok id ∧ field_missing id = true) →
  fields_of nameKey idKey item = None.
Proof.
  unfold fields_of. destruct (truthy item) eqn:Ht; [|done].
  intros [|[(name & -> & Hm)|(id & -> & Hm)]]; [done| |].
  - destruct name as [name|]; [|done]. destruct (resolve_field item idKey) as [[id|]|]; try done.
    cbn in Hm. apply negb_true_iff in Hm. by rewrite Hm.
  - destruct (resolve_field item nameKey) as [[name|]|]; try done.
    destruct id as [id|]; [|done].
    cbn in Hm. apply negb_true_iff in Hm. by rewrite Hm, andb_false_r.
Qed.

Lemma item_entry_names R nameKey idKey item key id :
  item_entry R nameKey idKey item = Ok (Some (key, id)) ↔ names R nameKey idKey item key id.
Proof.
  rewrite item_entry_fields. unfold names. split.
  - destruct (fields_of nameKey idKey item) as [[name id']|]; [|done].
    intros (k & Hk & [= <- <-])%exc_bind_Ok.
    destruct name; try done. injection Hk as <-. eauto.
  - intros (name & -> & ->). reflexivity.
Qed.

Lemma item_entry_text R nameKey idKey item :
  text_named nameKey idKey item = true → ∃ entry, item_entry R nameKey idKey item = Ok entry.
Proof.
  rewrite item_entry_fields. unfold text_named.
  destruct (fields_of nameKey idKey item) as [[name id]|]; [|by eauto].
  destruct name; try done. intros _. cbn. eauto.
Qed.

Lemma names_functional R nameKey idKey item key id key' id' :
  names R nameKey idKey item key id → names R nameKey idKey item key' id' →
  key = key' ∧ id = id'.
Proof. intros (name & H1 & ->) (name' & H2 & ->). rewrite H1 in H2. by injection H2 as <- <-. Qed.

Lemma add_items_app R nameKey idKey l1 : ∀ map l2,
  add_items R nameKey idKey map (l1 ++ l2) =
    add_items R nameKey idKey map l1 ≫= λ map', add_items R nameKey idKey map' l2.
Proof.
  induction l1 as [|item l1 IH]; intros map l2; [done|].
  cbn [app add_items]. destruct (item_entry R nameKey idKey item); [|done].
  rewrite !bind_Ok. apply IH.
Qed.

Lemma last_named_cons R nameKey idKey item rest key id :
  last_named R nameKey idKey (item :: rest) key id ↔
  last_named R nameKey idKey rest key id ∨
  (names R nameKey idKey item key id ∧
   ∀ later id', later ∈ rest → ¬ names R nameKey idKey later key id').
Proof.
  split.
  - intros ([|first before] & item' & after & Heq & Hnames & Hlast).
    + injection Heq as <- <-. by right.
    + injection Heq as <- ->. left. by exists before, item', after.
  - intros [(before & item' & after & -> & Hnames & Hlast)|[Hnames Hlast]].
    + by exists (item :: before), item', after.
    + by exists [], item, rest.
Qed.

(** What the loop of the builder leaves in the map it starts from. *)
Lemma add_items_spec R nameKey idKey items : ∀ map0,
  Forall (λ item, text_named nameKey idKey item = true) items →
  ∃ map,
    add_items R nameKey idKey map0 items = Ok map ∧
    ∀ key id, map !! key = Some id ↔
      (key ≠ "__proto__" ∧ last_named R nameKey idKey items key id) ∨
      (map0 !! key = Some id ∧
       (key = "__proto__" ∨
        ∀ item id', item ∈ items → ¬ names R nameKey idKey item key id')).
Proof.
  induction items as [|item rest IH]; intros map0 Htext; cbn [add_items].
  { exists map0. split; [done|]. intros key id. split.
    - intros Hkey. right. split; [done|]. right. intros item id' Hin.
      by apply elem_of_nil in Hin.
    - intros [[_ ([|? ?] & ? & ? & ? & _)]|[Hkey _]]; done. }
  apply Forall_cons in Htext as [Hitem Hrest].
  destruct (item_entry_text R _ _ _ Hitem) as [entry Hentry]. rewrite Hentry, bind_Ok.
  destruct (IH (match entry with
                | Some (key, id) => assign_name map0 key id
                | None => map0
                end) Hrest) as (map & -> & Hmap).
  exists map. split; [done|]. intros key id. rewrite Hmap, last_named_cons.
  assert (∀ k v, entry = Some (k, v) ↔ names R nameKey idKey item k v) as Hnames.
  { intros k v. rewrite <- item_entry_names, Hentry. split; congruence. }
  assert ((∀ item' id', item' ∈ item :: rest → ¬ names R nameKey idKey item' key id') ↔
          (∀ id', ¬ names R nameKey idKey item key id') ∧
          (∀ item' id', item' ∈ rest → ¬ names R nameKey idKey item' key id')) as ->.
  { split.
    - intros H. split; [intros id'; apply H, list_elem_of_here|].
      intros item' id' Hin. by apply H, list_elem_of_further.
    - intros [H1 H2] item' id' [->|Hin]%elem_of_cons; [apply H1 | by apply H2]. }
  destruct entry as [[k v]|].
  - pose proof (proj1 (Hnames k v) eq_refl) as Hkv.
    assert (∀ k' v', names R nameKey idKey item k' v' → k' = k ∧ v' = v) as Hfun.
    { intros k' v' H. by destruct (names_functional _ _ _ _ _ _ _ _ H Hkv). }
    clear Hnames Hentry Hmap IH. unfold assign_name.
    destruct (decide (k = "__proto__")) as [Hk|Hk];
      [rewrite bool_decide_eq_true_2 by done | rewrite bool_decide_eq_false_2 by done];
      destruct (decide (key = k)) as [Hkey|Hkey];
      rewrite 1?Hkey, ?lookup_insert_eq, ?lookup_insert_ne by done;
      try subst key; try subst k; naive_solver.
  - assert (∀ k' v', ¬ names R nameKey idKey item k' v') as Hno.
    { intros k' v' H. by apply Hnames in H. }
    clear Hnames Hentry Hmap IH. naive_solver.
Qed.




(** ** The tool catalog generator *)

Lemma try_catch_Ok {A} (body : exc A) handler (a : A) :
  try_catch body handler = Ok a →
  body = Ok a ∨ ∃ e, body = Throw e ∧ handler e = Ok a.
Proof. destruct body; cbn; eauto. Qed.

(** The name of an emitted chat tool is the slug of the action's [name]
    (or of the default). *)
Lemma generateUpdateChatTool_name action tool :
  generateUpdateChatTool action = Ok tool →
  ∃ action_name toolName,
    get_prop action "name" = Ok action_name ∧
    transformToolName (js_or action_name (JStr "update_chat")) = Ok toolName ∧
    get_prop tool "name" = Ok (JStr toolName).
Proof.
  unfold generateUpdateChatTool.
  intros (action_name & Hname & H)%exc_bind_Ok.
  apply exc_bind_Ok in H as (toolName & Hslug & H).
  apply exc_bind_Ok in H as (description & _ & [= <-]).
  by exists action_name, toolName.
Qed.

(** The same for an emitted flow tool. *)
Lemma generateStartFlowTool_name S org action tool :
  generateStartFlowTool S org action = Ok tool → truthy tool = true →
  ∃ action_name toolName,
    get_prop action "name" = Ok action_name ∧
    transformToolName (js_or action_name (JStr "start_flow")) = Ok toolName ∧
    get_prop tool "name" = Ok (JStr toolName).
Proof.
  unfold generateStartFlowTool.
  intros [H|(e & _ & [= <-])]%try_catch_Ok Htool; [|done].
  apply exc_bind_Ok in H as (r & _ & H). destruct (error r); [done|].
  destruct (none_found (data r)); [by injection H as <-|].
  apply exc_bind_Ok in H as (action_name & Hname & H).
  apply exc_bind_Ok in H as (toolName & Hslug & H).
  apply exc_bind_Ok in H as (description & _ & H).
  apply exc_bind_Ok in H as (rows & _ & H).
  apply exc_bind_Ok in H as (names & _ & [= <-]).
  by exists action_name, toolName.
Qed.

(** The same for an emitted schedule tool. *)
Lemma generateScheduleTool_name S org action tool :
  generateScheduleTool S org action = Ok tool → truthy tool = true →
  ∃ action_name toolName,
    get_prop action "name" = Ok action_name ∧
    transformToolName (js_or action_name (JStr "schedule_appointment")) = Ok toolName ∧
    get_prop tool "name" = Ok (JStr toolName).
Proof.
  unfold generateScheduleTool.
  intros (config & _ & H)%exc_bind_Ok Htool.
  apply exc_bind_Ok in H as (schedule & _ & H).
  destruct (negb (truthy schedule)); [by injection H as <-|].
  apply try_catch_Ok in H as [H|(e & _ & [= <-])]; [|done].
  apply exc_bind_Ok in H as (r & _ & H). destruct (error r); [done|].
  destruct (none_found (data r)); [by injection H as <-|].
  apply exc_bind_Ok in H as (first & _ & H).
  apply exc_bind_Ok in H as (scheduleId & _ & H).
  apply exc_bind_Ok in H as (scheduleName & _ & H).
  apply exc_bind_Ok in H as (r1 & _ & H). destruct (error r1); [done|].
  apply exc_bind_Ok in H as (r2 & _ & H). destruct (error r2); [done|].
  apply exc_bind_Ok in H as (action_name & Hname & H).
  apply exc_bind_Ok in H as (toolName & Hslug & H).
  apply exc_bind_Ok in H as (description & _ & H).
  apply exc_bind_Ok in H as (service_param & _ & H).
  apply exc_bind_Ok in H as (provider_param & _ & [= <-]).
  by exists action_name, toolName.
Qed.

(** The customer tool reads the action's [title], not its [name]. *)
Lemma generateUpdateCustomerTool_name action tool :
  generateUpdateCustomerTool action = Ok tool →
  ∃ action_title toolName,
    get_prop action "title" = Ok action_title ∧
    transformToolName (js_or action_title (JStr "update_customer")) = Ok toolName ∧
    get_prop tool "name" = Ok (JStr toolName).
Proof.
  unfold generateUpdateCustomerTool.
  intros (action_title & Htitle & H)%exc_bind_Ok.
  apply exc_bind_Ok in H as (toolName & Hslug & H).
  apply exc_bind_Ok in H as (description & _ & [= <-]).
  by exists action_title, toolName.
Qed.

(** C8, at the failing input. For the configured action named
    "Atualizar Cliente" of type [update_customer], the catalog holds one tool
    and its name is "update_customer", not the slug "atualizar_cliente" of
    the action's name: [generateUpdateCustomerTool] reads [action.title]
    where the three other generators read [action.name]. *)
Theorem generateSystemTools_update_customer_name :
  let action := JObj (object [("name", JStr "Atualizar Cliente");
                              ("description", JStr "Atualiza o cliente");
                              ("type", JStr "update_customer");
                              ("config", JObj ∅)]) in
  ∃ tool,
    generateSystemTools Salon.store (JStr "org-1") (JArr [action]) = Ok [tool] ∧
    get_prop tool "name" = Ok (JStr "update_customer") ∧
    transformToolName (JStr "Atualizar Cliente") = Ok "atualizar_cliente".
Proof. eexists. split; [vm_compute; reflexivity|]. split; reflexivity. Qed.

(** ** Times as text *)

Lemma chars_app s1 s2 : chars (s1 +:+ s2) = chars s1 ++ chars s2.
Proof.
  induction s1 as [|c s1 IH]; [done|].
  change (chars (String c (s1 +:+ s2)) = c :: chars s1 ++ chars s2).
  unfold chars in *. cbn [String.list_ascii_of_string]. by rewrite IH.
Qed.

Lemma digit_value_pretty_N_char d :
  (d < 10)%N → digit_value (pretty_N_char d) = Some (Z.of_N d).
Proof.
  intros Hd. do 10 (destruct d as [|d] using N.peano_ind; [done|]). lia.
Qed.

Lemma is_digit_pretty_N_char d : is_digit (pretty_N_char d) = true.
Proof. unfold pretty_N_char. by repeat case_match. Qed.

Lemma read_digits_pretty_N_go x : ∀ s acc,
  (0 < x)%N →
  ∃ v, read_digits digit_value 10 acc (chars (pretty_N_go x s)) =
       read_digits digit_value 10 (Some v) (chars s) ∧
       (from_option id 0 acc = 0 → v = Z.of_N x).
Proof.
  induction (N.lt_wf_0 x) as [x _ IH]. intros s acc Hx.
  rewrite pretty_N_go_step by done.
  assert (x `mod` 10 < 10)%N as Hmod by (by apply N.mod_lt).
  pose proof (N.div_mod x 10 ltac:(done)) as Hdiv.
  destruct (decide (x `div` 10 = 0)%N) as [Hzero|Hpos].
  - rewrite Hzero, pretty_N_go_0. cbn [chars String.list_ascii_of_string read_digits].
    rewrite (digit_value_pretty_N_char _ Hmod). eexists. split; [done|].
    intros ->. lia.
  - destruct (IH (x `div` 10)%N ltac:(apply N.div_lt; lia)
                (String (pretty_N_char (x `mod` 10)) s) acc ltac:(lia)) as (v1 & -> & Hv1).
    cbn [chars String.list_ascii_of_string read_digits].
    rewrite (digit_value_pretty_N_char _ Hmod). eexists. split; [done|].
    intros Hacc. rewrite (Hv1 Hacc). cbn [from_option id]. lia.
Qed.

Lemma digits_pretty_N_go x : ∀ s,
  Forall (fun c => is_digit c = true) (chars s) →
  Forall (fun c => is_digit c = true) (chars (pretty_N_go x s)).
Proof.
  induction (N.lt_wf_0 x) as [x _ IH]. intros s Hs.
  destruct (decide (x = 0)%N) as [->|Hx]; [by rewrite pretty_N_go_0|].
  rewrite pretty_N_go_step by lia. apply IH; [apply N.div_lt; lia|].
  constructor; [apply is_digit_pretty_N_char | done].
Qed.

(** The decimal text of a natural number: digits only, read back by
    [read_digits] as the number, also behind a leading zero. *)
Lemma pretty_nonneg_digits z :
  0 ≤ z →
  chars (pretty z) ≠ [] ∧
  Forall (fun c => is_digit c = true) (chars (pretty z)) ∧
  ∀ acc, from_option id 0 acc = 0 →
         read_digits digit_value 10 acc (chars (pretty z)) = (Some z, []).
Proof.
  intros Hz.
  assert (∀ acc, from_option id 0 acc = 0 →
                 read_digits digit_value 10 acc (chars (pretty z)) = (Some z, []))
    as Hread.
  { destruct z as [|p|p]; [| |lia].
    - by intros [?|] ?; simplify_eq/=.
    - change (pretty (Z.pos p)) with (pretty_N_go (N.pos p) "").
      intros acc Hacc.
      destruct (read_digits_pretty_N_go (N.pos p) "" acc) as (v & -> & Hv); [done|].
      by rewrite (Hv Hacc). }
  split; [|split; [|done]].
  - intros Hnil. specialize (Hread None eq_refl). by rewrite Hnil in Hread.
  - destruct z as [|p|p]; [by repeat constructor| |lia].
    change (pretty (Z.pos p)) with (pretty_N_go (N.pos p) "").
    by apply digits_pretty_N_go.
Qed.

Lemma digit_not_space c : is_digit c = true → Ascii.is_space c = false.
Proof. by destruct c as [[] [] [] [] [] [] [] []]. Qed.

Lemma digit_not_sign c :
  is_digit c = true →
  bool_decide (c = "-"%char) = false ∧ bool_decide (c = "+"%char) = false ∧
  bool_decide (c = ":"%char) = false.
Proof. by destruct c as [[] [] [] [] [] [] [] []]. Qed.

Lemma skip_spaces_digits l :
  Forall (fun c => is_digit c = true) l → skip_spaces l = l.
Proof. destruct 1 as [|c l Hc _]; [done|]. cbn. by rewrite digit_not_space. Qed.

Lemma Number_digits s z :
  chars s ≠ [] →
  Forall (fun c => is_digit c = true) (chars s) →
  read_digits digit_value 10 None (chars s) = (Some z, []) →
  Number s = Int z.
Proof.
  intros Hne Hdigits Hread. unfold Number, trim_spaces.
  rewrite (skip_spaces_digits _ Hdigits).
  rewrite skip_spaces_digits by (by apply Forall_reverse).
  rewrite reverse_involutive.
  destruct (chars s) as [|c l] eqn:Hs; [done|].
  unfold read_sign. apply Forall_cons in Hdigits as [Hc _].
  destruct (digit_not_sign c Hc) as (-> & -> & _).
  rewrite Hread. f_equal. lia.
Qed.

(** [padStart2] of the text of a natural number reads back as the number. *)
Lemma Number_padStart2_pretty z :
  0 ≤ z →
  Number (padStart2 (pretty z)) = Int z ∧
  Forall (fun c => is_digit c = true) (chars (padStart2 (pretty z))).
Proof.
  intros Hz. destruct (pretty_nonneg_digits z Hz) as (Hne & Hdigits & Hread).
  destruct (pretty z) as [|c [|c' s]] eqn:Hp; [done| |].
  - cbn [padStart2]. split.
    + apply Number_digits; [done| by constructor |].
      change (chars (String "0" (String c ""))) with ("0"%char :: chars (String c "")).
      cbn [read_digits]. change (digit_value "0") with (Some 0). by apply Hread.
    + by constructor.
  - cbn [padStart2]. split; [|done]. apply Number_digits; [done..|]. by apply Hread.
Qed.

Lemma split_chars_no_sep sep l : ∀ cur,
  Forall (fun c => bool_decide (c = sep) = false) l →
  split_chars sep cur l = [of_chars (reverse cur ++ l)].
Proof.
  induction l as [|c l IH]; intros cur Hl; cbn [split_chars].
  - by rewrite app_nil_r.
  - apply Forall_cons in Hl as [-> Hl]. rewrite (IH _ Hl).
    by rewrite reverse_cons, <- app_assoc.
Qed.

Lemma split_chars_sep sep l rest : ∀ cur,
  Forall (fun c => bool_decide (c = sep) = false) l →
  split_chars sep cur (l ++ sep :: rest) =
    of_chars (reverse cur ++ l) :: split_chars sep [] rest.
Proof.
  induction l as [|c l IH]; intros cur Hl; cbn [split_chars app].
  - rewrite bool_decide_eq_true_2 by done. by rewrite app_nil_r.
  - apply Forall_cons in Hl as [-> Hl]. rewrite (IH _ Hl).
    by rewrite reverse_cons, <- app_assoc.
Qed.

(** The text [minutesToTime] gives for a time of day reads back, through
    [timeToMinutes], as the same number of minutes. *)
Lemma timeToMinutes_minutesToTime slot :
  0 ≤ slot → timeToMinutes (JStr (minutesToTime (Int slot))) = Ok (Int slot).
Proof.
  intros Hslot. unfold minutesToTime. cbn [num_floor_div num_rem num_toString].
  assert (0 ≤ slot `div` 60) as Hh by (by apply Z.div_pos).
  assert (0 ≤ slot `rem` 60) as Hm by (by apply Z.rem_nonneg).
  destruct (Number_padStart2_pretty _ Hh) as [Hhours Hhd].
  destruct (Number_padStart2_pretty _ Hm) as [Hmins Hmd].
  set (hh := padStart2 (pretty (slot `div` 60))) in *.
  set (mm := padStart2 (pretty (slot `rem` 60))) in *.
  assert (∀ l, Forall (fun c => is_digit c = true) l →
               Forall (fun c => bool_decide (c = ":"%char) = false) l) as Hcolon.
  { intros l Hl. eapply Forall_impl; [exact Hl|].
    intros c Hc. by destruct (digit_not_sign c Hc) as (_ & _ & ?). }
  unfold timeToMinutes. cbn [truthy].
  rewrite bool_decide_eq_false_2; cycle 1.
  { intros Heq. apply (f_equal chars) in Heq. rewrite !chars_app in Heq.
    by destruct (chars hh). }
  cbn [negb]. unfold split. rewrite !chars_app.
  change (chars ":") with [":"%char]. cbn [app].
  rewrite split_chars_sep by (by apply Hcolon).
  rewrite split_chars_no_sep by (by apply Hcolon).
  change (reverse (@nil ascii)) with (@nil ascii). cbn [app].
  rewrite !of_chars_chars. cbn. rewrite Hhours, Hmins. cbn [num_mul num_add].
  do 2 f_equal.
  rewrite Z.rem_mod_nonneg by lia. pose proof (Z.div_mod slot 60). lia.
Qed.

(** ** The availability calculator *)

(** The loop ends by its own test: fuel beyond the number of iterations
    changes nothing. *)
Lemma iterations_step slot bound :
  slot ≤ bound → iterations slot bound = S (iterations (slot + 30) bound).
Proof.
  intros Hle. unfold iterations.
  rewrite (proj2 (Z.leb_le slot bound)) by done. f_equal.
  destruct (Z.leb_spec (slot + 30) bound) as [Hnext|Hlast].
  - replace (bound - slot) with ((bound - (slot + 30)) + 1 * 30) by lia.
    rewrite Z.div_add by done. rewrite Z2Nat.inj_add; [lia| |lia].
    apply Z.div_pos; lia.
  - rewrite Z.div_small by lia. done.
Qed.

Lemma slot_loop_fuel existing fuel : ∀ slot bound allSlots,
  (iterations slot bound ≤ fuel)%nat →
  slot_loop fuel slot bound existing allSlots =
  slot_loop (iterations slot bound) slot bound existing allSlots.
Proof.
  induction fuel as [|fuel IH]; intros slot bound allSlots Hfuel.
  - by replace (iterations slot bound) with 0%nat by lia.
  - destruct (Z.leb_spec slot bound) as [Hle|Hgt].
    + rewrite (iterations_step _ _ Hle) in Hfuel |- *. cbn [slot_loop].
      rewrite (proj2 (Z.leb_le slot bound)) by done.
      destruct (is_free existing slot) as [free|]; [|done]. rewrite !bind_Ok.
      apply IH. lia.
    + unfold iterations. rewrite (proj2 (Z.leb_gt slot bound)) by done. cbn [slot_loop].
      by rewrite (proj2 (Z.leb_gt slot bound)).
Qed.

Lemma slot_loop_free existing fuel : ∀ slot bound allSlots slots,
  slot_loop fuel slot bound existing allSlots = Ok slots →
  Forall (free_slot existing) allSlots → Forall (free_slot existing) slots.
Proof.
  induction fuel as [|fuel IH]; intros slot bound allSlots slots; cbn [slot_loop].
  - by intros [= <-].
  - destruct (slot <=? bound); [|by intros [= <-]].
    intros (free & Hfree & Hloop)%exc_bind_Ok Hall.
    apply (IH _ _ _ _ Hloop).
    destruct free; cbn [andb]; [|done].
    destruct (negb _); [|done].
    apply Forall_app. split; [done|]. apply Forall_singleton. by exists slot.
Qed.

Lemma window_slots_free duration existing allSlots availability slots :
  window_slots duration existing allSlots availability = Ok slots →
  Forall (free_slot existing) allSlots → Forall (free_slot existing) slots.
Proof.
  unfold window_slots.
  intros (start_time & _ & H)%exc_bind_Ok.
  apply exc_bind_Ok in H as (startMinutes & _ & H).
  apply exc_bind_Ok in H as (end_time & _ & H).
  apply exc_bind_Ok in H as (endMinutes & _ & H).
  destruct startMinutes as [|slot]; [by injection H as <-|].
  destruct (num_sub endMinutes duration) as [|bound]; [by injection H as <-|].
  by eapply slot_loop_free.
Qed.

Lemma windows_free duration existing windows : ∀ allSlots slots,
  foldM (window_slots duration existing) allSlots windows = Ok slots →
  Forall (free_slot existing) allSlots → Forall (free_slot existing) slots.
Proof.
  induction windows as [|w rest IH]; intros allSlots slots; cbn [foldM].
  - by intros [= <-].
  - intros (acc & Hw & Hrest)%exc_bind_Ok Hall.
    apply (IH _ _ Hrest). by apply (window_slots_free _ _ _ _ _ Hw).
Qed.

Lemma sort_strings_elem time l : time ∈ sort_strings l ↔ time ∈ l.
Proof. unfold sort_strings. by rewrite merge_sort_Permutation. Qed.

Lemma some_overlaps_false slot apts :
  some_overlaps slot apts = Ok false →
  Forall (fun apt => overlaps slot apt = Ok false) apts.
Proof.
  induction apts as [|apt rest IH]; cbn [some_overlaps]; [done|].
  intros (hit & Hapt & H)%exc_bind_Ok. destruct hit; [done|]. constructor; auto.
Qed.

Lemma is_free_array slot apts :
  is_free (JArr apts) slot = Ok true →
  Forall (fun apt => overlaps slot apt = Ok false) apts.
Proof.
  unfold is_free. cbn [nullish as_array]. rewrite bind_Ok.
  intros (occupied & Hsome & [= Hocc])%exc_bind_Ok.
  destruct occupied; [done|]. by apply some_overlaps_false.
Qed.

Lemma overlaps_false slot apt :
  overlaps slot apt = Ok false →
  ∃ aptStart aptEnd,
    (get_prop apt "start_time" ≫= timeToMinutes) = Ok aptStart ∧
    (get_prop apt "end_time" ≫= timeToMinutes) = Ok aptEnd ∧
    ¬ (num_le aptStart (Int slot) = true ∧ num_gt aptEnd (Int slot) = true).
Proof.
  unfold overlaps.
  intros (start_time & Hst & H)%exc_bind_Ok.
  apply exc_bind_Ok in H as (aptStart & Hs & H).
  apply exc_bind_Ok in H as (end_time & Het & H).
  apply exc_bind_Ok in H as (aptEnd & He & [= Hcond]).
  exists aptStart, aptEnd. rewrite Hst, Het, !bind_Ok. repeat split; [done..|].
  intros [H1 H2]. change (num_le aptStart (Int slot) && num_gt aptEnd (Int slot) = false)
    in Hcond. by rewrite H1, H2 in Hcond.
Qed.

Lemma getAvailableSlots_total S R scheduleId date serviceId duration arrival :
  ∃ slots, getAvailableSlots S R scheduleId date serviceId duration arrival = Ok slots.
Proof. unfold getAvailableSlots. destruct (getAvailableSlots_try _ _ _ _ _ _ _); cbn; eauto. Qed.

Lemma getAvailableSlots_inv S R scheduleId date serviceId duration arrival slots :
  getAvailableSlots S R scheduleId date serviceId duration arrival = Ok slots →
  slots = [] ∨
  ∃ rp rows ids ra re,
    active_providers S scheduleId = Ok rp ∧ none_found (data rp) = false ∧
    as_array (data rp) "map" = Ok rows ∧
    mapM (fun p => get_prop p "id") rows = Ok ids ∧
    availability_on S ids (getDay R date) = Ok ra ∧ none_found (data ra) = false ∧
    appointments_on S scheduleId date = Ok re ∧
    Forall (free_slot (data re)) slots.
Proof.
  unfold getAvailableSlots.
  intros [H|(e & _ & [= <-])]%try_catch_Ok; [|by left].
  unfold getAvailableSlots_try in H.
  apply exc_bind_Ok in H as (rp & Hrp & H).
  destruct (none_found (data rp)) eqn:Hnp; [injection H as <-; by left|].
  apply exc_bind_Ok in H as (rows & Hrows & H).
  apply exc_bind_Ok in H as (ids & Hids & H).
  apply exc_bind_Ok in H as (ra & Hra & H).
  destruct (none_found (data ra)) eqn:Hna; [injection H as <-; by left|].
  apply exc_bind_Ok in H as (re & Hre & H).
  apply exc_bind_Ok in H as (windows & Hwin & H).
  apply exc_bind_Ok in H as (allSlots & Hfold & [= <-]).
  right. exists rp, rows, ids, ra, re. repeat split; try done.
  apply Forall_forall. intros time Htime.
  apply (proj1 (sort_strings_elem _ _)) in Htime.
  pose proof (windows_free _ _ _ _ _ Hfold (Forall_nil_2 _)) as Hall.
  by apply (proj1 (Forall_forall _ _) Hall).
Qed.

(** C2 (as amended). [getAvailableSlots] always returns a list. Every time
    in it is the text of a slot (in minutes, read back from the text by
    [timeToMinutes] for a time of day) that lies outside the interval
    [start, end) of every appointment that the lookup of the store hands
    over for the schedule and date as not canceled, whichever provider owns
    it. The list is empty when the schedule has no active provider, and when
    no availability window of its providers matches the day of the week of
    the date. *)
Theorem getAvailableSlots_avoids_appointments
    (S : Store) (R : Runtime) (scheduleId date serviceId : jsval)
    (duration : num) (isByArrivalTime : jsval) :
  ∃ slots,
    getAvailableSlots S R scheduleId date serviceId duration isByArrivalTime = Ok slots ∧
    (∀ time, time ∈ slots →
       ∃ slot, time = minutesToTime (Int slot) ∧
         (0 ≤ slot ≤ MAX_SAFE_INTEGER → timeToMinutes (JStr time) = Ok (Int slot)) ∧
         ∀ r existingAppointments apt,
           appointments_on S scheduleId date = Ok r →
           data r = JArr existingAppointments →
           apt ∈ existingAppointments →
           ∃ aptStart aptEnd,
             (get_prop apt "start_time" ≫= timeToMinutes) = Ok aptStart ∧
             (get_prop apt "end_time" ≫= timeToMinutes) = Ok aptEnd ∧
             ¬ (num_le aptStart (Int slot) = true ∧ num_gt aptEnd (Int slot) = true)) ∧
    (∀ r, active_providers S scheduleId = Ok r → none_found (data r) = true →
          slots = []) ∧
    (∀ rp rows ids ra,
       active_providers S scheduleId = Ok rp →
       as_array (data rp) "map" = Ok rows →
       mapM (fun p => get_prop p "id") rows = Ok ids →
       availability_on S ids (getDay R date) = Ok ra →
       none_found (data ra) = true →
       slots = []).
Proof.
  destruct (getAvailableSlots_total S R scheduleId date serviceId duration isByArrivalTime)
    as [slots Hslots].
  exists slots. split; [done|].
  destruct (getAvailableSlots_inv _ _ _ _ _ _ _ _ Hslots)
    as [->|(rp & rows & ids & ra & re & Hrp & Hnp & Hrows & Hids & Hra & Hna & Hre & Hfree)].
  { split; [|done]. intros time Htime. by apply elem_of_nil in Htime. }
  split; [|split].
  - intros time Htime.
    destruct (proj1 (Forall_forall _ _) Hfree time Htime) as (slot & -> & Hslot).
    exists slot. split; [done|]. split; [by intros [? _]; apply timeToMinutes_minutesToTime|].
    intros r apts apt Hr Hdata Hapt.
    rewrite Hre in Hr. injection Hr as <-. rewrite Hdata in Hslot.
    apply is_free_array in Hslot.
    by apply overlaps_false, (proj1 (Forall_forall _ _) Hslot).
  - intros r Hr Hnone. rewrite Hrp in Hr. injection Hr as <-. congruence.
  - intros rp' rows' ids' ra' Hrp' Hrows' Hids' Hra' Hnone.
    rewrite Hrp in Hrp'. injection Hrp' as <-.
    rewrite Hrows in Hrows'. injection Hrows' as <-.
    rewrite Hids in Hids'. injection Hids' as <-.
    rewrite Hra in Hra'. injection Hra' as <-. congruence.
Qed.

(** The guarantee rests on the store handing over the appointments: when
    their lookup answers with an error and no data, nothing thrown, the
    calculator goes on without them and offers the times they occupy. *)
Lemma getAvailableSlots_unread_appointments :
  getAvailableSlots (without_appointments Salon.booked "timeout") Salon.runtime
    (JStr "sch-1") (JStr "2024-01-08") (JStr "svc-1") (Int 30) (JBool false)
  = Ok ["09:00"; "09:30"].
Proof. by vm_compute. Qed.

(** C2 as stated fails when the lookup of the appointments answers with an
    error and no data. The schedule has the appointment [Salon.taken], from
    09:30 to 10:00 on the date and not canceled (the store lists it when the
    lookup succeeds), which covers the slot of 09:30; with the lookup
    failing, the calculator returns 09:30 among the available times. *)
Lemma getAvailableSlots_offers_taken_time :
  appointments_on Salon.booked (JStr "sch-1") (JStr "2024-01-08") =
    Ok {| data := JArr [Salon.early; Salon.taken]; error := None |} ∧
  overlaps 570 Salon.taken = Ok true ∧
  minutesToTime (Int 570) = "09:30" ∧
  ∃ slots,
    getAvailableSlots (without_appointments Salon.booked "timeout") Salon.runtime
      (JStr "sch-1") (JStr "2024-01-08") (JStr "svc-1") (Int 30) (JBool false)
    = Ok slots ∧ "09:30" ∈ slots.
Proof.
  split; [reflexivity|]. split; [reflexivity|]. split; [reflexivity|].
  exists ["09:00"; "09:30"]. split; [by vm_compute | set_solver].
Qed.

Lemma getAvailableSlots_avoids_appointments_witness :
  getAvailableSlots Salon.store Salon.runtime (JStr "sch-1") (JStr "2024-01-08")
    (JStr "svc-1") (Int 30) (JBool false) = Ok ["09:00"] ∧
  ∃ slot, "09:00" = minutesToTime (Int slot) ∧
    (0 ≤ slot ≤ MAX_SAFE_INTEGER → timeToMinutes (JStr "09:00") = Ok (Int slot)) ∧
    ∃ aptStart aptEnd,
      (get_prop Salon.taken "start_time" ≫= timeToMinutes) = Ok aptStart ∧
      (get_prop Salon.taken "end_time" ≫= timeToMinutes) = Ok aptEnd ∧
      ¬ (num_le aptStart (Int slot) = true ∧ num_gt aptEnd (Int slot) = true).
Proof.
  destruct (getAvailableSlots_avoids_appointments Salon.store Salon.runtime
              (JStr "sch-1") (JStr "2024-01-08") (JStr "svc-1") (Int 30) (JBool false))
    as (slots & Hslots & Havoid & _).
  assert (slots = ["09:00"]) as -> by (vm_compute in Hslots; congruence).
  split; [done|].
  destruct (Havoid "09:00") as (slot & Htime & Hback & Hfree); [apply list_elem_of_here|].
  exists slot. split; [done|]. split; [done|].
  apply (Hfree {| data := JArr [Salon.taken]; error := None |} [Salon.taken]);
    [reflexivity | reflexivity | apply list_elem_of_here].
Defined.

(** ** Failures inside the availability calculator *)

Lemma checkAvailability_reaches_slots S R scheduleId date time serviceId timezone
    r duration arrival slots :
  schedule_row S scheduleId = Ok r → error r = None → truthy (data r) = true →
  service_settings S serviceId = Ok (duration, arrival) →
  getAvailableSlots S R scheduleId date serviceId duration arrival = Ok slots →
  ∃ result,
    checkAvailability S R scheduleId date time serviceId timezone = Ok result ∧
    result !! "success" = Some (JBool true) ∧
    result !! "available" =
      Some (JBool (if truthy time then includes slots time
                   else bool_decide (0 < length slots)%nat)) ∧
    result !! "available_times" = Some (js_strings slots).
Proof.
  intros Hr He Hd Hsettings Hslots.
  unfold checkAvailability, checkAvailability_try.
  rewrite Hr, bind_Ok, He, Hd. cbn [negb orb].
  rewrite bool_decide_eq_false_2 by (by intros [? ?]).
  rewrite Hsettings, bind_Ok. cbn beta iota. rewrite Hslots, bind_Ok.
  destruct (truthy time); cbn [negb try_catch]; eexists; (split; [reflexivity|]);
    repeat split; reflexivity.
Qed.

(** C9. [getAvailableSlots] always returns a list, and the empty one when
    anything inside it throws. [checkAvailability], once it has found the
    schedule and read the service, then reports success with no available
    time; and its whole result is the same for two stores that differ only
    in that the slot computation fails in one and finds every time taken in
    the other. *)
Theorem getAvailableSlots_hides_failures
    (S : Store) (R : Runtime) (scheduleId date time serviceId timezone : jsval) :
  (∀ duration arrival,
     ∃ slots, getAvailableSlots S R scheduleId date serviceId duration arrival = Ok slots) ∧
  (∀ duration arrival message,
     getAvailableSlots_try S R scheduleId date serviceId duration arrival = Throw message →
     getAvailableSlots S R scheduleId date serviceId duration arrival = Ok []) ∧
  (∀ r duration arrival message,
     schedule_row S scheduleId = Ok r → error r = None → truthy (data r) = true →
     service_settings S serviceId = Ok (duration, arrival) →
     getAvailableSlots_try S R scheduleId date serviceId duration arrival = Throw message →
     ∃ result,
       checkAvailability S R scheduleId date time serviceId timezone = Ok result ∧
       result !! "success" = Some (JBool true) ∧
       result !! "available" = Some (JBool false) ∧
       result !! "available_times" = Some (JArr [])) ∧
  (∀ S' duration arrival message,
     schedule_row S' scheduleId = schedule_row S scheduleId →
     service_settings S' serviceId = service_settings S serviceId →
     service_settings S serviceId = Ok (duration, arrival) →
     getAvailableSlots_try S R scheduleId date serviceId duration arrival = Throw message →
     getAvailableSlots_try S' R scheduleId date serviceId duration arrival = Ok [] →
     checkAvailability S R scheduleId date time serviceId timezone =
     checkAvailability S' R scheduleId date time serviceId timezone).
Proof.
  split; [|split; [|split]].
  - intros. apply getAvailableSlots_total.
  - intros duration arrival message Hthrow. unfold getAvailableSlots. by rewrite Hthrow.
  - intros r duration arrival message Hr He Hd Hsettings Hthrow.
    destruct (checkAvailability_reaches_slots S R scheduleId date time serviceId timezone
                r duration arrival []) as (result & Hres & Hs & Ha & Ht); [done..| |].
    { unfold getAvailableSlots. by rewrite Hthrow. }
    exists result. repeat split; [done..| |done].
    rewrite Ha. by destruct (truthy time), time.
  - intros S' duration arrival message Hrow Hsettings Hs Hthrow Hempty.
    unfold checkAvailability, checkAvailability_try.
    rewrite Hrow, Hsettings, Hs.
    destruct (schedule_row S scheduleId) as [r|]; [|done]. rewrite !bind_Ok.
    destruct (bool_decide (is_Some (error r)) || negb (truthy (data r))); [done|].
    rewrite ?bind_Ok. cbn beta iota.
    unfold getAvailableSlots. by rewrite Hthrow, Hempty.
Qed.

Lemma getAvailableSlots_hides_failures_witness :
  checkAvailability Salon.offline Salon.runtime (JStr "sch-1") (JStr "2024-01-08")
    JUndefined (JStr "svc-1") (JStr "America/Sao_Paulo") =
  checkAvailability Salon.booked Salon.runtime (JStr "sch-1") (JStr "2024-01-08")
    JUndefined (JStr "svc-1") (JStr "America/Sao_Paulo") ∧
  ∃ result,
    checkAvailability Salon.offline Salon.runtime (JStr "sch-1") (JStr "2024-01-08")
      JUndefined (JStr "svc-1") (JStr "America/Sao_Paulo") = Ok result ∧
    result !! "success" = Some (JBool true) ∧
    result !! "available" = Some (JBool false) ∧
    result !! "available_times" = Some (JArr []).
Proof.
  destruct (getAvailableSlots_hides_failures Salon.offline Salon.runtime (JStr "sch-1")
              (JStr "2024-01-08") JUndefined (JStr "svc-1") (JStr "America/Sao_Paulo"))
    as (_ & _ & Hreport & Hsame).
  split.
  - apply (Hsame Salon.booked (Int 30) (JBool false) "fetch failed"); reflexivity.
  - apply (Hreport {| data := Salon.schedule; error := None |} (Int 30) (JBool false)
             "fetch failed"); reflexivity.
Defined.

(** ** Effects *)

Lemma Eff_bind_run {A B} (m : Eff A) (k : A → Eff B) w :
  (m ≫= k) w =
    match m w with
    | (Normal a, w') => k a w'
    | (Returned v, w') => (Returned v, w')
    | (Thrown e, w') => (Thrown e, w')
    end.
Proof. reflexivity. Qed.

Lemma lift_Ok_bind {A B} (a : A) (k : A → Eff B) w : (lift (Ok a) ≫= k) w = k a w.
Proof. reflexivity. Qed.

Lemma lift_Throw_bind {A B} e (k : A → Eff B) w :
  (lift (Throw e) ≫= k) w = (Thrown e, w).
Proof. reflexivity. Qed.

Lemma mret_run {A} (a : A) w : (mret a : Eff A) w = (Normal a, w).
Proof. reflexivity. Qed.

(** ** Booking *)

Lemma js_join_strings sep l : js_join sep (JStr <$> l) = join sep l.
Proof.
  unfold js_join. f_equal. induction l as [|s l IH]; [done|]. cbn. by rewrite IH.
Qed.

(** X28. A requested time that is given (truthy) and is not among the computed
    slots is refused, with the available times in the message, and nothing
    is written: this is the path the booking check is written for. *)
Lemma createAppointment_refuses_taken_time S R
    scheduleId customerId date time serviceId notes providerId timezone session
    r duration arrival slots w :
  schedule_row S scheduleId = Ok r → error r = None → truthy (data r) = true →
  service_settings S serviceId = Ok (duration, arrival) →
  getAvailableSlots S R scheduleId date serviceId duration arrival = Ok slots →
  truthy time = true → includes slots time = false →
  createAppointment S R scheduleId customerId date time serviceId notes providerId
    timezone session w =
  (Normal (failure ("The requested time slot is not available. Available times: "
                    +:+ join ", " slots)), w).
Proof.
  intros Hr He Hd Hsettings Hslots Htime Hnot.
  destruct (checkAvailability_reaches_slots S R scheduleId date time serviceId timezone
              r duration arrival slots) as (result & Hres & _ & Ha & Ht); [done..|].
  rewrite Htime, Hnot in Ha.
  unfold createAppointment, Eff_try_catch, createAppointment_try.
  rewrite Hres, lift_Ok_bind, !get_prop_obj, Ha, lift_Ok_bind. cbn [or_undefined truthy negb].
  rewrite Ht, lift_Ok_bind. cbn [or_undefined js_strings as_array].
  by rewrite lift_Ok_bind, mret_run, js_join_strings.
Qed.

(** C1, at the failing input. The schedule offers 09:00 on the date; a
    booking whose requested time is the empty string, which is not one of
    the offered times, is not refused: [checkAvailability] takes the falsy
    time for "no time requested" and answers that the day has free slots, so
    [createAppointment] goes on, writes a row whose start time is empty and
    whose end time is "NaN:NaN", and reports success. *)
Theorem createAppointment_books_empty_time :
  let run := createAppointment Salon.store Salon.runtime (JStr "sch-1") (JStr "cust-9")
               (JStr "2024-01-08") (JStr "") (JStr "svc-1") JUndefined JUndefined
               (JStr "America/Sao_Paulo") Salon.session (Salon.world ∅) in
  getAvailableSlots Salon.store Salon.runtime (JStr "sch-1") (JStr "2024-01-08")
    (JStr "svc-1") (Int 30) (JBool false) = Ok ["09:00"] ∧
  includes ["09:00"] (JStr "") = false ∧
  (∃ result, run.1 = Normal result ∧ result !! "success" = Some (JBool true)) ∧
  (∃ row, writes run.2 = [Inserted row] ∧
          row !! "start_time" = Some (JStr "") ∧
          row !! "end_time" = Some (JStr "NaN:NaN")).
Proof.
  cbn zeta. split; [by vm_compute|]. split; [reflexivity|]. split.
  - eexists. split; [vm_compute; reflexivity | reflexivity].
  - eexists. split; [vm_compute; reflexivity | split; reflexivity].
Qed.

(** ** Result envelopes *)

(** Inversion of a computation in [exc] that is known to succeed. *)
Ltac exc_inv H :=
  repeat
    (lazymatch type of H with
     | (_ ≫= _) = Ok _ =>
         let x := fresh "x" in let Hx := fresh "Hx" in
         apply exc_bind_Ok in H as (x & Hx & H)
     | try_catch _ _ = Ok _ =>
         let e := fresh "e" in let He := fresh "He" in
         apply try_catch_Ok in H as [H|(e & He & H)]
     | (if ?c then _ else _) = Ok _ => destruct c eqn:?
     | (let '(_, _) := ?p in _) = Ok _ => destruct p eqn:?
     | match ?x with _ => _ end = Ok _ => destruct x eqn:?
     | Ok _ = Ok _ => injection H as <-
     | Throw _ = Ok _ => discriminate H
     end).

Lemma failure_message message : has_message (failure message).
Proof. by eexists. Qed.

Lemma error_result_envelope message : envelope (error_result message).
Proof. eexists. split; [done|]. split; [by right | by eexists]. Qed.

Lemma checkAvailability_message S R scheduleId date time serviceId timezone result :
  checkAvailability S R scheduleId date time serviceId timezone = Ok result →
  has_message result.
Proof.
  unfold checkAvailability, checkAvailability_try. intros H. exc_inv H; by eexists.
Qed.

Lemma checkAppointment_message S R customerId appointmentId scheduleId result :
  checkAppointment S R customerId appointmentId scheduleId = Ok result →
  has_message result.
Proof. unfold checkAppointment. intros H. exc_inv H; by eexists. Qed.

Lemma enrichedResult_envelope result operation date time serviceName scheduleName timezone :
  has_message result →
  envelope (enrichedResult result operation date time serviceName scheduleName timezone).
Proof.
  intros [message Hm]. eexists. split; [done|]. unfold spread. cbn [foldl fst snd]. split.
  - rewrite lookup_insert_ne, lookup_insert_ne, lookup_insert_eq by done.
    destruct (truthy _); auto.
  - exists message. by rewrite !lookup_insert_ne.
Qed.

(** ** A program logic for the dispatcher *)

Lemma args_step_refl fields a : args_step fields a a.
Proof. intros key. by left. Qed.

Lemma args_step_trans fields a1 a2 a3 :
  args_step fields a1 a2 → args_step fields a2 a3 → args_step fields a1 a3.
Proof.
  intros H12 H23 key. destruct (H23 key) as [H|H]; [|by right].
  rewrite H. apply H12.
Qed.

Section Logic.

Context (fields : list string).

Lemma spec_bind {A B} (m : Eff A) (k : A → Eff B) QN1 QN QR :
  spec fields m QN1 QR → (∀ a, QN1 a → spec fields (k a) QN QR) →
  spec fields (m ≫= k) QN QR.
Proof.
  intros Hm Hk w. rewrite Eff_bind_run. destruct (Hm w) as [Hstep Hpost].
  destruct (m w) as [[a|v|e] w']; cbn [fst snd] in *; [|done..].
  destruct (Hk a Hpost w') as [Hstep' Hpost']. split; [|done].
  by apply (args_step_trans _ _ (args w')).
Qed.

Lemma spec_conseq {A} (m : Eff A) (QN QN' : A → Prop) (QR QR' : jsval → Prop) :
  spec fields m QN QR → (∀ a, QN a → QN' a) → (∀ v, QR v → QR' v) →
  spec fields m QN' QR'.
Proof.
  intros Hm HN HR w. destruct (Hm w) as [Hstep Hpost]. split; [done|].
  destruct (m w).1; auto.
Qed.

Lemma spec_lift {A} (m : exc A) QR : spec fields (lift m) (fun a => m = Ok a) QR.
Proof. intros w. destruct m; cbn; auto using args_step_refl. Qed.

Lemma spec_mret {A} (a : A) QR : spec fields (mret a) (fun a' => a' = a) QR.
Proof. intros w. cbn. auto using args_step_refl. Qed.

Lemma spec_return {A} (v : jsval) (QN : A → Prop) (QR : jsval → Prop) :
  QR v → spec fields (return_ v) QN QR.
Proof. intros Hv w. cbn. auto using args_step_refl. Qed.

Lemma spec_read_args QR : spec fields read_args (fun _ => True) QR.
Proof. intros w. cbn. auto using args_step_refl. Qed.

Lemma spec_arg key QR : spec fields (arg key) (fun _ => True) QR.
Proof. intros w. unfold arg. rewrite Eff_bind_run. cbn. auto using args_step_refl. Qed.

Lemma spec_assign_arg key value QR :
  key ∈ fields → truthy value = true →
  spec fields (assign_arg key value) (fun _ => True) QR.
Proof.
  intros Hkey Hvalue w. cbn. split; [|done]. intros key'.
  destruct (decide (key = key')) as [<-|Hne].
  - right. split; [done|]. exists value. by rewrite lookup_insert_eq.
  - left. by rewrite lookup_insert_ne.
Qed.

Lemma spec_look_in_cache R org type subKey QR :
  spec fields (look_in_cache R org type subKey) (fun _ => True) QR.
Proof.
  intros w. unfold look_in_cache. rewrite Eff_bind_run. cbn.
  destruct (getCachedMap _ _ _ _ _); cbn; auto using args_step_refl.
Qed.

Lemma spec_store_in_cache R org type map subKey QR :
  spec fields (store_in_cache R org type map subKey) (fun _ => True) QR.
Proof.
  intros w. unfold store_in_cache. rewrite Eff_bind_run. cbn.
  destruct (setCachedMap _ _ _ _ _ _);
    rewrite ?lift_Ok_bind, ?lift_Throw_bind; cbn; auto using args_step_refl.
Qed.

Lemma spec_db_insert S row QR : spec fields (db_insert S row) (fun _ => True) QR.
Proof.
  intros w. unfold db_insert. rewrite Eff_bind_run. cbn.
  destruct (insert_appointment S row); cbn; auto using args_step_refl.
Qed.

Lemma spec_db_update S id changes QR :
  spec fields (db_update S id changes) (fun _ => True) QR.
Proof.
  intros w. unfold db_update. rewrite Eff_bind_run. cbn.
  destruct (update_appointment S id changes); cbn; auto using args_step_refl.
Qed.

Lemma spec_try_catch {A} (body : Eff A) handler QN QR :
  spec fields body QN QR → (∀ e, spec fields (handler e) QN QR) →
  spec fields (Eff_try_catch body handler) QN QR.
Proof.
  intros Hbody Hhandler w. unfold Eff_try_catch. destruct (Hbody w) as [Hstep Hpost].
  destruct (body w) as [[a|v|e] w']; cbn [fst snd] in *; [done..|].
  destruct (Hhandler e w') as [Hstep' Hpost']. split; [|done].
  by apply (args_step_trans _ _ (args w')).
Qed.

Lemma spec_call (body : Eff jsval) (Q : jsval → Prop) :
  spec fields body Q Q → spec fields (call body) Q (fun _ => False).
Proof.
  intros Hbody w. unfold call. destruct (Hbody w) as [Hstep Hpost].
  by destruct (body w) as [[a|v|e] w'].
Qed.

Lemma spec_mret_post {A} (a : A) (QN : A → Prop) QR :
  QN a → spec fields (mret a) QN QR.
Proof. intros Ha. eapply spec_conseq; [apply spec_mret | by intros ? -> | done]. Qed.

Lemma spec_lift_post {A} (m : exc A) (QN : A → Prop) QR :
  (∀ a, m = Ok a → QN a) → spec fields (lift m) QN QR.
Proof. intros Hm. eapply spec_conseq; [apply spec_lift | done | done]. Qed.

End Logic.

Lemma spec_fields {A} fields fields' (m : Eff A) QN QR :
  fields ⊆ fields' → spec fields m QN QR → spec fields' m QN QR.
Proof.
  intros Hsub Hm w. destruct (Hm w) as [Hstep Hpost]. split; [|done].
  intros key. destruct (Hstep key) as [H|[Hin H]]; [by left|right]. split; [|done].
  by apply Hsub.
Qed.

(** One step of a proof in the logic: split a sequence, or reduce a leaf to
    its postcondition. *)
Ltac spec_step :=
  lazymatch goal with
  | |- spec _ (let _ := _ in _) _ _ => cbv zeta
  | |- spec _ (lift _ ≫= _) _ _ =>
      let H := fresh "H" in
      eapply spec_bind; [apply spec_lift | intros ? H; cbv beta in H]
  | |- spec _ (arg _ ≫= _) _ _ => eapply spec_bind; [apply spec_arg | intros ? _]
  | |- spec _ (read_args ≫= _) _ _ => eapply spec_bind; [apply spec_read_args | intros ? _]
  | |- spec _ (look_in_cache _ _ _ _ ≫= _) _ _ =>
      eapply spec_bind; [apply spec_look_in_cache | intros ? _]
  | |- spec _ (store_in_cache _ _ _ _ _ ≫= _) _ _ =>
      eapply spec_bind; [apply spec_store_in_cache | intros ? _]
  | |- spec _ (db_insert _ _ ≫= _) _ _ =>
      eapply spec_bind; [apply spec_db_insert | intros ? _]
  | |- spec _ (db_update _ _ _ ≫= _) _ _ =>
      eapply spec_bind; [apply spec_db_update | intros ? _]
  | |- spec _ (_ ≫= _) _ _ =>
      eapply spec_bind with (QN1 := fun _ => True); [ | intros ? _]
  | |- spec _ (return_ _) _ _ => apply spec_return
  | |- spec _ (mret _) _ _ => apply spec_mret_post
  | |- spec _ (lift _) _ _ =>
      let H := fresh "H" in apply spec_lift_post; intros ? H; cbv beta in H
  | |- spec _ (assign_arg _ _) _ _ =>
      eapply spec_conseq;
        [apply spec_assign_arg; [set_solver | eassumption] | done | done]
  | |- spec _ (if ?c then _ else _) _ _ => destruct c eqn:?
  | |- spec _ (match ?x with _ => _ end) _ _ => destruct x eqn:?
  end.

(** ** The appointment manager inside the logic *)

Lemma createAppointment_spec S R scheduleId customerId date time serviceId notes
    providerId timezone session :
  spec [] (createAppointment S R scheduleId customerId date time serviceId notes
             providerId timezone session) has_message (fun _ => False).
Proof.
  apply spec_try_catch; [|intros e; apply spec_mret_post, failure_message].
  unfold createAppointment_try. repeat spec_step; try done; by eexists.
Qed.

Lemma cancel_each_spec S R appointments : ∀ canceled,
  spec [] (cancel_each S R appointments canceled) (fun _ => True) (fun _ => False).
Proof.
  induction appointments as [|appointment rest IH]; intros canceled; cbn [cancel_each].
  - by apply spec_mret_post.
  - repeat spec_step; apply IH.
Qed.

Lemma deleteAppointment_spec S R appointmentId customerId date scheduleId :
  spec [] (deleteAppointment S R appointmentId customerId date scheduleId)
    has_message (fun _ => False).
Proof.
  apply spec_try_catch; [|intros e; apply spec_mret_post, failure_message].
  unfold deleteAppointment_try.
  repeat first [ eapply spec_bind; [apply cancel_each_spec | intros ? _]
               | spec_step ]; try done; by eexists.
Qed.

Lemma processCheckScheduleAction_spec S R action a session :
  spec [] (processCheckScheduleAction S R action a session) envelope (fun _ => False).
Proof.
  apply spec_call, spec_try_catch;
    [|intros e; apply spec_return, error_result_envelope].
  unfold processCheckScheduleAction_try.
  repeat (lazymatch goal with
          | |- spec _ ((if is_string _ "checkAvailability" then _ else _) ≫= _) _ _ => fail
          | _ => spec_step
          end); try apply error_result_envelope; try done.
  all: eapply spec_bind with (QN1 := has_message);
    [|intros result Hmessage; by apply spec_mret_post, enrichedResult_envelope].
  all: repeat first
         [ eapply spec_conseq; [apply createAppointment_spec | done | done]
         | eapply spec_conseq; [apply deleteAppointment_spec | done | done]
         | spec_step ];
    eauto using error_result_envelope, checkAvailability_message,
      checkAppointment_message.
Qed.

(** ** The dispatcher inside the logic *)

Section Dispatch.

Context (S : Store) (R : Runtime) (session : Session).
Context (QR : jsval → Prop).
Hypothesis QR_envelope : ∀ v, envelope v → QR v.

Lemma QR_error message : QR (error_result message).
Proof. apply QR_envelope, error_result_envelope. Qed.

Lemma resolve_service_name_spec scheduleId :
  spec ["service_id"] (resolve_service_name S R session scheduleId) (fun _ => True) QR.
Proof. unfold resolve_service_name. repeat spec_step; eauto using QR_error. Qed.

Lemma resolve_provider_name_spec scheduleId :
  spec ["provider_id"] (resolve_provider_name S R session scheduleId) (fun _ => True) QR.
Proof. unfold resolve_provider_name. repeat spec_step; eauto using QR_error. Qed.

Lemma resolve_team_name_spec :
  spec ["team_id"] (resolve_team_name S R session) (fun _ => True) QR.
Proof. unfold resolve_team_name. repeat spec_step; eauto using QR_error. Qed.

Lemma resolve_flow_name_spec :
  spec ["flow_id"] (resolve_flow_name S R session) (fun _ => True) QR.
Proof. unfold resolve_flow_name. repeat spec_step; eauto using QR_error. Qed.

(** What follows the two resolution steps of the schedule case leaves the
    argument object alone. *)
Lemma schedule_forward_spec scheduleId :
  spec []
    (operation ← arg "operation";
     date ← arg "date";
     time ← arg "time";
     appointmentId ← arg "appointmentId";
     serviceId ← arg "serviceId";
     notes ← arg "notes";
     let actionReturn := JObj (object [
       ("type", operation);
       ("config", JObj (object [
          ("scheduleId", scheduleId);
          ("operation", operation);
          ("date", date);
          ("time", time);
          ("appointmentId", appointmentId);
          ("serviceId", serviceId);
          ("notes", notes)]))]) in
     a ← read_args;
     result ← processCheckScheduleAction S R actionReturn a session;
     return_ result) QR QR.
Proof.
  repeat first
    [ eapply spec_bind;
        [eapply spec_conseq;
           [apply processCheckScheduleAction_spec | intros ? ?; eassumption | done]
        | intros ? ?]
    | spec_step ]; eauto.
Qed.

Lemma schedule_case_spec action :
  spec ["service_id"; "provider_id"] (schedule_case S R action session) QR QR.
Proof.
  unfold schedule_case.
  repeat first
    [ eapply spec_bind;
        [eapply (spec_fields ["service_id"]); [set_solver|];
         apply resolve_service_name_spec | intros ? _]
    | eapply spec_bind;
        [eapply (spec_fields ["provider_id"]); [set_solver|];
         apply resolve_provider_name_spec | intros ? _]
    | eapply (spec_fields []); [set_solver|]; apply schedule_forward_spec
    | spec_step ]; eauto using QR_error.
Qed.

Context (X : Executors).
Hypothesis QR_customer :
  ∀ action a v, processUpdateCustomerAction X action a session = Ok v → QR v.
Hypothesis QR_chat :
  ∀ action a v, processUpdateChatAction X action a session = Ok v → QR v.
Hypothesis QR_flow :
  ∀ action a v, processStartFlowAction X action a session = Ok v → QR v.

Lemma update_customer_case_spec : spec [] (update_customer_case X session) QR QR.
Proof. unfold update_customer_case. repeat spec_step; eauto. Qed.

Lemma update_chat_case_spec : spec ["team_id"] (update_chat_case S R X session) QR QR.
Proof.
  unfold update_chat_case.
  repeat first [ eapply spec_bind; [apply resolve_team_name_spec | intros ? _]
               | spec_step ]; eauto.
Qed.

Lemma start_flow_case_spec : spec ["flow_id"] (start_flow_case S R X session) QR QR.
Proof.
  unfold start_flow_case.
  repeat first [ eapply spec_bind; [apply resolve_flow_name_spec | intros ? _]
               | spec_step ]; eauto.
Qed.

Lemma handleSystemToolCall_try_spec tool actionsSystem :
  spec id_fields (handleSystemToolCall_try S R X tool actionsSystem session) QR QR.
Proof.
  unfold handleSystemToolCall_try, id_fields.
  repeat first
    [ eapply (spec_fields ["service_id"; "provider_id"]); [set_solver|];
      apply schedule_case_spec
    | eapply (spec_fields []); [set_solver|]; apply update_customer_case_spec
    | eapply (spec_fields ["team_id"]); [set_solver|]; apply update_chat_case_spec
    | eapply (spec_fields ["flow_id"]); [set_solver|]; apply start_flow_case_spec
    | spec_step ]; eauto using QR_error.
Qed.

Lemma handleSystemToolCall_spec tool actionsSystem :
  spec id_fields (handleSystemToolCall S R X tool actionsSystem session)
    QR (fun _ => False).
Proof.
  apply spec_call, spec_try_catch; [apply handleSystemToolCall_try_spec|].
  intros e. apply spec_return, QR_error.
Qed.

End Dispatch.

(** ** Dispatch never throws *)

Lemma handleSystemToolCall_completes S R X tool actionsSystem session w :
  ∃ result w',
    handleSystemToolCall S R X tool actionsSystem session w = (Normal result, w') ∧
    ∀ message w1,
      handleSystemToolCall_try S R X tool actionsSystem session w = (Thrown message, w1) →
      result = error_result ("Error processing system tool " +:+ name tool
                             +:+ ": " +:+ message) ∧ w' = w1.
Proof.
  unfold handleSystemToolCall, call, Eff_try_catch.
  destruct (handleSystemToolCall_try S R X tool actionsSystem session w)
    as [[v|v|e] w1]; cbn; eexists _, _; (split; [done|]); intros ? ? [= <- <-]; done.
Qed.



(** ** Names that resolve *)

Lemma arg_run key w : arg key w = (Normal (or_undefined (args w !! key)), w).
Proof. reflexivity. Qed.

Lemma look_in_cache_run R org type subKey w v :
  getCachedMap (Date_now R) (nameToIdCache w) org type subKey = Ok v →
  look_in_cache R org type subKey w = (Normal v, w).
Proof. intros H. unfold look_in_cache. by rewrite Eff_bind_run; cbn; rewrite H. Qed.

Lemma store_in_cache_run R org type map subKey w cache' :
  setCachedMap (Date_now R) (nameToIdCache w) org type map subKey = Ok cache' →
  store_in_cache R org type map subKey w = (Normal (), with_cache w cache').
Proof. intros H. unfold store_in_cache. by rewrite Eff_bind_run; cbn; rewrite H. Qed.

Lemma assign_arg_run key value w : assign_arg key value w = (Normal (), with_arg w key value).
Proof. reflexivity. Qed.

Lemma lift_run {A} (m : exc A) a w : m = Ok a → lift m w = (Normal a, w).
Proof. by intros ->. Qed.

(** Running a sequence whose first part is known. *)
Lemma bind_run {A B} (m : Eff A) (k : A → Eff B) w a w' :
  m w = (Normal a, w') → (m ≫= k) w = k a w'.
Proof. intros H. by rewrite Eff_bind_run, H. Qed.

(** Runs the first computation of the sequence in the goal, given what it
    yields. *)
Tactic Notation "run" uconstr(H) := rewrite (bind_run _ _ _ _ _ H).

Ltac run_rebuild Hr Hfound Hrows Hbuilt Hset :=
  erewrite bind_run; cycle 1;
  [ run (lift_run _ _ _ Hr); cbn zeta; rewrite Hfound;
    try run (lift_run _ _ _ Hrows);
    run (lift_run _ _ _ Hbuilt);
    run (store_in_cache_run _ _ _ _ _ _ _ Hset);
    apply mret_run
  | ].

Lemma resolve_flow_name_resolves S R session w flow_name map cache' id :
  or_undefined (args w !! "flow_name") = flow_name → truthy flow_name = true →
  name_map R (nameToIdCache w) (organization_id session) "flows" JNull
    (active_flows S (organization_id session)) Ok "name" map cache' →
  resolves R map flow_name id →
  resolve_flow_name S R session w =
    (Normal (), with_arg (with_cache w cache') "flow_id" id).
Proof.
  intros Hname Hgiven Hmap (key & Hkey & Hid & Htruthy). unfold resolve_flow_name.
  run (arg_run "flow_name" w). rewrite Hname, Hgiven. cbn [negb].
  destruct Hmap as [(Hhit & Hmap & ->)|(cached & r & rows & built & Hmiss & Hcached & Hr &
                                         Hfound & [= <-] & Hbuilt & -> & Hset)].
  - run (look_in_cache_run _ _ _ _ _ _ Hhit). rewrite Hmap. cbn [negb].
    run (mret_run map w). run (lift_run _ _ w Hkey). run (lift_run _ _ w Hid).
    rewrite Htruthy. by destruct w.
  - run (look_in_cache_run _ _ _ _ _ _ Hmiss). rewrite Hcached. cbn [negb].
    run_rebuild Hr Hfound Hr Hbuilt Hset.
    run (lift_run _ _ (with_cache w cache') Hkey).
    run (lift_run _ _ (with_cache w cache') Hid). by rewrite Htruthy.
Qed.

Lemma resolve_team_name_resolves S R session w team_name map cache' id :
  or_undefined (args w !! "team_name") = team_name → truthy team_name = true →
  name_map R (nameToIdCache w) (organization_id session) "teams" JNull
    (teams_of S (organization_id session)) Ok "name" map cache' →
  resolves R map team_name id →
  resolve_team_name S R session w =
    (Normal (), with_arg (with_cache w cache') "team_id" id).
Proof.
  intros Hname Hgiven Hmap (key & Hkey & Hid & Htruthy). unfold resolve_team_name.
  run (arg_run "team_name" w). rewrite Hname, Hgiven.
  destruct Hmap as [(Hhit & Hmap & ->)|(cached & r & rows & built & Hmiss & Hcached & Hr &
                                         Hfound & [= <-] & Hbuilt & -> & Hset)].
  - run (look_in_cache_run _ _ _ _ _ _ Hhit). rewrite Hmap. cbn [negb].
    run (mret_run map w). rewrite Hmap.
    run (lift_run _ _ w Hkey). run (lift_run _ _ w Hid).
    rewrite Htruthy. by destruct w.
  - run (look_in_cache_run _ _ _ _ _ _ Hmiss). rewrite Hcached. cbn [negb].
    run_rebuild Hr Hfound Hr Hbuilt Hset. cbn [truthy].
    run (lift_run _ _ (with_cache w cache') Hkey).
    run (lift_run _ _ (with_cache w cache') Hid). by rewrite Htruthy.
Qed.

Lemma resolve_service_name_resolves S R session scheduleId w service_name map cache' id :
  or_undefined (args w !! "service_name") = service_name → truthy service_name = true →
  name_map R (nameToIdCache w) (organization_id session) "services" scheduleId
    (active_services S scheduleId) Ok "title" map cache' →
  resolves R map service_name id →
  resolve_service_name S R session scheduleId w =
    (Normal (), with_arg (with_cache w cache') "service_id" id).
Proof.
  intros Hname Hgiven Hmap (key & Hkey & Hid & Htruthy). unfold resolve_service_name.
  run (arg_run "service_name" w). rewrite Hname, Hgiven.
  destruct Hmap as [(Hhit & Hmap & ->)|(cached & r & rows & built & Hmiss & Hcached & Hr &
                                         Hfound & [= <-] & Hbuilt & -> & Hset)].
  - run (look_in_cache_run _ _ _ _ _ _ Hhit). rewrite Hmap. cbn [negb].
    run (mret_run map w). run (lift_run _ _ w Hkey). run (lift_run _ _ w Hid).
    rewrite Htruthy. by destruct w.
  - run (look_in_cache_run _ _ _ _ _ _ Hmiss). rewrite Hcached. cbn [negb].
    run_rebuild Hr Hfound Hr Hbuilt Hset.
    run (lift_run _ _ (with_cache w cache') Hkey).
    run (lift_run _ _ (with_cache w cache') Hid). by rewrite Htruthy.
Qed.

Lemma resolve_provider_name_resolves S R session scheduleId w provider_name map cache' id :
  or_undefined (args w !! "provider_name") = provider_name →
  truthy provider_name = true →
  name_map R (nameToIdCache w) (organization_id session) "providers" scheduleId
    (active_providers_profiles S scheduleId) profiles_of "full_name" map cache' →
  resolves R map provider_name id →
  resolve_provider_name S R session scheduleId w =
    (Normal (), with_arg (with_cache w cache') "provider_id" id).
Proof.
  intros Hname Hgiven Hmap (key & Hkey & Hid & Htruthy). unfold resolve_provider_name.
  run (arg_run "provider_name" w). rewrite Hname, Hgiven.
  destruct Hmap as [(Hhit & Hmap & ->)|(cached & r & rows & built & Hmiss & Hcached & Hr &
                                         Hfound & Hrows & Hbuilt & -> & Hset)].
  - run (look_in_cache_run _ _ _ _ _ _ Hhit). rewrite Hmap. cbn [negb].
    run (mret_run map w). rewrite Hmap.
    run (lift_run _ _ w Hkey). run (lift_run _ _ w Hid).
    rewrite Htruthy. by destruct w.
  - run (look_in_cache_run _ _ _ _ _ _ Hmiss). rewrite Hcached. cbn [negb].
    run_rebuild Hr Hfound Hrows Hbuilt Hset. cbn [truthy].
    run (lift_run _ _ (with_cache w cache') Hkey).
    run (lift_run _ _ (with_cache w cache') Hid). by rewrite Htruthy.
Qed.

(** ** The arguments after dispatch *)

Lemma spec_nil_args {A} (m : Eff A) QN QR w : spec [] m QN QR → args (m w).2 = args w.
Proof.
  intros Hm. destruct (Hm w) as [Hstep _]. apply map_eq. intros key.
  destruct (Hstep key) as [H|[H _]]; [done|]. by apply elem_of_nil in H.
Qed.

Lemma spec_other_arg {A} fields (m : Eff A) QN QR w key :
  spec fields m QN QR → key ∉ fields → args (m w).2 !! key = args w !! key.
Proof. intros Hm Hkey. destruct (Hm w) as [Hstep _]. by destruct (Hstep key) as [H|[H _]]. Qed.

Lemma handleSystemToolCall_world S R X tool actionsSystem session w :
  (handleSystemToolCall S R X tool actionsSystem session w).2 =
  (handleSystemToolCall_try S R X tool actionsSystem session w).2.
Proof.
  unfold handleSystemToolCall, call, Eff_try_catch.
  by destruct (handleSystemToolCall_try S R X tool actionsSystem session w) as [[v|v|e] w1].
Qed.

Lemma handleSystemToolCall_try_case S R X tool actionsSystem session type action w :
  dispatches tool actionsSystem type action →
  handleSystemToolCall_try S R X tool actionsSystem session w =
    (if bool_decide (type = "schedule") then schedule_case S R action session
     else if bool_decide (type = "update_customer") then update_customer_case X session
     else if bool_decide (type = "update_chat") then update_chat_case S R X session
     else if bool_decide (type = "start_flow") then start_flow_case S R X session
     else return_ (error_result ("Unrecognized system tool: " +:+ name tool))) w.
Proof.
  intros (actions & config & Hactions & Hfind & Hconfig & Htype).
  unfold handleSystemToolCall_try.
  run (lift_run _ _ w Hactions). run (lift_run _ _ w Hfind).
  run (lift_run _ _ w Hconfig). run (lift_run _ _ w Htype).
  reflexivity.
Qed.

Lemma handleSystemToolCall_try_flow S R X tool actionsSystem session action w :
  dispatches tool actionsSystem "start_flow" action →
  handleSystemToolCall_try S R X tool actionsSystem session w =
  start_flow_case S R X session w.
Proof. intros H. by rewrite (handleSystemToolCall_try_case _ _ _ _ _ _ _ _ _ H). Qed.

Lemma handleSystemToolCall_try_chat S R X tool actionsSystem session action w :
  dispatches tool actionsSystem "update_chat" action →
  handleSystemToolCall_try S R X tool actionsSystem session w =
  update_chat_case S R X session w.
Proof. intros H. by rewrite (handleSystemToolCall_try_case _ _ _ _ _ _ _ _ _ H). Qed.

Lemma handleSystemToolCall_try_schedule S R X tool actionsSystem session action w :
  dispatches tool actionsSystem "schedule" action →
  handleSystemToolCall_try S R X tool actionsSystem session w =
  schedule_case S R action session w.
Proof. intros H. by rewrite (handleSystemToolCall_try_case _ _ _ _ _ _ _ _ _ H). Qed.

Lemma schedule_case_steps S R action session scheduleId w :
  schedule_found S session action scheduleId →
  schedule_case S R action session w =
    (_ ← resolve_service_name S R session scheduleId;
     _ ← resolve_provider_name S R session scheduleId;
     operation ← arg "operation";
     date ← arg "date";
     time ← arg "time";
     appointmentId ← arg "appointmentId";
     serviceId ← arg "serviceId";
     notes ← arg "notes";
     let actionReturn := JObj (object [
       ("type", operation);
       ("config", JObj (object [
          ("scheduleId", scheduleId);
          ("operation", operation);
          ("date", date);
          ("time", time);
          ("appointmentId", appointmentId);
          ("serviceId", serviceId);
          ("notes", notes)]))]) in
     a ← read_args;
     result ← processCheckScheduleAction S R actionReturn a session;
     return_ result) w.
Proof.
  intros (config & schedule & r & first & Hconfig & Hschedule & Htruthy & Hr & Herror &
          Hfound & Hfirst & Hid).
  unfold schedule_case.
  run (lift_run _ _ w Hconfig). run (lift_run _ _ w Hschedule). rewrite Htruthy.
  cbn [negb]. run (lift_run _ _ w Hr). cbn zeta. rewrite Herror, Hfound.
  rewrite bool_decide_eq_false_2 by (by intros [? ?]).
  run (lift_run _ _ w Hfirst). run (lift_run _ _ w Hid). reflexivity.
Qed.

(** After its resolution step, the flow case and the chat case only read. *)
Lemma start_flow_case_world S R X session w w1 :
  resolve_flow_name S R session w = (Normal (), w1) →
  (start_flow_case S R X session w).2 = w1.
Proof.
  intros Hresolve. unfold start_flow_case. run Hresolve.
  run (arg_run "flow_id" w1). cbn zeta. rewrite Eff_bind_run. cbn [read_args].
  rewrite Eff_bind_run. by destruct (processStartFlowAction X _ _ _).
Qed.

Lemma update_chat_case_world S R X session w w1 :
  resolve_team_name S R session w = (Normal (), w1) →
  (update_chat_case S R X session w).2 = w1.
Proof.
  intros Hresolve. unfold update_chat_case. run Hresolve.
  run (arg_run "title" w1). run (arg_run "status" w1). run (arg_run "team_id" w1).
  cbn zeta. rewrite Eff_bind_run. cbn [read_args].
  rewrite Eff_bind_run. by destruct (processUpdateChatAction X _ _ _).
Qed.

Lemma schedule_case_after_service S R action session scheduleId w w1 key :
  schedule_found S session action scheduleId →
  resolve_service_name S R session scheduleId w = (Normal (), w1) →
  key ≠ "provider_id" →
  args (schedule_case S R action session w).2 !! key = args w1 !! key.
Proof.
  intros Hfound Hservice Hkey.
  rewrite (schedule_case_steps _ _ _ _ _ _ Hfound). run Hservice.
  eapply (spec_other_arg ["provider_id"] _ (fun _ => True) (fun _ => True));
    [|set_solver].
  eapply spec_bind; [by apply resolve_provider_name_spec | intros ? _].
  eapply (spec_fields []); [set_solver|]. by apply schedule_forward_spec.
Qed.

Lemma schedule_case_after_provider S R action session scheduleId w w1 w2 :
  schedule_found S session action scheduleId →
  resolve_service_name S R session scheduleId w = (Normal (), w1) →
  resolve_provider_name S R session scheduleId w1 = (Normal (), w2) →
  args (schedule_case S R action session w).2 = args w2.
Proof.
  intros Hfound Hservice Hprovider.
  rewrite (schedule_case_steps _ _ _ _ _ _ Hfound). run Hservice. run Hprovider.
  eapply (spec_nil_args _ (fun _ => True) (fun _ => True)).
  by apply schedule_forward_spec.
Qed.

(** C10. [handleSystemToolCall] changes the caller's argument object in
    place and only in the four identifier fields: every other field reads
    after the call as before it, and a field that reads differently holds a
    truthy identifier. When the flow name, the team name, the service name
    or the provider name, lower-cased by the runtime, resolves in the cached
    name map or in the one rebuilt from the store, the identifier found is
    what the call leaves in [flow_id], [team_id], [service_id] or
    [provider_id]. *)
Theorem handleSystemToolCall_args
    (S : Store) (R : Runtime) (X : Executors) (tool : Tool) (actionsSystem : jsval)
    (session : Session) (w : World) :
  let w' := (handleSystemToolCall S R X tool actionsSystem session w).2 in
  let org := organization_id session in
  (∀ key, key ∉ id_fields → args w' !! key = args w !! key) ∧
  (∀ key, args w' !! key ≠ args w !! key →
     key ∈ id_fields ∧ ∃ id, args w' !! key = Some id ∧ truthy id = true) ∧
  (∀ action map cache' id,
     dispatches tool actionsSystem "start_flow" action →
     truthy (or_undefined (args w !! "flow_name")) = true →
     name_map R (nameToIdCache w) org "flows" JNull (active_flows S org) Ok "name"
       map cache' →
     resolves R map (or_undefined (args w !! "flow_name")) id →
     args w' = <["flow_id" := id]> (args w)) ∧
  (∀ action map cache' id,
     dispatches tool actionsSystem "update_chat" action →
     truthy (or_undefined (args w !! "team_name")) = true →
     name_map R (nameToIdCache w) org "teams" JNull (teams_of S org) Ok "name"
       map cache' →
     resolves R map (or_undefined (args w !! "team_name")) id →
     args w' = <["team_id" := id]> (args w)) ∧
  (∀ action scheduleId map cache' id,
     dispatches tool actionsSystem "schedule" action →
     schedule_found S session action scheduleId →
     truthy (or_undefined (args w !! "service_name")) = true →
     name_map R (nameToIdCache w) org "services" scheduleId
       (active_services S scheduleId) Ok "title" map cache' →
     resolves R map (or_undefined (args w !! "service_name")) id →
     args w' !! "service_id" = Some id) ∧
  (∀ action scheduleId w1 map cache' id,
     dispatches tool actionsSystem "schedule" action →
     schedule_found S session action scheduleId →
     resolve_service_name S R session scheduleId w = (Normal (), w1) →
     truthy (or_undefined (args w1 !! "provider_name")) = true →
     name_map R (nameToIdCache w1) org "providers" scheduleId
       (active_providers_profiles S scheduleId) profiles_of "full_name" map cache' →
     resolves R map (or_undefined (args w1 !! "provider_name")) id →
     args w' = <["provider_id" := id]> (args w1)).
Proof.
  cbn zeta. rewrite handleSystemToolCall_world.
  pose proof (handleSystemToolCall_try_spec S R session (fun _ => True)
                (fun _ _ => I) X (fun _ _ _ _ => I) (fun _ _ _ _ => I)
                (fun _ _ _ _ => I) tool actionsSystem w) as [Hstep _].
  split; [|split; [|split; [|split; [|split]]]].
  - intros key Hkey. destruct (Hstep key) as [H|[H _]]; done.
  - intros key Hkey. destruct (Hstep key) as [H|H]; done.
  - intros action map cache' id Hcase Hgiven Hmap Hid.
    rewrite (handleSystemToolCall_try_flow _ _ _ _ _ _ _ _ Hcase).
    erewrite start_flow_case_world; [|by eapply resolve_flow_name_resolves]. done.
  - intros action map cache' id Hcase Hgiven Hmap Hid.
    rewrite (handleSystemToolCall_try_chat _ _ _ _ _ _ _ _ Hcase).
    erewrite update_chat_case_world; [|by eapply resolve_team_name_resolves]. done.
  - intros action scheduleId map cache' id Hcase Hfound Hgiven Hmap Hid.
    rewrite (handleSystemToolCall_try_schedule _ _ _ _ _ _ _ _ Hcase).
    erewrite schedule_case_after_service;
      [|done|by eapply resolve_service_name_resolves|done].
    apply lookup_insert_eq.
  - intros action scheduleId w1 map cache' id Hcase Hfound Hservice Hgiven Hmap Hid.
    rewrite (handleSystemToolCall_try_schedule _ _ _ _ _ _ _ _ Hcase).
    erewrite schedule_case_after_provider;
      [|done|done|by eapply resolve_provider_name_resolves]. done.
Qed.

Lemma handleSystemToolCall_args_witness :
  let w' := (handleSystemToolCall Salon.store Salon.runtime Salon.executors Booking.tool
               (JArr [Booking.action]) Salon.session (Salon.world Booking.arguments)).2 in
  let w'' := (handleSystemToolCall Salon.two_services Salon.runtime Salon.executors
                Booking.tool (JArr [Booking.action]) Salon.session
                (Salon.world (object [("operation", JStr "checkAvailability");
                                      ("date", JStr "2024-01-08");
                                      ("service_name", JStr "COLORAÇÃO")]))).2 in
  args w' !! "date" = Some (JStr "2024-01-08") ∧
  args w' !! "service_id" = Some (JStr "svc-1") ∧
  args w'' !! "service_id" = Some (JStr "svc-2").
Proof.
  cbn zeta.
  destruct (handleSystemToolCall_args Salon.store Salon.runtime Salon.executors
              Booking.tool (JArr [Booking.action]) Salon.session
              (Salon.world Booking.arguments)) as (Hframe & _ & _ & _ & Hservice & _).
  destruct (handleSystemToolCall_args Salon.two_services Salon.runtime Salon.executors
              Booking.tool (JArr [Booking.action]) Salon.session
              (Salon.world (object [("operation", JStr "checkAvailability");
                                    ("date", JStr "2024-01-08");
                                    ("service_name", JStr "COLORAÇÃO")])))
    as (_ & _ & _ & _ & Haccented & _).
  split; [|split].
  - rewrite Hframe; [reflexivity|]. unfold id_fields. set_solver.
  - eapply (Hservice Booking.action (JStr "sch-1")).
    + eexists _, _. repeat split; reflexivity.
    + eexists _, _, _, _. repeat split; reflexivity.
    + reflexivity.
    + right. eexists _, _, _, _. repeat split; reflexivity.
    + eexists. repeat split; reflexivity.
  - eapply (Haccented Booking.action (JStr "sch-1")).
    + eexists _, _. repeat split; reflexivity.
    + eexists _, _, _, _. repeat split; reflexivity.
    + reflexivity.
    + right. eexists _, _, _, _. repeat split; reflexivity.
    + eexists. repeat split; reflexivity.
Defined.

(** ** Cancelling by identifier *)

Lemma select_none keep table :
  (∀ row, row ∈ table → keep row = false) → select keep table = [].
Proof.
  intros Hnone. unfold select. induction table as [|row rest IH]; [done|].
  rewrite filter_cons. destruct (decide (keep row = true)) as [Hrow|_].
  - rewrite Hnone in Hrow; [done | apply list_elem_of_here].
  - apply IH. intros row' Hin. apply Hnone. by apply list_elem_of_further.
Qed.

(** Whatever the store, a cancellation by identifier whose lookup reports an
    error, or throws, fails with a message and writes nothing. *)
Lemma deleteAppointment_lookup_failed S R appointmentId customerId date scheduleId w :
  truthy appointmentId = true →
  (∃ r message, open_appointment S appointmentId customerId = Ok r ∧
                error r = Some message) ∨
  (∃ message, open_appointment S appointmentId customerId = Throw message) →
  ∃ message,
    deleteAppointment S R appointmentId customerId date scheduleId w =
      (Normal (failure message), w).
Proof.
  intros Hid Hlookup. unfold deleteAppointment, Eff_try_catch, deleteAppointment_try.
  rewrite Hid. destruct Hlookup as [(r & message & Hr & He)|(message & Hthrow)].
  - run (lift_run _ _ w Hr). rewrite He. by eexists.
  - rewrite Hthrow, lift_Throw_bind. by eexists.
Qed.

(** C5. In the by-identifier mode, when the store holds no appointment that
    has the identifier, belongs to the requesting customer and is scheduled
    or confirmed (so also when the appointment with that identifier is
    already canceled), [deleteAppointment] answers with [success: false] and
    the message that the appointment was not found, and leaves the state as
    it was: no update is sent to the store. *)
Theorem deleteAppointment_unknown_identifier
    (db : Database) (R : Runtime) (appointmentId customerId date scheduleId : jsval)
    (w : World) :
  truthy appointmentId = true →
  (∀ row, row ∈ appointments db →
     ¬ (column_is "id" appointmentId row = true ∧
        column_is "customer_id" customerId row = true ∧
        is_open row = true)) →
  let result :=
    failure ("Appointment not found with ID " +:+ to_string appointmentId
             +:+ " or it doesn't belong to this customer") in
  deleteAppointment (store_of db) R appointmentId customerId date scheduleId w =
    (Normal result, w) ∧
  result !! "success" = Some (JBool false) ∧
  is_Some (result !! "message").
Proof.
  intros Hid Hnone result. split; [|split; [done | by eexists]].
  unfold deleteAppointment, Eff_try_catch, deleteAppointment_try. rewrite Hid.
  assert (open_appointment (store_of db) appointmentId customerId =
          Ok {| data := JNull;
                error := Some "JSON object requested, multiple (or no) rows returned" |})
    as Hlookup.
  { cbn [open_appointment store_of]. rewrite select_none; [done|].
    intros row Hrow. apply not_true_is_false. intros Hkeep. apply (Hnone row Hrow).
    by apply andb_prop in Hkeep as [[??]%andb_prop ?]. }
  run (lift_run _ _ w Hlookup). reflexivity.
Qed.

Lemma deleteAppointment_unknown_identifier_witness :
  deleteAppointment Salon.store Salon.runtime (JStr "apt-0") (JStr "cust-1")
    JUndefined (JStr "sch-1") (Salon.world ∅) =
  (Normal (failure "Appointment not found with ID apt-0 or it doesn't belong to this customer"),
   Salon.world ∅).
Proof.
  apply (deleteAppointment_unknown_identifier Salon.db Salon.runtime (JStr "apt-0")
           (JStr "cust-1") JUndefined (JStr "sch-1") (Salon.world ∅)); [reflexivity|].
  intros row Hrow (Hid & Hcustomer & Hopen).
  apply elem_of_cons in Hrow as [->|Hrow]; [by vm_compute in Hopen|].
  apply list_elem_of_singleton in Hrow as ->. by vm_compute in Hid.
Defined.

(** ** The cache: what a change leaves alone *)

Lemma getCachedMap_entry t c1 c2 org type subKey :
  or_undefined (c1 !! to_string org) = or_undefined (c2 !! to_string org) →
  getCachedMap t c1 org type subKey = getCachedMap t c2 org type subKey.
Proof. intros H. unfold getCachedMap. by rewrite H. Qed.

Lemma getCachedMap_no_entry t cache org type subKey :
  truthy (or_undefined (cache !! to_string org)) = false →
  getCachedMap t cache org type subKey = Ok JNull.
Proof. intros H. unfold getCachedMap. by rewrite H. Qed.

Lemma by_schedule_cases type :
  by_schedule type = true → type = "services" ∨ type = "providers".
Proof.
  unfold by_schedule. intros [H|H]%orb_prop; apply bool_decide_eq_true in H; auto.
Qed.

Lemma empty_organization_cache_lookup :
  ∃ em, empty_organization_cache = JObj em ∧
    ∀ type, (by_schedule type = true → em !! type = Some (JObj ∅)) ∧
            (by_schedule type = false → truthy (or_undefined (em !! type)) = false).
Proof.
  eexists. split; [reflexivity|]. intros type. unfold object. cbn [foldl fst snd]. split.
  - intros [->| ->]%by_schedule_cases; reflexivity.
  - unfold by_schedule. intros [H1 H2]%orb_false_elim.
    apply bool_decide_eq_false in H1, H2.
    rewrite !lookup_insert. repeat case_decide; done.
Qed.

(** The lookup of a key in an organization entry that is an object. *)
Lemma getCachedMap_obj t cache org type subKey em :
  cache !! to_string org = Some (JObj em) →
  getCachedMap t cache org type subKey =
    if by_schedule type && negb (truthy subKey) then Ok JNull
    else if by_schedule type then
      let bucket := or_undefined (em !! type) in
      if negb (truthy bucket) then Ok JNull
      else
        typeCache ← get_prop bucket (to_string subKey);
        if negb (truthy typeCache) then Ok JNull
        else
          timestamp ← get_prop typeCache "timestamp";
          if negb (isCacheValid t timestamp) then Ok JNull
          else get_prop typeCache "data"
    else
      let typeCache := or_undefined (em !! type) in
      if negb (truthy typeCache) then Ok JNull
      else
        timestamp ← get_prop typeCache "timestamp";
        if negb (isCacheValid t timestamp) then Ok JNull
        else get_prop typeCache "data".
Proof. intros H. unfold getCachedMap. rewrite H. reflexivity. Qed.

(** What a successful [setCachedMap] does to the cache. *)
Lemma setCachedMap_inv now cache cache' org type map subKey :
  truthy org = true →
  setCachedMap now cache org type map subKey = Ok cache' →
  ∃ em,
    (cache !! to_string org = Some (JObj em) ∨
     (truthy (or_undefined (cache !! to_string org)) = false ∧
      empty_organization_cache = JObj em)) ∧
    (by_schedule type && truthy subKey = true →
     truthy (or_undefined (em !! type)) = true → ∃ bm, em !! type = Some (JObj bm)) ∧
    cache' =
      <[to_string org :=
          JObj (<[type :=
                    if by_schedule type && truthy subKey
                    then JObj (<[to_string subKey := cache_record map now]>
                                 (match em !! type with
                                  | Some (JObj bm) => bm
                                  | _ => ∅
                                  end))
                    else cache_record map now]> em)]> cache.
Proof.
  intros Horg. unfold setCachedMap. rewrite Horg. cbn [negb].
  set (entry0 := or_undefined (cache !! to_string org)).
  destruct (truthy entry0) eqn:Hentry0; cbn [negb].
  - (* the entry is there *)
    destruct (cache !! to_string org) as [entry|] eqn:Hentry; [|done].
    subst entry0. cbn [or_undefined] in *.
    destruct (by_schedule type && truthy subKey) eqn:Hbranch.
    + intros (bucket & Hbucket & H)%exc_bind_Ok.
      apply exc_bind_Ok in H as ([entry1 bucket1] & Hinit & H).
      apply exc_bind_Ok in H as (bucket2 & (bm & -> & ->)%set_prop_Ok & H).
      apply exc_bind_Ok in H as (entry2 & (em1 & -> & ->)%set_prop_Ok & [= <-]).
      destruct (truthy bucket) eqn:Hb; cbn [negb] in Hinit.
      * injection Hinit as -> ->. rewrite get_prop_obj in Hbucket.
        injection Hbucket as Hbucket. exists em1. split; [by left|]. split.
        { intros _ _. destruct (em1 !! type) as [v|]; cbn in Hbucket; [|done].
          subst v. eauto. }
        destruct (em1 !! type) as [v|]; cbn in Hbucket; [|done]. by subst v.
      * apply exc_bind_Ok in Hinit as (entry' & (em & -> & ->)%set_prop_Ok & [= <- <-]).
        rewrite get_prop_obj in Hbucket. injection Hbucket as Hbucket.
        exists em. split; [by left|]. split.
        { intros _ Ht. rewrite Hbucket in Ht. congruence. }
        rewrite insert_insert_eq.
        destruct (em !! type) as [v|]; cbn in Hbucket; [|done]. subst v.
        by destruct bucket.
    + intros (entry1 & (em & -> & ->)%set_prop_Ok & [= <-])%exc_bind_Ok.
      exists em. split; [by left|]. split; [done|]. done.
  - (* the entry is made *)
    destruct empty_organization_cache_lookup as (em & Heq & Hlook).
    rewrite lookup_insert_eq. cbn [or_undefined]. rewrite Heq.
    destruct (by_schedule type && truthy subKey) eqn:Hbranch.
    + apply andb_prop in Hbranch as [Hty Hsk].
      destruct (Hlook type) as [Hb _]. specialize (Hb Hty).
      rewrite get_prop_obj, Hb, bind_Ok. cbn [or_undefined truthy negb].
      rewrite bind_Ok. cbn [set_prop]. rewrite !bind_Ok.
      intros [= <-]. exists em. split; [by right|]. split; [eauto|].
      by rewrite insert_insert_eq, Hb.
    + cbn [set_prop]. rewrite bind_Ok. intros [= <-].
      exists em. split; [by right|]. split; [done|]. by rewrite insert_insert_eq.
Qed.

(** X1. On a cache of the module's shape, a [setCachedMap] whose keys are
    none of the names every object inherits changes what one key of the
    cache holds and nothing else: the lookups of another organization, of
    another type and, for a map stored under a schedule, of another schedule
    give after it what they gave before. *)
Theorem setCachedMap_other_keys now cache cache' org type map subKey :
  cache_shaped cache → plain_keys org type subKey →
  setCachedMap now cache org type map subKey = Ok cache' →
  ∀ t org' type' subKey',
    other_key org type subKey org' type' subKey' →
    getCachedMap t cache' org' type' subKey' = getCachedMap t cache org' type' subKey'.
Proof.
  intros _ _ Hset t org' type' subKey' Hother.
  destruct (truthy org) eqn:Horg; cycle 1.
  { unfold setCachedMap in Hset. rewrite Horg in Hset. by injection Hset as <-. }
  destruct (setCachedMap_inv _ _ _ _ _ _ _ Horg Hset) as (em & Hbefore & Hbucket & ->).
  destruct (decide (to_string org' = to_string org)) as [Heq|Hne];
    [|apply getCachedMap_entry; by rewrite lookup_insert_ne].
  assert (type' ≠ type ∨
          (type' = type ∧ by_schedule type = true ∧ truthy subKey = true ∧
           to_string subKey' ≠ to_string subKey)) as Hkey.
  { destruct (decide (type' = type)); [right | by left].
    by destruct Hother as [?|[?|?]]. }
  erewrite (getCachedMap_obj t (<[_ := _]> cache)) by (rewrite Heq; apply lookup_insert_eq).
  destruct Hbefore as [Hentry | [Hfalsy Hempty]].
  - rewrite (getCachedMap_obj t cache org' type' subKey' em) by (by rewrite Heq).
    destruct Hkey as [Hty | (-> & Hby & Hsk & Hne)].
    + by rewrite lookup_insert_ne.
    + rewrite lookup_insert_eq, Hby, Hsk. cbn [andb or_undefined truthy negb].
      destruct (truthy subKey'); cbn [negb]; [|done].
      rewrite get_prop_obj, lookup_insert_ne by done.
      destruct (truthy (or_undefined (em !! type))) eqn:Hb; cbn [negb].
      * destruct Hbucket as [bm Hbm]; [by rewrite Hby, Hsk | done |].
        by rewrite Hbm.
      * destruct (em !! type) as [[]|]; try done; by rewrite lookup_empty.
  - rewrite (getCachedMap_no_entry t cache) by (by rewrite Heq).
    destruct empty_organization_cache_lookup as (em0 & Heq0 & Hlook).
    assert (em0 = em) as -> by congruence.
    destruct (Hlook type') as [Hyes Hno].
    destruct Hkey as [Hty | (-> & Hby & Hsk & Hne)].
    + rewrite lookup_insert_ne by done.
      destruct (by_schedule type') eqn:Hby'; cbn [andb].
      * rewrite Hyes by done. cbn [or_undefined truthy negb].
        destruct (truthy subKey'); cbn [negb]; [|done].
        by rewrite get_prop_obj, lookup_empty.
      * by rewrite Hno.
    + rewrite lookup_insert_eq, Hby, Hsk. cbn [andb or_undefined truthy negb].
      destruct (truthy subKey'); cbn [negb]; [|done].
      rewrite get_prop_obj, lookup_insert_ne by done.
      rewrite Hyes by done. by rewrite lookup_empty.
Qed.

Lemma cache_shaped_buckets cache org em :
  cache_shaped cache → cache !! org = Some (JObj em) →
  ∀ type bucket, em !! type = Some bucket → bucket = JNull ∨ ∃ bm, bucket = JObj bm.
Proof. intros Hcache Hentry. by destruct (Hcache _ _ Hentry) as (em' & [= <-] & ?). Qed.

Lemma clearCacheItem_shaped cache org type subKey :
  cache_shaped cache →
  ∃ cache',
    clearCacheItem cache org type subKey = Ok cache' ∧
    cache_shaped cache' ∧
    (truthy org = true → ∀ t, getCachedMap t cache' org type subKey = Ok JNull) ∧
    (∀ t org' type' subKey',
       other_key org type subKey org' type' subKey' →
       getCachedMap t cache' org' type' subKey' = getCachedMap t cache org' type' subKey').
Proof.
  intros Hcache. unfold clearCacheItem.
  destruct (truthy org) eqn:Horg; cbn [negb orb]; [|by exists cache].
  destruct (cache !! to_string org) as [entry|] eqn:Hentry; cbn [or_undefined truthy negb];
    cycle 1.
  { exists cache. repeat split; try done. intros _ t. apply getCachedMap_no_entry.
    by rewrite Hentry. }
  destruct (Hcache _ _ Hentry) as (em & -> & Hbuckets). cbn [truthy negb].
  assert (∀ t, (by_schedule type && negb (truthy subKey) = true ∨
                truthy (or_undefined (em !! type)) = false ∨
                (by_schedule type = true ∧
                 ∃ bm, em !! type = Some (JObj bm) ∧
                       truthy (or_undefined (bm !! to_string subKey)) = false)) →
               getCachedMap t cache org type subKey = Ok JNull) as Hnull.
  { intros t H. rewrite (getCachedMap_obj _ _ _ _ _ em) by done.
    destruct H as [->|[H|(Hby & bm & Hbm & H)]]; [done| |].
    - cbn zeta. rewrite H. by destruct (by_schedule type), (truthy subKey).
    - rewrite Hby, Hbm. cbn [andb or_undefined truthy negb]. rewrite get_prop_obj, bind_Ok, H.
      by destruct (truthy subKey). }
  assert ((∀ t, getCachedMap t cache org type subKey = Ok JNull) →
          ∃ cache', Ok cache = Ok cache' ∧ cache_shaped cache' ∧
            (true = true → ∀ t, getCachedMap t cache' org type subKey = Ok JNull) ∧
            (∀ t org' type' subKey',
               other_key org type subKey org' type' subKey' →
               getCachedMap t cache' org' type' subKey' =
               getCachedMap t cache org' type' subKey')) as Hsame.
  { intros H. exists cache. split; [done|]. split; [done|]. split; [|done]. by intros _. }
  destruct (by_schedule type && truthy subKey) eqn:Hbranch.
  - pose proof Hbranch as [Hby Hsk]%andb_prop.
    rewrite get_prop_obj, bind_Ok.
    destruct (em !! type) as [bucket|] eqn:Hbucket; cbn [or_undefined truthy]; cycle 1.
    { apply Hsame. intros t. apply Hnull. by right; left. }
    destruct (Hbuckets _ _ Hbucket) as [->|[bm ->]]; cbn [truthy].
    { apply Hsame. intros t. apply Hnull. by right; left. }
    rewrite get_prop_obj, bind_Ok.
    destruct (truthy (or_undefined (bm !! to_string subKey))) eqn:Htc; cycle 1.
    { apply Hsame. intros t. apply Hnull. right; right. eauto. }
    cbn [delete_prop]. rewrite bind_Ok. cbn [set_prop]. rewrite bind_Ok.
    eexists. split; [done|]. split; [|split].
    + apply cache_shaped_insert; [done|]. intros type' bucket'. rewrite lookup_insert.
      case_decide; [intros [= <-]; eauto | apply Hbuckets].
    + intros _ t. erewrite getCachedMap_obj by apply lookup_insert_eq.
      rewrite Hby, Hsk. cbn [andb negb]. rewrite lookup_insert_eq.
      cbn [or_undefined truthy negb]. by rewrite get_prop_obj, lookup_delete_eq.
    + intros t org' type' subKey' Hother.
      destruct (decide (to_string org' = to_string org)) as [Heq|Hne];
        [|apply getCachedMap_entry; by rewrite lookup_insert_ne].
      erewrite (getCachedMap_obj t (<[_ := _]> cache))
        by (rewrite Heq; apply lookup_insert_eq).
      rewrite (getCachedMap_obj t cache org' type' subKey' em) by (by rewrite Heq).
      destruct (decide (type' = type)) as [->|Hty]; [|by rewrite lookup_insert_ne].
      destruct Hother as [?|[?|(_ & _ & Hne)]]; [done..|].
      rewrite lookup_insert_eq, Hbucket, Hby. cbn [andb or_undefined truthy negb].
      destruct (truthy subKey'); cbn [negb]; [|done].
      by rewrite !get_prop_obj, lookup_delete_ne.
  - rewrite get_prop_obj, bind_Ok.
    destruct (truthy (or_undefined (em !! type))) eqn:Hb; cycle 1.
    { apply Hsame. intros t. apply Hnull. by right; left. }
    cbn [delete_prop]. rewrite bind_Ok. eexists. split; [done|]. split; [|split].
    + apply cache_shaped_insert; [done|]. intros type' bucket'. rewrite lookup_delete.
      case_decide; [done | apply Hbuckets].
    + intros _ t. erewrite getCachedMap_obj by apply lookup_insert_eq.
      rewrite lookup_delete_eq. cbn [or_undefined truthy negb].
      destruct (by_schedule type), (truthy subKey); done.
    + intros t org' type' subKey' Hother.
      destruct (decide (to_string org' = to_string org)) as [Heq|Hne];
        [|apply getCachedMap_entry; by rewrite lookup_insert_ne].
      erewrite (getCachedMap_obj t (<[_ := _]> cache))
        by (rewrite Heq; apply lookup_insert_eq).
      rewrite (getCachedMap_obj t cache org' type' subKey' em) by (by rewrite Heq).
      destruct Hother as [?|[Hty|(Hby & Hsk & _)]]; [done| |].
      * by rewrite lookup_delete_ne.
      * by rewrite Hby, Hsk in Hbranch.
Qed.

Lemma getCachedMap_total t cache org type subKey :
  ∃ v, getCachedMap t cache org type subKey = Ok v.
Proof.
  assert (∀ v k, truthy v = true → ∃ x, get_prop v k = Ok x) as Hget.
  { intros v k Hv. destruct v; try done; cbn; repeat case_bool_decide; eauto. }
  unfold getCachedMap.
  repeat first
    [ match goal with
      | |- ∃ v, (if negb (truthy ?x) then _ else _) = Ok v =>
          destruct (truthy x) eqn:?; cbn [negb]
      | |- ∃ v, (if ?c then _ else _) = Ok v => destruct c
      | |- ∃ v, (get_prop ?x ?k ≫= _) = Ok v =>
          let y := fresh "y" in let Hy := fresh "Hy" in
          destruct (Hget x k) as [y Hy]; [done|]; rewrite Hy, bind_Ok
      | |- ∃ v, get_prop ?x ?k = Ok v => by apply Hget
      | |- ∃ v, Ok _ = Ok v => by eexists
      end ].
Qed.

Lemma clearOrganizationCache_shaped cache org :
  cache_shaped cache → cache_shaped (clearOrganizationCache cache org).
Proof.
  intros Hcache. unfold clearOrganizationCache. destruct (_ && _); [|done].
  intros org' entry. rewrite lookup_delete. case_decide; [done | apply Hcache].
Qed.

Lemma foldl_delete_lookup (keys : list string) : ∀ (cache : obj) key,
  foldl (fun c k => delete k c) cache keys !! key =
    if bool_decide (key ∈ keys) then None else cache !! key.
Proof.
  induction keys as [|k keys IH]; intros cache key; cbn [foldl]; [done|].
  rewrite IH. destruct (decide (key = k)) as [->|Hne].
  - rewrite lookup_delete_eq, (bool_decide_eq_true_2 (k ∈ k :: keys)) by set_solver.
    by case_bool_decide.
  - rewrite lookup_delete_ne by done.
    repeat case_bool_decide; set_solver.
Qed.

Lemma clearAllCache_empty cache : clearAllCache cache = ∅.
Proof.
  apply map_empty. intros key. unfold clearAllCache. rewrite foldl_delete_lookup.
  case_bool_decide as Hkey; [done|].
  destruct (cache !! key) as [entry|] eqn:Hentry; [|done].
  exfalso. apply Hkey. apply list_elem_of_fmap. exists (key, entry). split; [done|].
  by apply elem_of_map_to_list.
Qed.

(** X2. On a cache of the module's shape, and for keys that are none of
    the names every object inherits, [clearCacheItem] does not throw; after
    it the lookup of the cleared key finds nothing, and the lookups of the
    other keys find what they found before. *)
Theorem clearCacheItem_clears cache org type subKey :
  cache_shaped cache → plain_keys org type subKey →
  ∃ cache',
    clearCacheItem cache org type subKey = Ok cache' ∧
    (truthy org = true → ∀ t, getCachedMap t cache' org type subKey = Ok JNull) ∧
    (∀ t org' type' subKey',
       other_key org type subKey org' type' subKey' →
       getCachedMap t cache' org' type' subKey' = getCachedMap t cache org' type' subKey').
Proof.
  intros Hcache _.
  destruct (clearCacheItem_shaped cache org type subKey Hcache)
    as (cache' & Hclear & _ & Hnull & Hframe).
  by exists cache'.
Qed.

(** X3. For an organization identifier that is none of the names every
    object inherits: after [clearOrganizationCache] every lookup for the
    organization finds nothing, and the lookups for the other organizations
    find what they found before. *)
Theorem clearOrganizationCache_clears cache org :
  inherited (to_string org) = false →
  (truthy org = true →
   ∀ t type subKey,
     getCachedMap t (clearOrganizationCache cache org) org type subKey = Ok JNull) ∧
  (∀ t org' type subKey,
     to_string org' ≠ to_string org →
     getCachedMap t (clearOrganizationCache cache org) org' type subKey =
     getCachedMap t cache org' type subKey).
Proof.
  intros _. unfold clearOrganizationCache. split.
  - intros Horg t type subKey. rewrite Horg. cbn [andb].
    destruct (truthy (or_undefined (cache !! to_string org))) eqn:Hentry.
    + apply getCachedMap_no_entry. by rewrite lookup_delete_eq.
    + by apply getCachedMap_no_entry.
  - intros t org' type subKey Hne. destruct (_ && _); [|done].
    apply getCachedMap_entry. by rewrite lookup_delete_ne.
Qed.

(** X4. [clearAllCache] leaves the cache without a property of its own:
    every lookup that follows, for an organization identifier that is none
    of the names every object inherits, finds nothing. *)
Theorem clearAllCache_clears cache :
  clearAllCache cache = ∅ ∧
  ∀ t org type subKey,
    inherited (to_string org) = false →
    getCachedMap t (clearAllCache cache) org type subKey = Ok JNull.
Proof.
  split; [apply clearAllCache_empty|]. intros t org type subKey _.
  rewrite clearAllCache_empty. by apply getCachedMap_no_entry.
Qed.

(** X5. Whatever sequence of its four cache operations the module runs from
    the empty cache, with keys that are none of the names every object
    inherits, none of them throws, and the cache keeps its shape; a lookup
    with such keys never throws on a cache of that shape. *)
Theorem cache_operations_never_throw (ops : list cache_op) :
  Forall plain_op ops →
  (∃ cache, foldM run_cache_op ∅ ops = Ok cache ∧ cache_shaped cache) ∧
  (∀ t cache org type subKey,
     cache_shaped cache → plain_keys org type subKey →
     ∃ v, getCachedMap t cache org type subKey = Ok v).
Proof.
  intros _. split; [|intros; apply getCachedMap_total].
  assert (∀ cache, cache_shaped cache →
            ∃ cache', foldM run_cache_op cache ops = Ok cache' ∧ cache_shaped cache')
    as Hfrom; [|apply Hfrom, cache_shaped_empty].
  induction ops as [|op ops IH]; intros cache Hcache; cbn [foldM]; [by eauto|].
  assert (∃ cache1, run_cache_op cache op = Ok cache1 ∧ cache_shaped cache1)
    as (cache1 & -> & Hcache1).
  { destruct op as [now org type map subKey|org type subKey|org|]; cbn [run_cache_op].
    - by apply setCachedMap_shaped.
    - destruct (clearCacheItem_shaped cache org type subKey Hcache)
        as (cache' & Hclear & Hshaped & _). eauto.
    - eexists. split; [done|]. by apply clearOrganizationCache_shaped.
    - eexists. split; [done|]. rewrite clearAllCache_empty. apply cache_shaped_empty. }
  rewrite bind_Ok. by apply IH.
Qed.

Lemma setCachedMap_other_keys_witness :
  ∃ cache cache',
    setCachedMap 1000 ∅ (JStr "org-1") "teams" (JObj {["vendas" := JStr "team-1"]}) JNull
      = Ok cache ∧
    setCachedMap 2000 cache (JStr "org-1") "services" (JObj {["corte" := JStr "svc-1"]})
      (JStr "sch-1") = Ok cache' ∧
    getCachedMap 3000 cache' (JStr "org-1") "teams" JNull
      = Ok (JObj {["vendas" := JStr "team-1"]}).
Proof.
  destruct (setCachedMap_shaped 1000 ∅ (JStr "org-1") "teams"
              (JObj {["vendas" := JStr "team-1"]}) JNull cache_shaped_empty)
    as (cache & Hfirst & Hshaped).
  destruct (setCachedMap_shaped 2000 cache (JStr "org-1") "services"
              (JObj {["corte" := JStr "svc-1"]}) (JStr "sch-1") Hshaped)
    as (cache' & Hsecond & _).
  exists cache, cache'. split; [done|]. split; [done|].
  assert (plain_keys (JStr "org-1") "services" (JStr "sch-1")) as Hplain
    by (repeat split; reflexivity).
  rewrite (setCachedMap_other_keys _ _ _ _ _ _ _ Hshaped Hplain Hsecond
             3000 (JStr "org-1") "teams" JNull) by (by right; left).
  vm_compute in Hfirst. injection Hfirst as <-. by vm_compute.
Defined.

Lemma clearCacheItem_clears_witness :
  ∃ cache cache',
    setCachedMap 1000 ∅ (JStr "org-1") "teams" (JObj {["vendas" := JStr "team-1"]}) JNull
      = Ok cache ∧
    clearCacheItem cache (JStr "org-1") "teams" JNull = Ok cache' ∧
    getCachedMap 2000 cache' (JStr "org-1") "teams" JNull = Ok JNull.
Proof.
  destruct (setCachedMap_shaped 1000 ∅ (JStr "org-1") "teams"
              (JObj {["vendas" := JStr "team-1"]}) JNull cache_shaped_empty)
    as (cache & Hset & Hshaped).
  assert (plain_keys (JStr "org-1") "teams" JNull) as Hplain
    by (repeat split; reflexivity).
  destruct (clearCacheItem_clears cache (JStr "org-1") "teams" JNull Hshaped Hplain)
    as (cache' & Hclear & Hnull & _).
  exists cache, cache'. split; [done|]. split; [done|]. by apply Hnull.
Defined.

Lemma clearOrganizationCache_clears_witness :
  getCachedMap 2000 (clearOrganizationCache {["org-1" := empty_organization_cache]}
                       (JStr "org-1")) (JStr "org-1") "teams" JNull = Ok JNull.
Proof.
  apply (proj1 (clearOrganizationCache_clears _ (JStr "org-1") eq_refl)). reflexivity.
Defined.

Lemma clearAllCache_clears_witness :
  getCachedMap 2000 (clearAllCache {["org-1" := empty_organization_cache]})
    (JStr "org-1") "teams" JNull = Ok JNull.
Proof. apply (proj2 (clearAllCache_clears _)). reflexivity. Defined.

Lemma cache_operations_never_throw_witness :
  ∃ cache,
    foldM run_cache_op ∅
      [SetCachedMap 1000 (JStr "org-1") "services" (JObj {["corte" := JStr "svc-1"]})
         (JStr "sch-1");
       ClearCacheItem (JStr "org-1") "services" (JStr "sch-1");
       SetCachedMap 2000 (JStr "org-1") "teams" (JObj {["vendas" := JStr "team-1"]}) JNull;
       ClearOrganizationCache (JStr "org-1");
       ClearAllCache] = Ok cache ∧
    cache_shaped cache.
Proof.
  apply cache_operations_never_throw.
  repeat constructor.
Defined.

(** ** The shape of tool names *)

Lemma slug_normal_pattern s :
  slug_normal s = true → s = "" ∨ matches_slug_pattern s = true.
Proof.
  unfold slug_normal, matches_slug_pattern.
  intros [[[Hc _]%andb_prop _]%andb_prop _]%andb_prop.
  destruct (decide (s = "")) as [->|Hs]; [by left|right].
  rewrite bool_decide_eq_false_2 by done. cbn [negb andb].
  apply forallb_forall. intros c Hin.
  apply (proj1 (forallb_forall _ _) Hc) in Hin. unfold slug_char in Hin.
  destruct (is_lower c), (is_digit c), (is_upper c); cbn in *; try done.
  by rewrite Hin.
Qed.

Lemma transformToolName_normal name out :
  transformToolName name = Ok out → slug_normal out = true.
Proof.
  unfold transformToolName. destruct (truthy name) eqn:Hname; cbn [negb].
  - intros (lowered & Hlow & [= <-])%exc_bind_Ok.
    destruct name; try done. injection Hlow as <-. apply (slug_is_normal s).
  - by intros [= <-].
Qed.

Lemma collapse_keeps c l :
  is_underscore c = false → c ∈ l → c ∈ collapse_underscores l.
Proof.
  intros Hc. induction l as [|x l IH]; [done|].
  intros [->|Hin]%elem_of_cons.
  - cbn [collapse_underscores]. rewrite Hc. apply list_elem_of_here.
  - specialize (IH Hin). cbn [collapse_underscores].
    destruct (is_underscore x); [|by apply list_elem_of_further].
    destruct l as [|y l]; [by apply elem_of_nil in Hin|].
    destruct (is_underscore y); [done | by apply list_elem_of_further].
Qed.

Lemma drop_leading_keeps c l :
  is_underscore c = false → c ∈ l → c ∈ drop_leading_underscore l.
Proof.
  intros Hc. destruct l as [|x l]; [done|]. cbn [drop_leading_underscore].
  destruct (is_underscore x) eqn:Hx; [|done].
  intros [->|Hin]%elem_of_cons; [congruence | done].
Qed.

Lemma drop_trailing_keeps c l :
  is_underscore c = false → c ∈ l → c ∈ drop_trailing_underscore l.
Proof.
  intros Hc. induction l as [|x l IH]; [done|].
  destruct l as [|y l].
  - intros ->%list_elem_of_singleton. cbn. rewrite Hc. apply list_elem_of_here.
  - intros [->|Hin]%elem_of_cons.
    + rewrite drop_trailing_cons2. apply list_elem_of_here.
    + rewrite drop_trailing_cons2. apply list_elem_of_further. by apply IH.
Qed.

Lemma collapse_nil l : collapse_underscores l = [] → l = [].
Proof.
  induction l as [|c l IH]; [done|]. cbn [collapse_underscores].
  destruct (is_underscore c); [|done].
  destruct l as [|c' l]; [done|].
  destruct (is_underscore c'); [|done]. intros H. by specialize (IH H).
Qed.

Lemma collapse_all_underscores l :
  Forall (fun c => is_underscore c = true) l →
  collapse_underscores l = [] ∨ collapse_underscores l = [underscore].
Proof.
  induction 1 as [|c l Hc Hl IH]; [by left|]. right.
  cbn [collapse_underscores]. rewrite Hc.
  assert (c = underscore) as -> by (unfold is_underscore in Hc; by case_bool_decide).
  destruct l as [|c' l]; [done|].
  apply Forall_cons in Hl as [Hc' Hl]. rewrite Hc'.
  destruct IH as [IH|IH]; [|done]. by apply collapse_nil in IH.
Qed.

Lemma alnum_lower_char c :
  is_lower (lower_char c) || is_digit (lower_char c) =
  is_lower c || is_upper c || is_digit c.
Proof.
  destruct c as [[] [] [] [] [] [] [] []]; reflexivity.
Qed.

Lemma slug_empty s : slug s = "" ↔ has_alnum s = false.
Proof.
  unfold slug, toLowerCase, has_alnum. rewrite chars_of_chars.
  set (l := chars s). clearbody l. split.
  - intros Hempty. apply not_true_is_false. intros (c & Hin & Hc)%existsb_exists.
    assert (lower_char c ∈ trim_underscores (collapse_underscores
              (replace_non_alnum (lower_char <$> l)))) as Hkept.
    { assert (is_underscore (lower_char c) = false) as Hnot.
      { rewrite <- alnum_lower_char in Hc.
        destruct (lower_char c) as [[] [] [] [] [] [] [] []]; try done. }
      apply drop_trailing_keeps, drop_leading_keeps, collapse_keeps; try done.
      unfold replace_non_alnum. apply list_elem_of_fmap. exists (lower_char c).
      rewrite alnum_lower_char, Hc. split; [done|].
      apply list_elem_of_fmap. exists c. split; [done|]. by apply list_elem_of_In. }
    apply (f_equal chars) in Hempty. rewrite chars_of_chars in Hempty.
    rewrite Hempty in Hkept. by apply elem_of_nil in Hkept.
  - intros Hnone.
    assert (Forall (fun c => is_underscore c = true)
              (replace_non_alnum (lower_char <$> l))) as Hall.
    { unfold replace_non_alnum. rewrite <- list_fmap_compose. apply Forall_fmap.
      apply Forall_forall. intros c Hin. cbn.
      rewrite alnum_lower_char.
      destruct (is_lower c || is_upper c || is_digit c) eqn:Hc; [|done].
      exfalso. apply not_true_iff_false in Hnone. apply Hnone.
      apply existsb_exists. exists c. split; [by apply list_elem_of_In | done]. }
    destruct (collapse_all_underscores _ Hall) as [-> | ->]; reflexivity.
Qed.

(** X6. The result of [transformToolName], when there is one, is in the
    form the slug transformation produces (lower-case letters, digits and
    single underscores, none first or last); so it is empty or matches the
    documented pattern. *)
Theorem transformToolName_pattern name out :
  transformToolName name = Ok out →
  slug_normal out = true ∧ (out = "" ∨ matches_slug_pattern out = true).
Proof.
  intros H%transformToolName_normal. split; [done|]. by apply slug_normal_pattern.
Qed.

Lemma transformToolName_pattern_witness :
  slug_normal "caf_com_leite" = true ∧
  ("caf_com_leite" = "" ∨ matches_slug_pattern "caf_com_leite" = true).
Proof. apply (transformToolName_pattern (JStr "Caf? com leite!")). reflexivity. Defined.

(** X7. For a name of ASCII characters, the result is the empty string
    exactly when the name holds no letter and no digit. For such a name that
    is not itself empty, the chat tool is emitted with the empty name: the
    default name is used only for a missing name. A name that is neither
    falsy nor a string makes the transformation throw. *)
Theorem transformToolName_empty :
  (∀ s, ascii_only s = true →
        (transformToolName (JStr s) = Ok "" ↔ has_alnum s = false)) ∧
  (∀ action s,
     action !! "name" = Some (JStr s) → ascii_only s = true → s ≠ "" →
     has_alnum s = false →
     ∃ tool, generateUpdateChatTool (JObj action) = Ok tool ∧
             get_prop tool "name" = Ok (JStr "")) ∧
  (∀ name, truthy name = true → (∀ s, name ≠ JStr s) →
     ∃ message, transformToolName name = Throw message).
Proof.
  split; [|split].
  - intros s _. rewrite transformToolName_string. split.
    + intros [= H]. by apply slug_empty.
    + intros H. f_equal. by apply slug_empty.
  - intros action s Hname _ Hs Hnone. unfold generateUpdateChatTool.
    rewrite !get_prop_obj, Hname, bind_Ok. cbn [or_undefined].
    assert (js_or (JStr s) (JStr "update_chat") = JStr s) as ->.
    { unfold js_or. cbn [truthy]. by rewrite bool_decide_eq_false_2. }
    rewrite transformToolName_string, (proj2 (slug_empty s) Hnone), bind_Ok.
    rewrite bind_Ok. eexists. split; [reflexivity|]. reflexivity.
  - intros name Hname Hnot. unfold transformToolName. rewrite Hname. cbn [negb].
    destruct name; try done; try (by eexists). by destruct (Hnot s).
Qed.

Lemma transformToolName_empty_witness :
  transformToolName (JStr "?!") = Ok "" ∧
  (∃ tool, generateUpdateChatTool (JObj {["name" := JStr "---"]}) = Ok tool ∧
           get_prop tool "name" = Ok (JStr "")) ∧
  (∃ message, transformToolName (JNum (Int 7)) = Throw message).
Proof.
  destruct transformToolName_empty as (Hempty & Htool & Hthrow).
  split; [|split].
  - by apply Hempty.
  - apply (Htool _ "---"); [by rewrite lookup_singleton_eq | done | done | done].
  - by apply Hthrow.
Defined.

(** ** The catalog as a whole *)

Lemma generate_tool_name S org action tool :
  generate_tool S org action = Ok tool → truthy tool = true →
  ∃ toolName, get_prop tool "name" = Ok (JStr toolName) ∧ slug_normal toolName = true.
Proof.
  unfold generate_tool. intros H Htool.
  destruct (negb (truthy action)); [by injection H as <-|].
  apply exc_bind_Ok in H as (type & _ & H).
  destruct (negb (truthy type)); [by injection H as <-|].
  repeat (match type of H with
          | (if ?c then _ else _) = Ok _ => destruct c
          end).
  - apply generateScheduleTool_name in H as (n & toolName & _ & Hslug & Hname); [|done].
    eauto using transformToolName_normal.
  - apply generateUpdateCustomerTool_name in H as (n & toolName & _ & Hslug & Hname).
    eauto using transformToolName_normal.
  - apply generateUpdateChatTool_name in H as (n & toolName & _ & Hslug & Hname).
    eauto using transformToolName_normal.
  - apply generateStartFlowTool_name in H as (n & toolName & _ & Hslug & Hname); [|done].
    eauto using transformToolName_normal.
  - by injection H as <-.
Qed.

Lemma generate_tools_Forall (P : jsval → Prop) S org actions : ∀ tools out,
  (∀ action tool, generate_tool S org action = Ok tool → truthy tool = true → P tool) →
  generate_tools S org actions tools = Ok out →
  Forall P tools → Forall P out.
Proof.
  induction actions as [|action rest IH]; intros tools out HP; cbn [generate_tools].
  - by intros [= <-].
  - intros (tool & Htool & Hrest)%exc_bind_Ok Hall.
    apply (IH _ _ HP Hrest). destruct (truthy tool) eqn:Ht; [|done].
    apply Forall_app. split; [done|]. apply Forall_singleton. by apply (HP action).
Qed.

Lemma generate_tools_length S org actions : ∀ tools out,
  generate_tools S org actions tools = Ok out →
  (length out ≤ length tools + length actions)%nat.
Proof.
  induction actions as [|action rest IH]; intros tools out; cbn [generate_tools].
  - intros [= <-]. lia.
  - intros (tool & Htool & Hrest)%exc_bind_Ok. apply IH in Hrest.
    destruct (truthy tool); rewrite ?length_app in Hrest; cbn [length] in *; lia.
Qed.

(** X8. [generateSystemTools] always returns a list, with at most one tool
    per configured action. Every tool in it is an object whose [name] is a
    string in the form of the slug transformation: empty, or matching the
    pattern of tool names. *)
Theorem generateSystemTools_tool_names S org systemActions :
  ∃ tools,
    generateSystemTools S org systemActions = Ok tools ∧
    (∀ actions, systemActions = JArr actions → (length tools ≤ length actions)%nat) ∧
    ∀ tool, tool ∈ tools →
      truthy tool = true ∧
      ∃ toolName,
        get_prop tool "name" = Ok (JStr toolName) ∧
        slug_normal toolName = true ∧
        (toolName = "" ∨ matches_slug_pattern toolName = true).
Proof.
  unfold generateSystemTools.
  destruct (_ ≫= _) as [tools|e] eqn:Hbody; cbn [try_catch]; cycle 1.
  { exists []. split; [done|]. split; [intros; cbn; lia|].
    intros tool Hin. by apply elem_of_nil in Hin. }
  exists tools. split; [done|].
  apply exc_bind_Ok in Hbody as (actions & Hactions & Htools). split.
  - intros actions' ->. injection Hactions as <-.
    by apply generate_tools_length in Htools.
  - apply Forall_forall. eapply generate_tools_Forall; [|exact Htools|constructor].
    intros action tool H Ht. split; [done|].
    destruct (generate_tool_name _ _ _ _ H Ht) as (toolName & Hn & Hs).
    exists toolName. split; [done|]. split; [done|]. by apply slug_normal_pattern.
Qed.

Lemma generateSystemTools_tool_names_witness :
  ∃ tools,
    generateSystemTools Salon.store (JStr "org-1")
      (JArr [Booking.action;
             JObj (object [("name", JStr "Mudar Equipe"); ("type", JStr "update_chat")]);
             JNull]) = Ok tools ∧
    (length tools ≤ 3)%nat.
Proof.
  destruct (generateSystemTools_tool_names Salon.store (JStr "org-1")
              (JArr [Booking.action;
                     JObj (object [("name", JStr "Mudar Equipe");
                                   ("type", JStr "update_chat")]);
                     JNull])) as (tools & Htools & Hlength & _).
  exists tools. split; [done|]. by apply (Hlength _ eq_refl).
Defined.

Lemma generate_tool_unrecognized S org action :
  recognized action = false → generate_tool S org action = Ok JNull.
Proof.
  unfold recognized, generate_tool. destruct (truthy action) eqn:Ha; cbn [andb negb]; [|done].
  destruct (get_prop action "type") as [type|e] eqn:Htype.
  - rewrite bind_Ok. intros H.
    apply orb_false_elim in H as [H H4]. apply orb_false_elim in H as [H H3].
    apply orb_false_elim in H as [H1 H2]. rewrite H1, H2, H3, H4.
    by destruct (negb (truthy type)).
  - by destruct action.
Qed.

Lemma generate_tools_recognized S org actions : ∀ tools,
  generate_tools S org actions tools =
  generate_tools S org (filter (fun action => recognized action = true) actions) tools.
Proof.
  induction actions as [|action rest IH]; intros tools; [done|].
  rewrite filter_cons. destruct (decide (recognized action = true)) as [Hyes|Hno].
  - cbn [generate_tools]. destruct (generate_tool S org action); [|done].
    rewrite !bind_Ok. apply IH.
  - apply not_true_is_false in Hno. cbn [generate_tools].
    rewrite (generate_tool_unrecognized _ _ _ Hno), bind_Ok. cbn [truthy]. apply IH.
Qed.

(** X9. The configured actions that are missing, have no type, or have a
    type that is none of the four contribute nothing to the catalog: it is
    the catalog of the remaining actions. *)
Theorem generateSystemTools_passes_over S org actions :
  generateSystemTools S org (JArr actions) =
  generateSystemTools S org (JArr (filter (fun action => recognized action = true) actions)).
Proof.
  unfold generateSystemTools. cbn [as_array]. rewrite !bind_Ok.
  by rewrite generate_tools_recognized.
Qed.

Lemma generate_tools_throws S org action actions : ∀ tools,
  action ∈ actions →
  (∃ message, generate_tool S org action = Throw message) →
  ∃ message, generate_tools S org actions tools = Throw message.
Proof.
  induction actions as [|first rest IH]; intros tools Hin Hthrow.
  { by apply elem_of_nil in Hin. }
  cbn [generate_tools]. destruct (generate_tool S org first) as [tool|e] eqn:Hfirst.
  - rewrite bind_Ok. apply IH; [|done].
    apply elem_of_cons in Hin as [->|Hin]; [|done].
    destruct Hthrow as [message Hthrow]. congruence.
  - by eexists.
Qed.

(** X10. One schedule action without a [config] empties the whole catalog:
    reading the schedule of the missing configuration throws outside the
    generator's own [try], so [generateSystemTools] catches the failure and
    returns the empty list, whatever the other actions are. *)
Theorem generateSystemTools_schedule_without_config S org actions action config :
  action ∈ actions →
  get_prop action "type" = Ok (JStr "schedule") →
  get_prop action "config" = Ok config → nullish config = true →
  generateSystemTools S org (JArr actions) = Ok [].
Proof.
  intros Hin Htype Hconfig Hnull. unfold generateSystemTools. cbn [as_array].
  rewrite bind_Ok.
  destruct (generate_tools_throws S org action actions [] Hin) as [message ->]; [|done].
  unfold generate_tool.
  assert (truthy action = true) as -> by (by destruct action).
  cbn [negb]. rewrite Htype, bind_Ok. cbn [truthy negb is_string].
  rewrite bool_decide_eq_false_2, bool_decide_eq_true_2 by done. cbn [negb].
  unfold generateScheduleTool. rewrite Hconfig, bind_Ok.
  destruct config; try done; by eexists.
Qed.

Lemma generateSystemTools_schedule_without_config_witness :
  generateSystemTools Salon.store (JStr "org-1")
    (JArr [JObj (object [("name", JStr "Mudar Equipe"); ("type", JStr "update_chat")]);
           JObj (object [("name", JStr "Agendar"); ("type", JStr "schedule")])])
  = Ok [].
Proof.
  apply (generateSystemTools_schedule_without_config _ _ _
           (JObj (object [("name", JStr "Agendar"); ("type", JStr "schedule")]))
           JUndefined).
  - apply list_elem_of_further, list_elem_of_here.
  - reflexivity.
  - reflexivity.
  - reflexivity.
Defined.

(** ** The slots offered, exactly *)

Lemma timed_inv row :
  timed row →
  ∃ st s et e, get_prop row "start_time" = Ok st ∧ timeToMinutes st = Ok s ∧
               get_prop row "end_time" = Ok et ∧ timeToMinutes et = Ok e.
Proof.
  intros (s & e & (st & Hst & Hs)%exc_bind_Ok & (et & Het & He)%exc_bind_Ok).
  by exists st, s, et, e.
Qed.

Lemma overlaps_total slot apt : timed apt → ∃ hit, overlaps slot apt = Ok hit.
Proof.
  intros (st & s & et & e & Hst & Hs & Het & He)%timed_inv. unfold overlaps.
  rewrite Hst, bind_Ok, Hs, bind_Ok, Het, bind_Ok, He, bind_Ok. by eexists.
Qed.

Lemma is_free_total existing slot :
  readable existing → ∃ free, is_free existing slot = Ok free.
Proof.
  intros [Hnull|(apts & -> & Hall)]; unfold is_free; [rewrite Hnull; by eexists|].
  cbn [nullish as_array]. rewrite bind_Ok.
  assert (∃ occupied, some_overlaps slot apts = Ok occupied) as [occupied ->].
  { induction Hall as [|apt rest Hapt _ IH]; cbn [some_overlaps]; [by eexists|].
    destruct (overlaps_total slot apt Hapt) as [hit ->]. rewrite bind_Ok.
    destruct hit; [by eexists | done]. }
  rewrite bind_Ok. by eexists.
Qed.

(** The loop of one window: it never throws on readable appointments, it
    only appends, it keeps the list free of repetitions, what it appends is
    the text of a free slot of the window, and it misses none. *)
Lemma slot_loop_spec existing bound fuel : ∀ slot allSlots,
  readable existing →
  (iterations slot bound ≤ fuel)%nat →
  ∃ out,
    slot_loop fuel slot bound existing allSlots = Ok out ∧
    (∀ time, time ∈ allSlots → time ∈ out) ∧
    (NoDup allSlots → NoDup out) ∧
    (∀ time, time ∈ out →
       time ∈ allSlots ∨
       ∃ k, 0 ≤ k ∧ slot + 30 * k ≤ bound ∧
            time = minutesToTime (Int (slot + 30 * k)) ∧
            is_free existing (slot + 30 * k) = Ok true) ∧
    (∀ k, 0 ≤ k → slot + 30 * k ≤ bound →
          is_free existing (slot + 30 * k) = Ok true →
          minutesToTime (Int (slot + 30 * k)) ∈ out).
Proof.
  induction fuel as [|fuel IH]; intros slot allSlots Hapts Hfuel.
  - assert (bound < slot) as Hgt.
    { unfold iterations in Hfuel. destruct (Z.leb_spec slot bound); [lia | done]. }
    exists allSlots. cbn [slot_loop]. repeat split; auto. intros; lia.
  - cbn [slot_loop]. destruct (Z.leb_spec slot bound) as [Hle|Hgt]; cycle 1.
    { exists allSlots. repeat split; auto. intros; lia. }
    destruct (is_free_total existing slot Hapts) as [free Hfree]. rewrite Hfree, bind_Ok.
    set (next := if free && negb (bool_decide (minutesToTime (Int slot) ∈ allSlots))
                 then allSlots ++ [minutesToTime (Int slot)] else allSlots).
    destruct (IH (slot + 30) next Hapts) as (out & Hout & Hkeep & Hnodup & Hsound & Hall).
    { rewrite (iterations_step _ _ Hle) in Hfuel. lia. }
    assert (∀ time, time ∈ allSlots → time ∈ next) as Hnext.
    { intros time Hin. subst next. destruct (_ && _); [|done].
      apply elem_of_app. by left. }
    exists out. split; [done|]. split; [auto|]. split; [|split].
    + intros Hnd. apply Hnodup. subst next.
      destruct free; cbn [andb]; [|done]. case_bool_decide as Hin; cbn [negb]; [done|].
      apply NoDup_app. split; [done|]. split; [|apply NoDup_singleton].
      intros x Hx Hx'. apply list_elem_of_singleton in Hx' as ->. done.
    + intros time [Hin|(k & Hk & Hbd & -> & Hf)]%Hsound.
      * subst next. destruct free; cbn [andb] in Hin; [|by left].
        destruct (negb _); [|by left].
        apply elem_of_app in Hin as [Hin|Hin]; [by left|].
        apply list_elem_of_singleton in Hin as ->.
        right. exists 0. replace (slot + 30 * 0) with slot by lia. repeat split; [lia..|done].
      * right. exists (k + 1). replace (slot + 30 * (k + 1)) with (slot + 30 + 30 * k) by lia.
        repeat split; [lia..|done].
    + intros k Hk Hbd Hf. destruct (decide (k = 0)) as [->|Hpos].
      * replace (slot + 30 * 0) with slot in * by lia. apply Hkeep. subst next.
        rewrite Hfree in Hf. injection Hf as ->. cbn [andb].
        case_bool_decide as Hin; cbn [negb]; [done|].
        apply elem_of_app. right. apply list_elem_of_here.
      * replace (slot + 30 * k) with (slot + 30 + 30 * (k - 1)) in * by lia.
        apply Hall; [lia | lia | done].
Qed.

Lemma offered_one window d existing time :
  offered [window] d existing time ↔
  ∃ s e k,
    (get_prop window "start_time" ≫= timeToMinutes) = Ok (Int s) ∧
    (get_prop window "end_time" ≫= timeToMinutes) = Ok (Int e) ∧
    0 ≤ k ∧ s + 30 * k ≤ e - d ∧
    time = minutesToTime (Int (s + 30 * k)) ∧
    is_free existing (s + 30 * k) = Ok true.
Proof.
  split.
  - intros (w & s & e & k & Hin & H). apply list_elem_of_singleton in Hin as ->.
    by exists s, e, k.
  - intros (s & e & k & H). exists window, s, e, k. split; [apply list_elem_of_here | done].
Qed.

Lemma offered_cons window rest d existing time :
  offered (window :: rest) d existing time ↔
  offered [window] d existing time ∨ offered rest d existing time.
Proof.
  split.
  - intros (w & s & e & k & Hin & H). apply elem_of_cons in Hin as [Heq|Hin].
    + left. exists w, s, e, k. split; [rewrite Heq; apply list_elem_of_here | done].
    + right. by exists w, s, e, k.
  - intros [(w & s & e & k & Hin & H)|(w & s & e & k & Hin & H)]; exists w, s, e, k.
    + apply list_elem_of_singleton in Hin as ->. split; [apply list_elem_of_here | done].
    + split; [by apply list_elem_of_further | done].
Qed.

Lemma window_slots_spec d existing allSlots window :
  timed window → readable existing →
  ∃ out,
    window_slots (Int d) existing allSlots window = Ok out ∧
    (∀ time, time ∈ allSlots → time ∈ out) ∧
    (NoDup allSlots → NoDup out) ∧
    (∀ time, time ∈ out → time ∈ allSlots ∨ offered [window] d existing time) ∧
    (∀ time, offered [window] d existing time → time ∈ out).
Proof.
  intros (st & s & et & e & Hst & Hs & Het & He)%timed_inv Hapts. unfold window_slots.
  rewrite Hst, bind_Ok, Hs, bind_Ok, Het, bind_Ok, He, bind_Ok.
  assert (∀ time, offered [window] d existing time ↔
            ∃ s' e' k, s = Int s' ∧ e = Int e' ∧ 0 ≤ k ∧ s' + 30 * k ≤ e' - d ∧
              time = minutesToTime (Int (s' + 30 * k)) ∧
              is_free existing (s' + 30 * k) = Ok true) as Hoffered.
  { intros time. rewrite offered_one, Hst, Het, !bind_Ok, Hs, He. split.
    - intros (s' & e' & k & [= ->] & [= ->] & H). by exists s', e', k.
    - intros (s' & e' & k & -> & -> & H). by exists s', e', k. }
  destruct s as [|slot];
    [exists allSlots; repeat split; auto;
     intros time (? & ? & ? & ? & _)%Hoffered; done|].
  destruct e as [|e']; cbn [num_sub];
    [exists allSlots; repeat split; auto;
     intros time (? & ? & ? & _ & ? & _)%Hoffered; done|].
  destruct (slot_loop_spec existing (e' - d) (iterations slot (e' - d)) slot allSlots Hapts)
    as (out & Hout & Hkeep & Hnodup & Hsound & Hall); [done|].
  exists out. split; [done|]. split; [done|]. split; [done|]. split.
  - intros time [Hin|(k & Hk & Hbd & -> & Hf)]%Hsound; [by left|right].
    apply Hoffered. by exists slot, e', k.
  - intros time (s' & e'' & k & [= <-] & [= <-] & Hk & Hbd & -> & Hf)%Hoffered.
    by apply Hall.
Qed.

Lemma windows_spec d existing windows : ∀ allSlots,
  Forall timed windows → readable existing →
  ∃ out,
    foldM (window_slots (Int d) existing) allSlots windows = Ok out ∧
    (∀ time, time ∈ allSlots → time ∈ out) ∧
    (NoDup allSlots → NoDup out) ∧
    (∀ time, time ∈ out → time ∈ allSlots ∨ offered windows d existing time) ∧
    (∀ time, offered windows d existing time → time ∈ out).
Proof.
  induction windows as [|window rest IH]; intros allSlots Hwindows Hapts; cbn [foldM].
  - exists allSlots. repeat split; auto.
    intros time (w & ? & ? & ? & Hin & _). by apply elem_of_nil in Hin.
  - apply Forall_cons in Hwindows as [Hwindow Hrest].
    destruct (window_slots_spec d existing allSlots window Hwindow Hapts)
      as (mid & -> & Hkeep1 & Hnodup1 & Hsound1 & Hall1).
    rewrite bind_Ok.
    destruct (IH mid Hrest Hapts) as (out & Hout & Hkeep2 & Hnodup2 & Hsound2 & Hall2).
    exists out. split; [done|]. split; [auto|]. split; [auto|]. split.
    + intros time [[Hin|Hoff]%Hsound1|Hoff]%Hsound2; [by left| |];
        right; apply offered_cons; auto.
    + intros time [Hoff|Hoff]%offered_cons; auto.
Qed.

Lemma none_found_array rows : none_found (JArr rows) = bool_decide (rows = []).
Proof. by destruct rows. Qed.

(** X11. With the providers, the availability windows and the appointments
    of the day read from the store, the times [getAvailableSlots] returns
    for a service of [d] minutes are exactly the times the windows allow. *)
Theorem getAvailableSlots_exact
    (S : Store) (R : Runtime) (scheduleId date serviceId : jsval) (d : Z)
    (isByArrivalTime : jsval) rp rows ids ra windows re apts :
  active_providers S scheduleId = Ok rp → data rp = JArr rows → rows ≠ [] →
  mapM (fun p => get_prop p "id") rows = Ok ids →
  availability_on S ids (getDay R date) = Ok ra → data ra = JArr windows →
  appointments_on S scheduleId date = Ok re → data re = JArr apts →
  Forall timed windows → Forall timed apts →
  ∃ slots,
    getAvailableSlots S R scheduleId date serviceId (Int d) isByArrivalTime = Ok slots ∧
    ∀ time, time ∈ slots ↔ offered windows d (JArr apts) time.
Proof.
  intros Hrp Hrows Hsome Hids Hra Hwindows Hre Hapts Htimed Htimed'.
  unfold getAvailableSlots, getAvailableSlots_try.
  rewrite Hrp, bind_Ok. cbn zeta. rewrite Hrows, none_found_array.
  rewrite bool_decide_eq_false_2 by done. cbn [as_array]. rewrite bind_Ok, Hids, bind_Ok.
  rewrite Hra, bind_Ok, Hwindows, none_found_array.
  case_bool_decide as Hempty.
  - subst windows. exists []. split; [done|]. intros time. split.
    + by intros ?%elem_of_nil.
    + intros (w & ? & ? & ? & Hin & _). by apply elem_of_nil in Hin.
  - rewrite Hre, bind_Ok, Hapts. cbn [as_array]. rewrite bind_Ok.
    destruct (windows_spec d (JArr apts) windows [] Htimed)
      as (out & -> & _ & _ & Hsound & Hall); [right; by exists apts|].
    rewrite bind_Ok. exists (sort_strings out). split; [done|].
    intros time. rewrite sort_strings_elem. split; [|by apply Hall].
    intros [Hin|Hoff]%Hsound; [by apply elem_of_nil in Hin | done].
Qed.

Lemma getAvailableSlots_exact_witness :
  ∃ slots,
    getAvailableSlots Salon.store Salon.runtime (JStr "sch-1") (JStr "2024-01-08")
      (JStr "svc-1") (Int 30) (JBool false) = Ok slots ∧
    "09:00" ∈ slots.
Proof.
  destruct (getAvailableSlots_exact Salon.store Salon.runtime (JStr "sch-1")
              (JStr "2024-01-08") (JStr "svc-1") 30 (JBool false)
              {| data := JArr [Salon.ana]; error := None |} [Salon.ana] [JStr "prov-1"]
              {| data := JArr [Salon.monday_morning]; error := None |}
              [Salon.monday_morning]
              {| data := JArr [Salon.taken]; error := None |} [Salon.taken])
    as (slots & Hslots & Hexact);
    [reflexivity | reflexivity | done | reflexivity | reflexivity | reflexivity
    | reflexivity | reflexivity | | |].
  - apply Forall_singleton. eexists _, _. split; reflexivity.
  - apply Forall_singleton. eexists _, _. split; reflexivity.
  - exists slots. split; [done|]. apply Hexact.
    exists Salon.monday_morning, 540, 600, 0.
    split; [apply list_elem_of_here|]. split; [reflexivity|]. split; [reflexivity|].
    split; [lia|]. split; [lia|]. split; reflexivity.
Defined.

(** X12. When the lookup of the appointments of the day answers without
    data, as it does on an error that is not thrown, the calculator goes on
    with no appointment at all: it offers every slot the windows allow, the
    ones that are taken included. *)
Theorem getAvailableSlots_without_appointments
    (S : Store) (R : Runtime) (scheduleId date serviceId : jsval) (d : Z)
    (isByArrivalTime : jsval) rp rows ids ra windows re :
  active_providers S scheduleId = Ok rp → data rp = JArr rows → rows ≠ [] →
  mapM (fun p => get_prop p "id") rows = Ok ids →
  availability_on S ids (getDay R date) = Ok ra → data ra = JArr windows →
  appointments_on S scheduleId date = Ok re → nullish (data re) = true →
  Forall timed windows →
  ∃ slots,
    getAvailableSlots S R scheduleId date serviceId (Int d) isByArrivalTime = Ok slots ∧
    ∀ window s e k,
      window ∈ windows →
      (get_prop window "start_time" ≫= timeToMinutes) = Ok (Int s) →
      (get_prop window "end_time" ≫= timeToMinutes) = Ok (Int e) →
      0 ≤ k → s + 30 * k ≤ e - d →
      minutesToTime (Int (s + 30 * k)) ∈ slots.
Proof.
  intros Hrp Hrows Hsome Hids Hra Hwindows Hre Hnull Htimed.
  unfold getAvailableSlots, getAvailableSlots_try.
  rewrite Hrp, bind_Ok. cbn zeta. rewrite Hrows, none_found_array.
  rewrite bool_decide_eq_false_2 by done. cbn [as_array]. rewrite bind_Ok, Hids, bind_Ok.
  rewrite Hra, bind_Ok, Hwindows, none_found_array.
  case_bool_decide as Hempty.
  - subst windows. exists []. split; [done|]. intros window s e k Hin.
    by apply elem_of_nil in Hin.
  - rewrite Hre, bind_Ok. cbn [as_array]. rewrite bind_Ok.
    destruct (windows_spec d (data re) windows [] Htimed)
      as (out & -> & _ & _ & _ & Hall); [by left|].
    rewrite bind_Ok. exists (sort_strings out). split; [done|].
    intros window s e k Hin Hs He Hk Hbound. rewrite sort_strings_elem. apply Hall.
    exists window, s, e, k. repeat split; try done. unfold is_free. by rewrite Hnull.
Qed.

Lemma getAvailableSlots_without_appointments_witness :
  ∃ slots,
    getAvailableSlots (without_appointments Salon.booked "timeout") Salon.runtime
      (JStr "sch-1") (JStr "2024-01-08") (JStr "svc-1") (Int 30) (JBool false) = Ok slots ∧
    minutesToTime (Int (540 + 30 * 1)) ∈ slots.
Proof.
  destruct (getAvailableSlots_without_appointments
              (without_appointments Salon.booked "timeout") Salon.runtime (JStr "sch-1")
              (JStr "2024-01-08") (JStr "svc-1") 30 (JBool false)
              {| data := JArr [Salon.ana]; error := None |} [Salon.ana] [JStr "prov-1"]
              {| data := JArr [Salon.monday_morning]; error := None |}
              [Salon.monday_morning]
              {| data := JNull; error := Some "timeout" |})
    as (slots & Hslots & Hall);
    [reflexivity | reflexivity | done | reflexivity | reflexivity | reflexivity
    | reflexivity | reflexivity | |].
  - apply Forall_singleton. eexists _, _. split; reflexivity.
  - exists slots. split; [done|].
    apply (Hall Salon.monday_morning 540 600 1);
      [apply list_elem_of_here | reflexivity | reflexivity | lia | lia].
Defined.

(** ** The order of the slots offered *)

Lemma slot_loop_NoDup existing fuel : ∀ slot bound allSlots out,
  slot_loop fuel slot bound existing allSlots = Ok out → NoDup allSlots → NoDup out.
Proof.
  induction fuel as [|fuel IH]; intros slot bound allSlots out; cbn [slot_loop].
  - by intros [= <-].
  - destruct (slot <=? bound); [|by intros [= <-]].
    intros (free & _ & Hloop)%exc_bind_Ok Hnd. apply (IH _ _ _ _ Hloop).
    destruct free; cbn [andb]; [|done]. case_bool_decide as Hin; cbn [negb]; [done|].
    apply NoDup_app. split; [done|]. split; [|apply NoDup_singleton].
    intros x Hx Hx'. apply list_elem_of_singleton in Hx' as ->. done.
Qed.

Lemma windows_NoDup duration existing windows : ∀ allSlots out,
  foldM (window_slots duration existing) allSlots windows = Ok out →
  NoDup allSlots → NoDup out.
Proof.
  induction windows as [|window rest IH]; intros allSlots out; cbn [foldM].
  - by intros [= <-].
  - intros (mid & Hwindow & Hrest)%exc_bind_Ok Hnd. apply (IH _ _ Hrest).
    unfold window_slots in Hwindow.
    apply exc_bind_Ok in Hwindow as (start_time & _ & H).
    apply exc_bind_Ok in H as (startMinutes & _ & H).
    apply exc_bind_Ok in H as (end_time & _ & H).
    apply exc_bind_Ok in H as (endMinutes & _ & H).
    destruct startMinutes as [|slot]; [by injection H as <-|].
    destruct (num_sub endMinutes duration) as [|bound]; [by injection H as <-|].
    by eapply slot_loop_NoDup.
Qed.

Lemma minutesToTime_inj a b :
  0 ≤ a → 0 ≤ b → minutesToTime (Int a) = minutesToTime (Int b) → a = b.
Proof.
  intros Ha Hb Heq.
  pose proof (timeToMinutes_minutesToTime a Ha) as Hra.
  pose proof (timeToMinutes_minutesToTime b Hb) as Hrb.
  rewrite Heq in Hra. congruence.
Qed.

Lemma minutesToTime_step a :
  0 ≤ a < 1439 →
  String.le (minutesToTime (Int a)) (minutesToTime (Int (a + 1))).
Proof.
  intros Ha.
  assert (forallb (fun a => String.leb (minutesToTime (Int a)) (minutesToTime (Int (a + 1))))
            (seqZ 0 1439) = true) as Hall by (by vm_compute).
  unfold String.le. apply Is_true_true.
  apply (proj1 (forallb_forall _ _) Hall). apply list_elem_of_In, elem_of_seqZ. lia.
Qed.

Lemma minutesToTime_le a b :
  0 ≤ a → a ≤ b → b < 1440 →
  String.le (minutesToTime (Int a)) (minutesToTime (Int b)).
Proof.
  intros Ha Hab Hb.
  replace b with (a + Z.of_nat (Z.to_nat (b - a))) in * by lia.
  induction (Z.to_nat (b - a)) as [|n IH]; [by rewrite Z.add_0_r|].
  etrans; [apply IH; lia|].
  replace (a + Z.of_nat (S n)) with (a + Z.of_nat n + 1) by lia.
  apply minutesToTime_step. lia.
Qed.

Lemma StronglySorted_lookup {A} (R : relation A) l i j x y :
  StronglySorted R l → (i < j)%nat → l !! i = Some x → l !! j = Some y → R x y.
Proof.
  intros Hsorted. revert i j. induction Hsorted as [|z l Hl IH Hz]; intros i j Hij Hi Hj.
  - done.
  - destruct j as [|j]; [lia|]. cbn in Hj. destruct i as [|i].
    + injection Hi as <-. apply (proj1 (Forall_forall _ _) Hz).
      by eapply list_elem_of_lookup_2.
    + apply (IH i j); [lia | done | done].
Qed.

(** X13. The list [getAvailableSlots] returns holds no time twice and is in
    ascending order of text; for times of day this is the order of the
    clock: of two slots of the same day, the earlier comes first. *)
Theorem getAvailableSlots_chronological
    (S : Store) (R : Runtime) (scheduleId date serviceId : jsval) (duration : num)
    (isByArrivalTime : jsval) :
  ∃ slots,
    getAvailableSlots S R scheduleId date serviceId duration isByArrivalTime = Ok slots ∧
    NoDup slots ∧
    StronglySorted String.le slots ∧
    ∀ i j a b,
      (i < j)%nat →
      slots !! i = Some (minutesToTime (Int a)) →
      slots !! j = Some (minutesToTime (Int b)) →
      0 ≤ a < 1440 → 0 ≤ b < 1440 → a < b.
Proof.
  assert (∃ slots,
            getAvailableSlots S R scheduleId date serviceId duration isByArrivalTime
              = Ok slots ∧ NoDup slots ∧ StronglySorted String.le slots)
    as (slots & Hslots & Hnd & Hsorted).
  { unfold getAvailableSlots.
    destruct (getAvailableSlots_try _ _ _ _ _ _ _) as [slots|e] eqn:Htry; cbn [try_catch];
      [|exists []; split; [done|]; split; constructor].
    exists slots. split; [done|]. unfold getAvailableSlots_try in Htry.
    apply exc_bind_Ok in Htry as (rp & _ & H).
    destruct (none_found (data rp)); [injection H as <-; split; constructor|].
    apply exc_bind_Ok in H as (rows & _ & H).
    apply exc_bind_Ok in H as (ids & _ & H).
    apply exc_bind_Ok in H as (ra & _ & H).
    destruct (none_found (data ra)); [injection H as <-; split; constructor|].
    apply exc_bind_Ok in H as (re & _ & H).
    apply exc_bind_Ok in H as (windows & _ & H).
    apply exc_bind_Ok in H as (allSlots & Hfold & [= <-]).
    split.
    - unfold sort_strings. rewrite merge_sort_Permutation.
      apply (windows_NoDup _ _ _ _ _ Hfold). constructor.
    - apply StronglySorted_merge_sort; apply _. }
  exists slots. split; [done|]. split; [done|]. split; [done|].
  intros i j a b Hij Hi Hj Ha Hb.
  pose proof (StronglySorted_lookup _ _ _ _ _ _ Hsorted Hij Hi Hj) as Hle.
  destruct (Z.lt_trichotomy a b) as [Hlt|[->|Hgt]]; [done| |].
  - pose proof (NoDup_lookup _ _ _ _ Hnd Hi Hj). lia.
  - exfalso.
    assert (minutesToTime (Int a) = minutesToTime (Int b)) as Heq.
    { apply (anti_symm String.le); [done|]. apply minutesToTime_le; lia. }
    apply minutesToTime_inj in Heq; lia.
Qed.

Lemma getAvailableSlots_chronological_witness :
  ∃ slots,
    getAvailableSlots (without_appointments Salon.booked "timeout") Salon.runtime
      (JStr "sch-1") (JStr "2024-01-08") (JStr "svc-1") (Int 30) (JBool false) = Ok slots ∧
    slots !! 0%nat = Some (minutesToTime (Int 540)) ∧
    slots !! 1%nat = Some (minutesToTime (Int 570)) ∧
    540 < 570.
Proof.
  destruct (getAvailableSlots_chronological (without_appointments Salon.booked "timeout")
              Salon.runtime (JStr "sch-1") (JStr "2024-01-08") (JStr "svc-1") (Int 30)
              (JBool false)) as (slots & Hslots & _ & _ & Horder).
  exists slots. split; [done|].
  assert (slots = ["09:00"; "09:30"]) as -> by (vm_compute in Hslots; congruence).
  split; [reflexivity|]. split; [reflexivity|].
  apply (Horder 0%nat 1%nat); [lia | reflexivity | reflexivity | lia | lia].
Defined.

(** X14. The text [minutesToTime] gives for a number of minutes from 0 to
    [Number.MAX_SAFE_INTEGER] reads back through [timeToMinutes] as that
    number; so distinct slots in that range have distinct texts; and within
    a day the texts are ordered as the times are. *)
Theorem minutesToTime_round_trip :
  (∀ m, 0 ≤ m ≤ MAX_SAFE_INTEGER →
        timeToMinutes (JStr (minutesToTime (Int m))) = Ok (Int m)) ∧
  (∀ a b, 0 ≤ a ≤ MAX_SAFE_INTEGER → 0 ≤ b ≤ MAX_SAFE_INTEGER →
          minutesToTime (Int a) = minutesToTime (Int b) → a = b) ∧
  (∀ a b, 0 ≤ a → a ≤ b → b < 1440 →
          String.le (minutesToTime (Int a)) (minutesToTime (Int b))).
Proof.
  split; [|split].
  - intros m [Hm _]. by apply timeToMinutes_minutesToTime.
  - intros a b [Ha _] [Hb _]. by apply minutesToTime_inj.
  - apply minutesToTime_le.
Qed.

Lemma minutesToTime_round_trip_witness :
  timeToMinutes (JStr (minutesToTime (Int 545))) = Ok (Int 545) ∧
  String.le (minutesToTime (Int 545)) (minutesToTime (Int 600)).
Proof.
  destruct minutesToTime_round_trip as (Hback & _ & Horder).
  split; [apply Hback; unfold MAX_SAFE_INTEGER; lia | apply Horder; lia].
Defined.

(** ** A service duration that cannot be read *)

Lemma duration_minutes_without_colon duration :
  nullish duration = false → includes_char ":"%char (to_string duration) = false →
  duration_minutes duration = Ok NaN.
Proof.
  intros Hnull Hcolon. unfold duration_minutes, js_toString. rewrite Hnull, bind_Ok.
  unfold split. rewrite split_chars_no_sep; cycle 1.
  { apply Forall_forall. intros c Hin. apply bool_decide_eq_false. intros ->.
    unfold includes_char in Hcolon. by apply bool_decide_eq_false in Hcolon. }
  cbn [lookup list_lookup parseInt]. by destruct (num_mul _ _).
Qed.

Lemma windows_NaN existing windows : ∀ allSlots out,
  foldM (window_slots NaN existing) allSlots windows = Ok out → out = allSlots.
Proof.
  induction windows as [|window rest IH]; intros allSlots out; cbn [foldM].
  - by intros [= <-].
  - intros (mid & Hwindow & Hrest)%exc_bind_Ok. apply IH in Hrest as ->.
    unfold window_slots in Hwindow.
    apply exc_bind_Ok in Hwindow as (start_time & _ & H).
    apply exc_bind_Ok in H as (startMinutes & _ & H).
    apply exc_bind_Ok in H as (end_time & _ & H).
    apply exc_bind_Ok in H as (endMinutes & _ & H).
    destruct startMinutes, endMinutes; by injection H as <-.
Qed.

Lemma getAvailableSlots_NaN S R scheduleId date serviceId arrival :
  getAvailableSlots S R scheduleId date serviceId NaN arrival = Ok [].
Proof.
  unfold getAvailableSlots.
  destruct (getAvailableSlots_try _ _ _ _ _ _ _) as [slots|e] eqn:Htry; [|done].
  cbn [try_catch]. f_equal. unfold getAvailableSlots_try in Htry.
  apply exc_bind_Ok in Htry as (rp & _ & H).
  destruct (none_found (data rp)); [by injection H as <-|].
  apply exc_bind_Ok in H as (rows & _ & H).
  apply exc_bind_Ok in H as (ids & _ & H).
  apply exc_bind_Ok in H as (ra & _ & H).
  destruct (none_found (data ra)); [by injection H as <-|].
  apply exc_bind_Ok in H as (re & _ & H).
  apply exc_bind_Ok in H as (windows & _ & H).
  apply exc_bind_Ok in H as (allSlots & Hfold & [= <-]).
  by apply windows_NaN in Hfold as ->.
Qed.

(** X15. A service duration whose text holds no colon (a number of minutes,
    for one) is read as not-a-number, with nothing thrown, so the default of
    thirty minutes is not used; no slot fits such a duration, and
    [checkAvailability] reports the day as having no free time, whatever
    the windows and the appointments are. *)
Theorem checkAvailability_duration_without_colon
    (S : Store) (R : Runtime) (scheduleId date time serviceId timezone : jsval)
    (r rs : response) (duration : jsval) :
  schedule_row S scheduleId = Ok r → error r = None → truthy (data r) = true →
  truthy serviceId = true →
  service_duration S serviceId = Ok rs → truthy (data rs) = true →
  get_prop (data rs) "duration" = Ok duration →
  nullish duration = false → includes_char ":"%char (to_string duration) = false →
  ∃ result,
    checkAvailability S R scheduleId date time serviceId timezone = Ok result ∧
    result !! "success" = Some (JBool true) ∧
    result !! "available" = Some (JBool false) ∧
    result !! "available_times" = Some (JArr []).
Proof.
  intros Hr He Hd Hid Hrs Hservice Hduration Hnull Hcolon.
  assert (∃ arrival, service_settings S serviceId = Ok (NaN, arrival)) as [arrival Hsettings].
  { unfold service_settings. rewrite Hid, Hrs, bind_Ok. cbn zeta. rewrite Hservice.
    destruct (get_prop (data rs) "by_arrival_time") as [by_arrival|e] eqn:Harrival.
    - rewrite bind_Ok, Hduration, bind_Ok.
      rewrite (duration_minutes_without_colon _ Hnull Hcolon). by eexists.
    - destruct (data rs); done. }
  destruct (checkAvailability_reaches_slots S R scheduleId date time serviceId timezone
              r NaN arrival []) as (result & Hres & Hs & Ha & Ht);
    [done | done | done | done | apply getAvailableSlots_NaN |].
  exists result. split; [done|]. split; [done|]. split; [|done].
  rewrite Ha. by destruct (truthy time), time.
Qed.

Lemma checkAvailability_duration_without_colon_witness :
  ∃ result,
    checkAvailability by_the_minute Salon.runtime (JStr "sch-1") (JStr "2024-01-08")
      JUndefined (JStr "svc-1") (JStr "America/Sao_Paulo") = Ok result ∧
    result !! "available" = Some (JBool false).
Proof.
  destruct (checkAvailability_duration_without_colon by_the_minute Salon.runtime
              (JStr "sch-1") (JStr "2024-01-08") JUndefined (JStr "svc-1")
              (JStr "America/Sao_Paulo")
              {| data := Salon.schedule; error := None |}
              {| data := JObj (object [
                   ("id", JStr "svc-1"); ("title", JStr "Corte");
                   ("duration", JNum (Int 30));
                   ("by_arrival_time", JBool false); ("capacity", JNum (Int 1));
                   ("schedule_id", JStr "sch-1"); ("status", JStr "active")]);
                 error := None |}
              (JNum (Int 30)))
    as (result & Hresult & _ & Havailable & _); try reflexivity.
  by exists result.
Defined.

(** ** What only reads *)

Lemma reads_only_bind {A B} (m : Eff A) (k : A → Eff B) :
  reads_only m → (∀ a, reads_only (k a)) → reads_only (m ≫= k).
Proof.
  intros Hm Hk w. rewrite Eff_bind_run. specialize (Hm w).
  destruct (m w) as [[a|v|e] w']; cbn [snd] in *; subst; [apply Hk | done..].
Qed.

Lemma reads_only_lift {A} (m : exc A) : reads_only (lift m).
Proof. intros w. by destruct m. Qed.

Lemma reads_only_mret {A} (a : A) : reads_only (mret a : Eff A).
Proof. by intros w. Qed.

Lemma reads_only_return {A} v : reads_only (return_ v : Eff A).
Proof. by intros w. Qed.

Lemma reads_only_try_catch {A} (body : Eff A) handler :
  reads_only body → (∀ e, reads_only (handler e)) →
  reads_only (Eff_try_catch body handler).
Proof.
  intros Hbody Hhandler w. unfold Eff_try_catch. specialize (Hbody w).
  destruct (body w) as [[a|v|e] w']; cbn [snd] in *; subst; [done..|apply Hhandler].
Qed.

Lemma reads_only_call body : reads_only body → reads_only (call body).
Proof.
  intros Hbody w. unfold call. specialize (Hbody w).
  by destruct (body w) as [[a|v|e] w'].
Qed.

Ltac reads_only_step :=
  lazymatch goal with
  | |- reads_only (let _ := _ in _) => cbv zeta
  | |- reads_only (_ ≫= _) => apply reads_only_bind; [|intros ?]
  | |- reads_only (lift _) => apply reads_only_lift
  | |- reads_only (mret _) => apply reads_only_mret
  | |- reads_only (return_ _) => apply reads_only_return
  | |- reads_only (if ?c then _ else _) => destruct c eqn:?
  | |- reads_only (match ?x with _ => _ end) => destruct x eqn:?
  end.

(** X16. [processCheckScheduleAction] changes nothing unless the operation
    asked for is [createAppointment] or [deleteAppointment]: checking the
    availability, listing the appointments, and a request without an
    operation or with an operation it does not know, leave the cache, the
    argument object and the store as they were. *)
Theorem processCheckScheduleAction_reads_only
    (S : Store) (R : Runtime) (action : jsval) (a : obj) (session : Session) (w : World) :
  is_string (or_undefined (a !! "operation")) "createAppointment" = false →
  is_string (or_undefined (a !! "operation")) "deleteAppointment" = false →
  (processCheckScheduleAction S R action a session w).2 = w.
Proof.
  intros Hcreate Hdelete. revert w. change (reads_only (processCheckScheduleAction S R action a session)).
  apply reads_only_call, reads_only_try_catch; [|intros; apply reads_only_return].
  unfold processCheckScheduleAction_try. rewrite Hcreate, Hdelete.
  repeat reads_only_step.
Qed.

Lemma processCheckScheduleAction_reads_only_witness :
  (processCheckScheduleAction Salon.store Salon.runtime
     (JObj (object [("config", JObj (object [("scheduleId", JStr "sch-1")]))]))
     (object [("operation", JStr "checkAppointment")]) Salon.session (Salon.world ∅)).2
  = Salon.world ∅.
Proof. by apply processCheckScheduleAction_reads_only. Defined.

(** ** Requests that are refused *)

Lemma get_prop_truthy_total v k : truthy v = true → ∃ x, get_prop v k = Ok x.
Proof. destruct v; try done; cbn; repeat case_bool_decide; eauto. Qed.

Lemma get_prop_opt_total v k : ∃ x, get_prop_opt v k = Ok x.
Proof.
  unfold get_prop_opt. destruct v; cbn; repeat case_bool_decide; eauto.
Qed.

(** The first part of the body, up to the operation: the schedule and the
    service are looked up and nothing else happens. *)
Lemma processCheckScheduleAction_try_start S R action a session w scheduleId r :
  truthy (or_undefined (a !! "operation")) = true →
  scheduleId_of action = Ok scheduleId → truthy scheduleId = true →
  schedule_timezone S scheduleId = Ok r →
  (truthy (or_undefined (a !! "service_id")) = true →
   ∃ rs, service_info S (or_undefined (a !! "service_id")) = Ok rs) →
  ∃ timezone scheduleName serviceName,
    processCheckScheduleAction_try S R action a session w =
    (let operation := or_undefined (a !! "operation") in
     let date := or_undefined (a !! "date") in
     let time := or_undefined (a !! "time") in
     let appointmentId := or_undefined (a !! "appointment_id") in
     let serviceId := or_undefined (a !! "service_id") in
     let providerId := or_undefined (a !! "provider_id") in
     let notes := or_undefined (a !! "notes") in
     result ←
       (if is_string operation "checkAvailability" then
          lift (checkAvailability S R scheduleId date time serviceId timezone)
        else if is_string operation "createAppointment" then
          if negb (truthy date) || negb (truthy serviceId) then
            let missingParams :=
              (if negb (truthy date) then ["date"] else []) ++
              (if negb (truthy serviceId) then ["service_id"] else []) in
            return_ (error_result ("Missing required parameters: "
                                   +:+ join ", " missingParams))
          else
            createAppointment S R scheduleId (customer_id session) date time
              serviceId notes providerId timezone session
        else if is_string operation "checkAppointment" then
          lift (checkAppointment S R (customer_id session) appointmentId scheduleId)
        else if is_string operation "deleteAppointment" then
          if negb (truthy appointmentId) && negb (truthy date) then
            return_ (error_result
              "Either appointment_id or date is required to cancel appointments.")
          else
            deleteAppointment S R appointmentId (customer_id session) date scheduleId
        else
          return_ (error_result ("Unsupported operation: " +:+ to_string operation)));
     mret (enrichedResult result operation date time serviceName scheduleName timezone)) w.
Proof.
  intros Hop (config & Hconfig & Hid)%exc_bind_Ok Hsid Hr Hservice.
  unfold processCheckScheduleAction_try.
  run (lift_run _ _ w Hconfig). cbn zeta. rewrite Hop. cbn [negb].
  run (lift_run _ _ w Hid). rewrite Hsid. cbn [negb].
  run (lift_run _ _ w Hr).
  destruct (get_prop_opt_total (data r) "timezone") as [tz Htz].
  destruct (get_prop_opt_total (data r) "title") as [title Htitle].
  run (lift_run _ _ w Htz). run (lift_run _ _ w Htitle).
  destruct (truthy (or_undefined (a !! "service_id"))) eqn:Hsvc.
  - destruct Hservice as [rs Hrs]; [done|].
    destruct (truthy (data rs)) eqn:Hdata.
    + destruct (get_prop_truthy_total (data rs) "title" Hdata) as [name Hname].
      erewrite bind_run; cycle 1.
      { run (lift_run _ _ w Hrs). cbn zeta. rewrite Hdata. apply (lift_run _ _ w Hname). }
      by eexists _, _, _.
    + erewrite bind_run; cycle 1.
      { run (lift_run _ _ w Hrs). cbn zeta. rewrite Hdata. apply mret_run. }
      by eexists _, _, _.
  - run (mret_run (JStr "Serviço não especificado") w). by eexists _, _, _.
Qed.

(** X17. The requests [processCheckScheduleAction] refuses before doing
    anything: without an operation; without a configured schedule; a booking
    without a date or a service (the answer names exactly what is missing);
    a cancellation with neither an appointment nor a date; an operation it
    does not know. Each is answered with the error envelope given here and
    leaves the state as it was. *)
Theorem processCheckScheduleAction_refuses
    (S : Store) (R : Runtime) (action : jsval) (a : obj) (session : Session) (w : World) :
  let operation := or_undefined (a !! "operation") in
  let date := or_undefined (a !! "date") in
  let appointmentId := or_undefined (a !! "appointment_id") in
  let serviceId := or_undefined (a !! "service_id") in
  let run := processCheckScheduleAction S R action a session w in
  (truthy operation = false →
   run = (Normal (error_result "Operation parameter is required for schedule actions."), w)) ∧
  (∀ scheduleId,
     truthy operation = true →
     scheduleId_of action = Ok scheduleId → truthy scheduleId = false →
     run = (Normal (error_result "No schedule configured for this action."), w)) ∧
  (∀ scheduleId r,
     truthy operation = true →
     scheduleId_of action = Ok scheduleId → truthy scheduleId = true →
     schedule_timezone S scheduleId = Ok r →
     (truthy serviceId = true → ∃ rs, service_info S serviceId = Ok rs) →
     (is_string operation "createAppointment" = true →
      truthy date = false ∨ truthy serviceId = false →
      run = (Normal (error_result
                       ("Missing required parameters: " +:+
                        join ", " ((if truthy date then [] else ["date"]) ++
                                   (if truthy serviceId then [] else ["service_id"])))),
             w)) ∧
     (is_string operation "deleteAppointment" = true →
      truthy appointmentId = false → truthy date = false →
      run = (Normal (error_result
                       "Either appointment_id or date is required to cancel appointments."),
             w)) ∧
     (known_operation operation = false →
      run = (Normal (error_result ("Unsupported operation: " +:+ to_string operation)),
             w))).
Proof.
  cbn zeta. unfold processCheckScheduleAction, call, Eff_try_catch. split; [|split].
  - intros Hop. unfold processCheckScheduleAction_try.
    destruct (get_prop_opt_total action "config") as [config Hconfig].
    run (lift_run _ _ w Hconfig). cbn zeta. by rewrite Hop.
  - intros scheduleId Hop (config & Hconfig & Hid)%exc_bind_Ok Hsid.
    unfold processCheckScheduleAction_try.
    run (lift_run _ _ w Hconfig). cbn zeta. rewrite Hop. cbn [negb].
    run (lift_run _ _ w Hid). by rewrite Hsid.
  - intros scheduleId r Hop Hconfig Hsid Hr Hservice.
    destruct (processCheckScheduleAction_try_start S R action a session w scheduleId r)
      as (timezone & scheduleName & serviceName & ->); [done..|].
    cbn zeta. split; [|split].
    + intros Hcreate Hmissing.
      assert (is_string (or_undefined (a !! "operation")) "checkAvailability" = false)
        as -> by (by destruct (or_undefined (a !! "operation")); try done;
                  cbn in *; repeat case_bool_decide; congruence).
      rewrite Hcreate.
      destruct (truthy (or_undefined (a !! "date"))) eqn:Hd,
               (truthy (or_undefined (a !! "service_id"))) eqn:Hs;
        cbn [negb orb]; try done. by destruct Hmissing.
    + intros Hdelete Hid Hdate.
      assert (is_string (or_undefined (a !! "operation")) "checkAvailability" = false ∧
              is_string (or_undefined (a !! "operation")) "createAppointment" = false ∧
              is_string (or_undefined (a !! "operation")) "checkAppointment" = false)
        as (-> & -> & ->)
        by (by destruct (or_undefined (a !! "operation")); try done;
            cbn in *; repeat case_bool_decide; repeat split; congruence).
      by rewrite Hdelete, Hid, Hdate.
    + unfold known_operation.
      intros [[[-> ->]%orb_false_elim ->]%orb_false_elim ->]%orb_false_elim. done.
Qed.

Lemma processCheckScheduleAction_refuses_witness :
  processCheckScheduleAction Salon.store Salon.runtime
    (JObj (object [("config", JObj (object [("scheduleId", JStr "sch-1")]))]))
    (object [("operation", JStr "createAppointment")]) Salon.session (Salon.world ∅)
  = (Normal (error_result "Missing required parameters: date, service_id"), Salon.world ∅).
Proof.
  destruct (processCheckScheduleAction_refuses Salon.store Salon.runtime
              (JObj (object [("config", JObj (object [("scheduleId", JStr "sch-1")]))]))
              (object [("operation", JStr "createAppointment")]) Salon.session
              (Salon.world ∅)) as (_ & _ & H).
  edestruct (H (JStr "sch-1")) as (Hcreate & _ & _);
    [reflexivity | reflexivity | reflexivity | reflexivity | done |].
  apply Hcreate; [reflexivity | by left].
Defined.

(** ** What a booking writes *)

(** X18. [createAppointment] always completes with a result that carries a
    boolean [success] and a [message]. It leaves the cache and the argument
    object alone and never updates a row; it sends at most one insert to the
    store, for a row with the status [scheduled] that carries the schedule,
    the customer, the service, the date, the start time and the chat it was
    asked for; and when it reports success that insert was sent. *)
Theorem createAppointment_writes
    (S : Store) (R : Runtime)
    (scheduleId customerId date time serviceId notes providerId timezone : jsval)
    (session : Session) (w : World) :
  let run := createAppointment S R scheduleId customerId date time serviceId notes
               providerId timezone session w in
  let inserted row :=
    writes run.2 = writes w ++ [Inserted row] ∧
    row !! "schedule_id" = Some scheduleId ∧ row !! "customer_id" = Some customerId ∧
    row !! "service_id" = Some serviceId ∧ row !! "date" = Some date ∧
    row !! "start_time" = Some time ∧ row !! "status" = Some (JStr "scheduled") ∧
    row !! "chat_id" = Some (chat_id session) in
  nameToIdCache run.2 = nameToIdCache w ∧ args run.2 = args w ∧
  (writes run.2 = writes w ∨ ∃ row, inserted row) ∧
  ∃ result,
    run.1 = Normal result ∧ is_Some (result !! "message") ∧
    (result !! "success" = Some (JBool false) ∨
     result !! "success" = Some (JBool true) ∧ ∃ row, inserted row).
Proof.
  cbn zeta.
  set (run := createAppointment _ _ _ _ _ _ _ _ _ _ _ _). pattern run.
  set (P := fun _ => _).
  assert (∀ message, P (Normal (failure message), w)) as Hfail.
  { intros message. subst P. cbn beta. cbn [fst snd].
    split; [done|]. split; [done|]. split; [by left|].
    eexists. split; [done|]. split; [by eexists | by left]. }
  subst run. unfold createAppointment, Eff_try_catch, createAppointment_try.
  destruct (checkAvailability S R scheduleId date time serviceId timezone) as [ac|e];
    [rewrite lift_Ok_bind | rewrite lift_Throw_bind; apply Hfail].
  rewrite !get_prop_obj, lift_Ok_bind.
  destruct (negb (truthy (or_undefined (ac !! "available")))).
  { rewrite lift_Ok_bind.
    destruct (as_array _ "join") as [times|e];
      [rewrite lift_Ok_bind, mret_run | rewrite lift_Throw_bind]; apply Hfail. }
  destruct (service_duration S serviceId) as [r|e];
    [rewrite lift_Ok_bind | rewrite lift_Throw_bind; apply Hfail].
  cbn zeta. destruct (negb (truthy (data r))); [rewrite mret_run; apply Hfail|].
  set (choose := if negb (truthy providerId) then _ else _).
  assert ((∃ p, choose w = (Normal p, w)) ∨ (∃ e, choose w = (Thrown e, w))) as Hchoose.
  { subst choose. destruct (negb (truthy providerId)); [|by left; eexists].
    destruct (first_active_provider S scheduleId) as [r0|e];
      [rewrite lift_Ok_bind | rewrite lift_Throw_bind; by right; eexists].
    destruct (truthy (data r0)); [|by left; eexists].
    destruct (get_prop (data r0) "profile_id"); [left | right]; by eexists. }
  rewrite Eff_bind_run.
  destruct Hchoose as [[p ->]|[e ->]]; [|apply Hfail].
  clearbody choose. clear choose.
  set (row := object _).
  assert (∀ out, (∃ result, out = Normal result ∧ is_Some (result !! "message") ∧
                    (result !! "success" = Some (JBool false) ∨
                     result !! "success" = Some (JBool true))) →
                 P (out, {| nameToIdCache := nameToIdCache w; args := args w;
                            writes := writes w ++ [Inserted row] |})) as Hwritten.
  { intros out (result & -> & Hmessage & Hsuccess). subst P. cbn beta. cbn [fst snd].
    assert (writes w ++ [Inserted row] = writes w ++ [Inserted row] ∧
            row !! "schedule_id" = Some scheduleId ∧
            row !! "customer_id" = Some customerId ∧
            row !! "service_id" = Some serviceId ∧ row !! "date" = Some date ∧
            row !! "start_time" = Some time ∧
            row !! "status" = Some (JStr "scheduled") ∧
            row !! "chat_id" = Some (chat_id session)) as Hrow
      by (repeat split; reflexivity).
    split; [done|]. split; [done|]. split; [right; by exists row|].
    exists result. split; [done|]. split; [done|].
    destruct Hsuccess as [?|?]; [by left | right; split; [done | by exists row]]. }
  unfold db_insert. rewrite !Eff_bind_run. cbn [record_write].
  destruct (insert_appointment S row) as [r1|e]; cbn [lift]; cycle 1.
  { apply Hwritten. eexists. split; [done|]. split; [by eexists | by left]. }
  destruct (error r1) as [message|].
  { cbn [lift]. apply Hwritten. eexists. split; [done|]. split; [by eexists | by left]. }
  rewrite !Eff_bind_run.
  destruct (get_prop (data r1) "id") as [id|e]; cbn [lift]; cycle 1.
  { apply Hwritten. eexists. split; [done|]. split; [by eexists | by left]. }
  rewrite !Eff_bind_run.
  destruct (get_prop (data r) "title") as [title|e]; cbn [lift]; cycle 1.
  { apply Hwritten. eexists. split; [done|]. split; [by eexists | by left]. }
  rewrite mret_run. apply Hwritten. eexists. split; [done|]. split; [by eexists | by right].
Qed.

Lemma createAppointment_writes_witness :
  ∃ row,
    writes (createAppointment Salon.store Salon.runtime (JStr "sch-1") (JStr "cust-9")
              (JStr "2024-01-08") (JStr "09:00") (JStr "svc-1") JUndefined JUndefined
              (JStr "America/Sao_Paulo") Salon.session (Salon.world ∅)).2
    = [Inserted row] ∧
    row !! "start_time" = Some (JStr "09:00") ∧
    row !! "status" = Some (JStr "scheduled").
Proof.
  destruct (createAppointment_writes Salon.store Salon.runtime (JStr "sch-1")
              (JStr "cust-9") (JStr "2024-01-08") (JStr "09:00") (JStr "svc-1")
              JUndefined JUndefined (JStr "America/Sao_Paulo") Salon.session
              (Salon.world ∅))
    as (_ & _ & _ & result & Hresult & _ & [Hrefused|[_ (row & Hrow & _ & _ & _ & _ & Htime & Hstatus & _)]]).
  - vm_compute in Hresult. injection Hresult as <-. by vm_compute in Hrefused.
  - by exists row.
Defined.

(** ** A booking and the slots it takes *)

Lemma minutesToTime_parts slot :
  0 ≤ slot →
  let parts := Number <$> split ":"%char (minutesToTime (Int slot)) in
  num_add (num_mul (default NaN (parts !! 0%nat)) (Int 60)) (default NaN (parts !! 1%nat))
  = Int slot.
Proof.
  intros Hslot. pose proof (timeToMinutes_minutesToTime slot Hslot) as Hback.
  unfold timeToMinutes in Hback. cbn [truthy] in Hback.
  case_bool_decide as Hempty; cbn [negb] in Hback; [|by injection Hback].
  injection Hback as <-. by vm_compute in Hempty.
Qed.

Lemma end_time_of_slot serviceData duration d slot :
  get_prop serviceData "duration" = Ok duration →
  duration_minutes duration = Ok (Int d) →
  0 ≤ slot →
  end_time_of serviceData (JStr (minutesToTime (Int slot)))
  = Ok (JStr (minutesToTime (Int (slot + d)))).
Proof.
  intros Hduration Hd Hslot. unfold end_time_of.
  rewrite Hduration, bind_Ok, Hd, bind_Ok. cbn zeta.
  by rewrite (minutesToTime_parts slot Hslot).
Qed.

Lemma overlaps_booked row slot d slot' :
  row !! "start_time" = Some (JStr (minutesToTime (Int slot))) →
  row !! "end_time" = Some (JStr (minutesToTime (Int (slot + d)))) →
  0 ≤ slot → 0 ≤ slot + d →
  overlaps slot' (JObj row) = Ok (bool_decide (slot ≤ slot' < slot + d)).
Proof.
  intros Hstart Hend Hslot Hd. unfold overlaps.
  rewrite !get_prop_obj, Hstart, Hend, bind_Ok. cbn [or_undefined].
  rewrite timeToMinutes_minutesToTime, !bind_Ok by done.
  rewrite timeToMinutes_minutesToTime, bind_Ok by done. f_equal.
  unfold num_gt. cbn [num_le num_lt].
  destruct (Z.leb_spec slot slot'), (Z.ltb_spec slot' (slot + d));
    cbn [andb]; case_bool_decide; first [done | lia].
Qed.

Lemma Eff_try_catch_world {A} (body : Eff A) handler w :
  (∀ e, reads_only (handler e)) → (Eff_try_catch body handler w).2 = (body w).2.
Proof.
  intros Hhandler. unfold Eff_try_catch.
  destruct (body w) as [[a|v|e] w1]; [done..|]. apply Hhandler.
Qed.

Lemma db_insert_world {A} S row (k : response → Eff A) w :
  (∀ r, reads_only (k r)) →
  writes ((db_insert S row ≫= k) w).2 = writes w ++ [Inserted row].
Proof.
  intros Hk. unfold db_insert. rewrite !Eff_bind_run. cbn [record_write].
  destruct (insert_appointment S row) as [r|e]; cbn [lift]; [|done].
  by rewrite Hk.
Qed.

(** X19. A booking takes the slots of its own interval and no other. When
    [createAppointment] is asked for the time of a slot that
    [checkAvailability] reports available, for a service whose duration
    reads as [d] minutes, it inserts a row that the occupancy test of
    [getAvailableSlots] finds to cover a slot exactly when the slot lies in
    the interval of [d] minutes that starts at the time booked. *)
Theorem createAppointment_takes_its_interval
    (S : Store) (R : Runtime)
    (scheduleId customerId date serviceId notes providerId timezone : jsval)
    (session : Session) (w : World) (slot d : Z)
    (ac : obj) (r r0 : response) (duration : jsval) :
  let time := JStr (minutesToTime (Int slot)) in
  0 ≤ slot → 0 ≤ d →
  checkAvailability S R scheduleId date time serviceId timezone = Ok ac →
  truthy (or_undefined (ac !! "available")) = true →
  service_duration S serviceId = Ok r → truthy (data r) = true →
  get_prop (data r) "duration" = Ok duration →
  duration_minutes duration = Ok (Int d) →
  first_active_provider S scheduleId = Ok r0 →
  ∃ row,
    writes (createAppointment S R scheduleId customerId date time serviceId notes
              providerId timezone session w).2 = writes w ++ [Inserted row] ∧
    row !! "start_time" = Some time ∧
    row !! "end_time" = Some (JStr (minutesToTime (Int (slot + d)))) ∧
    ∀ slot', overlaps slot' (JObj row) = Ok (bool_decide (slot ≤ slot' < slot + d)).
Proof.
  intros time Hslot Hd Hcheck Havailable Hr Hdata Hduration Hminutes Hr0.
  unfold createAppointment.
  rewrite Eff_try_catch_world by (intros e; apply reads_only_mret).
  unfold createAppointment_try.
  run (lift_run _ _ w Hcheck). rewrite !get_prop_obj.
  run (lift_run _ _ w (eq_refl (Ok (or_undefined (ac !! "available"))))).
  rewrite Havailable. cbn [negb].
  run (lift_run _ _ w Hr). cbn zeta. rewrite Hdata. cbn [negb].
  subst time. rewrite (end_time_of_slot _ _ _ _ Hduration Hminutes Hslot).
  cbn [keep_on_throw].
  set (choose := if negb (truthy providerId) then _ else _).
  assert (∃ p, choose w = (Normal p, w)) as [p Hchoose].
  { subst choose. destruct (negb (truthy providerId)); [|by eexists].
    rewrite Hr0, lift_Ok_bind. destruct (truthy (data r0)) eqn:Hp; [|by eexists].
    destruct (get_prop_truthy_total (data r0) "profile_id" Hp) as [profile ->].
    by eexists. }
  run Hchoose. clearbody choose. clear choose Hchoose.
  set (row := object _). exists row.
  split; [|split; [reflexivity|split; [reflexivity|]]].
  - apply db_insert_world. intros r1. repeat reads_only_step.
  - intros slot'. apply overlaps_booked; [reflexivity | reflexivity | lia | lia].
Qed.

Lemma createAppointment_takes_its_interval_witness :
  ∃ row,
    writes (createAppointment Salon.store Salon.runtime (JStr "sch-1") (JStr "cust-9")
              (JStr "2024-01-08") (JStr (minutesToTime (Int 540))) (JStr "svc-1")
              JUndefined JUndefined (JStr "America/Sao_Paulo") Salon.session
              (Salon.world ∅)).2 = [Inserted row] ∧
    overlaps 540 (JObj row) = Ok true ∧
    overlaps 570 (JObj row) = Ok false.
Proof.
  edestruct (createAppointment_takes_its_interval Salon.store Salon.runtime
               (JStr "sch-1") (JStr "cust-9") (JStr "2024-01-08") (JStr "svc-1")
               JUndefined JUndefined (JStr "America/Sao_Paulo") Salon.session
               (Salon.world ∅) 540 30)
    as (row & Hwrites & _ & _ & Hcovers);
    [lia | lia | vm_compute; reflexivity | reflexivity | reflexivity | reflexivity
    | reflexivity | reflexivity | reflexivity |].
  exists row. split; [exact Hwrites|]. by rewrite !Hcovers.
Defined.

(** ** Cancelling *)

Lemma db_update_run S id changes w r :
  update_appointment S id changes = Ok r →
  db_update S id changes w =
    (Normal r, {| nameToIdCache := nameToIdCache w; args := args w;
                  writes := writes w ++ [Updated id changes] |}).
Proof. intros H. unfold db_update. rewrite !Eff_bind_run. cbn [record_write]. by rewrite H. Qed.

(** X20. A cancellation by identifier that finds the appointment sends one
    update for it, which sets the status to [canceled] and adds the time and
    the origin of the cancellation to the metadata the appointment already
    had; nothing else is written. The result reports success with the date
    and the start time of the appointment when the store accepts the update,
    and the failure with the store's message when it does not. *)
Theorem deleteAppointment_by_identifier
    (S : Store) (R : Runtime) (appointmentId customerId date scheduleId : jsval)
    (w : World) (r r' : response) (appointment : obj) :
  let changes := cancellation R (or_undefined (appointment !! "metadata")) in
  let run := deleteAppointment S R appointmentId customerId date scheduleId w in
  truthy appointmentId = true →
  open_appointment S appointmentId customerId = Ok r → error r = None →
  data r = JObj appointment →
  update_appointment S appointmentId changes = Ok r' →
  run.2 = {| nameToIdCache := nameToIdCache w; args := args w;
             writes := writes w ++ [Updated appointmentId changes] |} ∧
  changes !! "status" = Some (JStr "canceled") ∧
  (∃ metadata,
     changes !! "metadata" = Some (JObj metadata) ∧
     metadata !! "canceled_at" = Some (JStr (toISOString R)) ∧
     metadata !! "canceled_via" = Some (JStr "agent_ia_action") ∧
     ∀ key, key ≠ "canceled_at" → key ≠ "canceled_via" →
            metadata !! key = own_props (or_undefined (appointment !! "metadata")) !! key) ∧
  (error r' = None →
   ∃ result,
     run.1 = Normal result ∧ result !! "success" = Some (JBool true) ∧
     result !! "appointment_id" = Some appointmentId ∧
     result !! "date" = Some (or_undefined (appointment !! "date")) ∧
     result !! "time" = Some (or_undefined (appointment !! "start_time"))) ∧
  (∀ message, error r' = Some message →
     run.1 = Normal (failure ("Error canceling appointment: " +:+ message))).
Proof.
  intros changes run Hid Hr Herror Hdata Hupdate. subst run.
  unfold deleteAppointment, Eff_try_catch, deleteAppointment_try. rewrite Hid.
  run (lift_run _ _ w Hr). rewrite Herror. cbn zeta. rewrite Hdata, !get_prop_obj.
  run (lift_run _ _ w (eq_refl (Ok (or_undefined (appointment !! "metadata"))))).
  fold changes. run (db_update_run _ _ _ w _ Hupdate).
  split; [|split; [reflexivity|split]].
  - destruct (error r'); [done|].
    by rewrite !lift_Ok_bind.
  - eexists. split; [reflexivity|]. unfold spread. cbn [foldl fst snd].
    split; [by rewrite lookup_insert_ne, lookup_insert_eq|].
    split; [by rewrite lookup_insert_eq|].
    intros key Hat Hvia. by rewrite !lookup_insert_ne.
  - split.
    + intros ->. rewrite !lift_Ok_bind. eexists. split; [reflexivity|].
      repeat split; reflexivity.
    + by intros message ->.
Qed.

Lemma deleteAppointment_by_identifier_witness :
  ∃ result,
    (deleteAppointment Salon.store Salon.runtime (JStr "apt-1") (JStr "cust-1")
       JUndefined JUndefined (Salon.world ∅)).1 = Normal result ∧
    result !! "success" = Some (JBool true) ∧
    result !! "time" = Some (JStr "09:30").
Proof.
  edestruct (deleteAppointment_by_identifier Salon.store Salon.runtime (JStr "apt-1")
               (JStr "cust-1") JUndefined JUndefined (Salon.world ∅))
    as (_ & _ & _ & Hdone & _);
    [reflexivity | reflexivity | reflexivity | reflexivity | reflexivity |].
  destruct Hdone as (result & Hresult & Hsuccess & _ & _ & Htime); [reflexivity|].
  exists result. split; [exact Hresult|]. split; [exact Hsuccess | exact Htime].
Defined.

Lemma cancel_each_run S R rows :
  Forall is_object rows →
  (∀ id changes, ∃ r, update_appointment S id changes = Ok r) →
  ∀ canceled w,
    ∃ out,
      cancel_each S R rows canceled w =
        (Normal out, {| nameToIdCache := nameToIdCache w; args := args w;
                        writes := writes w ++ (cancel_write R <$> rows) |}) ∧
      (length canceled ≤ length out ≤ length canceled + length rows)%nat ∧
      ((∀ id changes r, update_appointment S id changes = Ok r → error r = None) →
       length out = (length canceled + length rows)%nat).
Proof.
  intros Hrows Hupdate. induction Hrows as [|row rows [m ->] _ IH]; intros canceled w.
  - exists canceled. cbn [cancel_each fmap list_fmap length]. rewrite app_nil_r.
    split; [by destruct w|]. split; lia.
  - cbn [cancel_each]. rewrite !get_prop_obj, !lift_Ok_bind.
    destruct (Hupdate (or_undefined (m !! "id"))
                (cancellation R (or_undefined (m !! "metadata")))) as [r Hr].
    run (db_update_run _ _ _ w _ Hr).
    set (w1 := {| nameToIdCache := _ |}).
    assert (writes w1 ++ (cancel_write R <$> rows) =
            writes w ++ (cancel_write R <$> JObj m :: rows)) as Hlog
      by (subst w1; cbn [writes fmap list_fmap]; by rewrite <- app_assoc).
    destruct (error r) as [message|] eqn:Herror.
    + destruct (IH canceled w1) as (out & -> & Hlen & Hall). exists out.
      rewrite Hlog. split; [done|]. cbn [length]. split; [lia|].
      intros Hok. rewrite (Hok _ _ _ Hr) in Herror. done.
    + rewrite !lift_Ok_bind.
      destruct (IH (canceled ++ [JObj (object [("id", or_undefined (m !! "id"));
                                               ("date", or_undefined (m !! "date"));
                                               ("time", or_undefined (m !! "start_time"))])])
                  w1) as (out & -> & Hlen & Hall).
      exists out. rewrite Hlog. split; [done|].
      rewrite length_app in Hlen, Hall. cbn [length] in *. split; [lia|].
      intros Hok. rewrite (Hall Hok). lia.
Qed.

(** X21. A cancellation by date sends one update for each appointment the
    store returns for the customer and the date, in their order, and writes
    nothing else. The result reports success, lists the appointments whose
    update the store accepted and counts them; the count is the number of
    appointments found when the store accepts every update. *)
Theorem deleteAppointment_by_date
    (S : Store) (R : Runtime) (appointmentId customerId date scheduleId : jsval)
    (w : World) (r : response) (rows : list jsval) :
  let run := deleteAppointment S R appointmentId customerId date scheduleId w in
  truthy appointmentId = false → truthy date = true →
  customer_appointments_on S customerId date (when_given scheduleId) = Ok r →
  error r = None → data r = JArr rows → rows ≠ [] → Forall is_object rows →
  (∀ id changes, ∃ r', update_appointment S id changes = Ok r') →
  run.2 = {| nameToIdCache := nameToIdCache w; args := args w;
             writes := writes w ++ (cancel_write R <$> rows) |} ∧
  ∃ result canceled,
    run.1 = Normal result ∧
    result !! "success" = Some (JBool true) ∧
    result !! "canceled_appointments" = Some (JArr canceled) ∧
    result !! "canceled_count" = Some (JNum (Int (Z.of_nat (length canceled)))) ∧
    (length canceled ≤ length rows)%nat ∧
    ((∀ id changes r', update_appointment S id changes = Ok r' → error r' = None) →
     length canceled = length rows).
Proof.
  intros run Hid Hdate Hr Herror Hdata Hsome Hrows Hupdate. subst run.
  unfold deleteAppointment, Eff_try_catch, deleteAppointment_try. rewrite Hid, Hdate.
  run (lift_run _ _ w Hr). rewrite Herror. cbn zeta. rewrite Hdata, none_found_array.
  rewrite bool_decide_eq_false_2 by done. cbn [as_array]. rewrite lift_Ok_bind.
  destruct (cancel_each_run S R rows Hrows Hupdate [] w) as (out & Hrun & Hlen & Hall).
  run Hrun. rewrite mret_run. cbn [fst snd]. split; [done|].
  eexists _, out. split; [reflexivity|]. split; [reflexivity|]. split; [reflexivity|].
  split; [reflexivity|]. cbn [length] in *. split; [lia|]. intros Hok. by rewrite (Hall Hok).
Qed.

Lemma deleteAppointment_by_date_witness :
  (deleteAppointment Salon.store Salon.runtime JUndefined (JStr "cust-1")
     (JStr "2024-01-08") JUndefined (Salon.world ∅)).2
  = {| nameToIdCache := ∅; args := ∅; writes := [cancel_write Salon.runtime Salon.taken] |}.
Proof.
  edestruct (deleteAppointment_by_date Salon.store Salon.runtime JUndefined (JStr "cust-1")
               (JStr "2024-01-08") JUndefined (Salon.world ∅)
               {| data := JArr [Salon.taken]; error := None |} [Salon.taken])
    as (Hworld & _);
    [reflexivity | reflexivity | reflexivity | reflexivity | reflexivity | done | | |].
  - apply Forall_singleton. by eexists.
  - intros id changes. by eexists.
  - exact Hworld.
Defined.

(** ** Listing the appointments *)

Lemma appointment_summary_object R m :
  ∃ summary,
    appointment_summary R (JObj m) = Ok (JObj summary) ∧
    summary !! "id" = Some (or_undefined (m !! "id")) ∧
    summary !! "date" = Some (or_undefined (m !! "date")) ∧
    summary !! "time" = Some (or_undefined (m !! "start_time")) ∧
    summary !! "end_time" = Some (or_undefined (m !! "end_time")) ∧
    summary !! "status" = Some (or_undefined (m !! "status")).
Proof.
  unfold appointment_summary. rewrite !get_prop_obj, !bind_Ok.
  destruct (get_prop_opt_total (or_undefined (m !! "schedules")) "title") as [t1 ->].
  rewrite !bind_Ok.
  destruct (get_prop_opt_total (or_undefined (m !! "schedule_services")) "title") as [t2 ->].
  rewrite bind_Ok. eexists. split; [reflexivity|]. repeat split; reflexivity.
Qed.

Lemma appointment_summaries R rows :
  Forall is_object rows →
  ∃ summaries,
    mapM (appointment_summary R) rows = Ok summaries ∧
    length summaries = length rows ∧
    ∀ i row, rows !! i = Some row →
      ∃ summary,
        summaries !! i = Some (JObj summary) ∧
        summary !! "id" = Some (or_undefined (own_props row !! "id")) ∧
        summary !! "date" = Some (or_undefined (own_props row !! "date")) ∧
        summary !! "time" = Some (or_undefined (own_props row !! "start_time")) ∧
        summary !! "end_time" = Some (or_undefined (own_props row !! "end_time")) ∧
        summary !! "status" = Some (or_undefined (own_props row !! "status")).
Proof.
  induction 1 as [|row rows [m ->] _ (summaries & Hrest & Hlen & Hnth)]; cbn [mapM].
  - exists []. split; [done|]. split; [done|]. intros i row Hi. by destruct i.
  - destruct (appointment_summary_object R m) as (summary & -> & Hsummary).
    rewrite bind_Ok, Hrest, bind_Ok. exists (JObj summary :: summaries).
    split; [done|]. cbn [length]. split; [by rewrite Hlen|].
    intros [|i] row Hi; cbn in Hi.
    + injection Hi as <-. by exists summary.
    + by apply Hnth.
Qed.

(** X22. [checkAppointment] always returns a result. When the store answers
    with an error the result is the failure that carries its message; when
    it answers with no data the result is success with an empty list; and
    when it answers with rows the result is success with one summary for
    each row, in the order of the store, that carries the identifier, the
    date, the start and end times and the status of the row, and with their
    number as the count. *)
Theorem checkAppointment_lists
    (S : Store) (R : Runtime) (customerId appointmentId scheduleId : jsval) (r : response) :
  let run := checkAppointment S R customerId appointmentId scheduleId in
  customer_appointments S customerId (when_given scheduleId) (when_given appointmentId)
    = Ok r →
  (∀ message, error r = Some message →
     run = Ok (failure ("Error checking appointments: " +:+ message))) ∧
  (error r = None → truthy (data r) = false →
   ∃ result,
     run = Ok result ∧ result !! "success" = Some (JBool true) ∧
     result !! "appointments" = Some (JArr []) ∧
     result !! "count" = Some (JNum (Int 0)) ∧
     result !! "message" = Some (JStr "No appointments found")) ∧
  (∀ rows, error r = None → data r = JArr rows → Forall is_object rows →
   ∃ result summaries,
     run = Ok result ∧ result !! "success" = Some (JBool true) ∧
     result !! "appointments" = Some (JArr summaries) ∧
     result !! "count" = Some (JNum (Int (Z.of_nat (length rows)))) ∧
     ∀ i row, rows !! i = Some row →
       ∃ summary,
         summaries !! i = Some (JObj summary) ∧
         summary !! "id" = Some (or_undefined (own_props row !! "id")) ∧
         summary !! "date" = Some (or_undefined (own_props row !! "date")) ∧
         summary !! "time" = Some (or_undefined (own_props row !! "start_time")) ∧
         summary !! "end_time" = Some (or_undefined (own_props row !! "end_time")) ∧
         summary !! "status" = Some (or_undefined (own_props row !! "status"))).
Proof.
  intros run Hr. subst run. unfold checkAppointment. rewrite Hr, bind_Ok.
  split; [|split].
  - by intros message ->.
  - intros -> Hdata. unfold js_or. rewrite Hdata. cbn [as_array]. rewrite bind_Ok.
    cbn [mapM]. rewrite bind_Ok. eexists. split; [reflexivity|]. repeat split; reflexivity.
  - intros rows -> -> Hrows. cbn [js_or truthy as_array]. rewrite bind_Ok.
    destruct (appointment_summaries R rows Hrows) as (summaries & -> & Hlen & Hnth).
    rewrite bind_Ok. cbn [try_catch]. eexists _, summaries. split; [reflexivity|].
    split; [reflexivity|]. split; [reflexivity|]. split; [|done].
    by rewrite <- Hlen.
Qed.

Lemma checkAppointment_lists_witness :
  ∃ result summaries,
    checkAppointment Salon.store Salon.runtime (JStr "cust-1") JUndefined (JStr "sch-1")
      = Ok result ∧
    result !! "appointments" = Some (JArr summaries) ∧
    result !! "count" = Some (JNum (Int 1)).
Proof.
  edestruct (checkAppointment_lists Salon.store Salon.runtime (JStr "cust-1") JUndefined
               (JStr "sch-1")) as (_ & _ & Hrows); [reflexivity|].
  destruct (Hrows [Salon.taken]) as (result & summaries & Hresult & _ & Hlist & Hcount & _);
    [reflexivity | reflexivity | by apply Forall_singleton; eexists |].
  by exists result, summaries.
Defined.

(** ** What is read of the action *)

(** X23. Of the action it is handed, [processCheckScheduleAction] uses the
    configured schedule and nothing else: the operation, the date, the time
    and the identifiers are read from the arguments, so two actions with the
    same schedule give the same outcome. *)
Theorem processCheckScheduleAction_reads_the_schedule
    (S : Store) (R : Runtime) (action action' : jsval) (a : obj) (session : Session)
    (w : World) :
  scheduleId_of action = scheduleId_of action' →
  processCheckScheduleAction S R action a session w =
  processCheckScheduleAction S R action' a session w.
Proof.
  intros Hsame. unfold processCheckScheduleAction, call, Eff_try_catch.
  assert (processCheckScheduleAction_try S R action a session w =
          processCheckScheduleAction_try S R action' a session w) as ->; [|done].
  unfold scheduleId_of in Hsame. unfold processCheckScheduleAction_try.
  destruct (get_prop_opt_total action "config") as [c Hc].
  destruct (get_prop_opt_total action' "config") as [c' Hc'].
  rewrite Hc, Hc', !bind_Ok in Hsame.
  run (lift_run _ _ w Hc). run (lift_run _ _ w Hc'). cbn zeta.
  destruct (negb (truthy (or_undefined (a !! "operation")))); [done|].
  by rewrite Hsame.
Qed.

Lemma processCheckScheduleAction_reads_the_schedule_witness :
  processCheckScheduleAction Salon.store Salon.runtime
    (forwarded_schedule_action (JStr "sch-1") (object [("operation", JStr "checkAppointment")]))
    (object [("operation", JStr "checkAppointment")]) Salon.session (Salon.world ∅)
  = processCheckScheduleAction Salon.store Salon.runtime
      (JObj (object [("config", JObj (object [("scheduleId", JStr "sch-1")]))]))
      (object [("operation", JStr "checkAppointment")]) Salon.session (Salon.world ∅).
Proof. by apply processCheckScheduleAction_reads_the_schedule. Defined.

Lemma createAppointment_refuses_taken_time_witness :
  createAppointment Salon.store Salon.runtime (JStr "sch-1") (JStr "cust-9")
    (JStr "2024-01-08") (JStr "09:30") (JStr "svc-1") JUndefined JUndefined
    (JStr "America/Sao_Paulo") Salon.session (Salon.world ∅)
  = (Normal (failure ("The requested time slot is not available. Available times: "
                      +:+ join ", " ["09:00"])), Salon.world ∅).
Proof.
  by apply (createAppointment_refuses_taken_time Salon.store Salon.runtime (JStr "sch-1")
              (JStr "cust-9") (JStr "2024-01-08") (JStr "09:30") (JStr "svc-1") JUndefined
              JUndefined (JStr "America/Sao_Paulo") Salon.session
              {| data := Salon.schedule; error := None |} (Int 30) (JBool false) ["09:00"]).
Defined.

(** ** The dispatcher, case by case *)

Lemma handleSystemToolCall_run S R X tool actionsSystem session w :
  handleSystemToolCall S R X tool actionsSystem session w =
    match handleSystemToolCall_try S R X tool actionsSystem session w with
    | (Normal v, w') | (Returned v, w') => (Normal v, w')
    | (Thrown e, w') =>
        (Normal (error_result ("Error processing system tool " +:+ name tool
                               +:+ ": " +:+ e)), w')
    end.
Proof.
  unfold handleSystemToolCall, call, Eff_try_catch.
  by destruct (handleSystemToolCall_try _ _ _ _ _ _ _) as [[v|v|e] w'].
Qed.

(** The answer of the dispatcher, from the outcome of a case. *)
Lemma handleSystemToolCall_case S R X tool actionsSystem session type action w :
  dispatches tool actionsSystem type action →
  handleSystemToolCall S R X tool actionsSystem session w =
    match (if bool_decide (type = "schedule") then schedule_case S R action session
           else if bool_decide (type = "update_customer") then update_customer_case X session
           else if bool_decide (type = "update_chat") then update_chat_case S R X session
           else if bool_decide (type = "start_flow") then start_flow_case S R X session
           else return_ (error_result ("Unrecognized system tool: " +:+ name tool))) w with
    | (Normal v, w') | (Returned v, w') => (Normal v, w')
    | (Thrown e, w') =>
        (Normal (error_result ("Error processing system tool " +:+ name tool
                               +:+ ": " +:+ e)), w')
    end.
Proof.
  intros Hcase. rewrite handleSystemToolCall_run.
  by rewrite (handleSystemToolCall_try_case _ _ _ _ _ _ _ _ _ Hcase).
Qed.

Lemma handleSystemToolCall_flow S R X tool actionsSystem session action w :
  dispatches tool actionsSystem "start_flow" action →
  handleSystemToolCall S R X tool actionsSystem session w =
    match start_flow_case S R X session w with
    | (Normal v, w') | (Returned v, w') => (Normal v, w')
    | (Thrown e, w') =>
        (Normal (error_result ("Error processing system tool " +:+ name tool
                               +:+ ": " +:+ e)), w')
    end.
Proof. intros Hcase. by rewrite (handleSystemToolCall_case _ _ _ _ _ _ _ _ _ Hcase). Qed.

Lemma handleSystemToolCall_chat S R X tool actionsSystem session action w :
  dispatches tool actionsSystem "update_chat" action →
  handleSystemToolCall S R X tool actionsSystem session w =
    match update_chat_case S R X session w with
    | (Normal v, w') | (Returned v, w') => (Normal v, w')
    | (Thrown e, w') =>
        (Normal (error_result ("Error processing system tool " +:+ name tool
                               +:+ ": " +:+ e)), w')
    end.
Proof. intros Hcase. by rewrite (handleSystemToolCall_case _ _ _ _ _ _ _ _ _ Hcase). Qed.

Lemma handleSystemToolCall_customer S R X tool actionsSystem session action w :
  dispatches tool actionsSystem "update_customer" action →
  handleSystemToolCall S R X tool actionsSystem session w =
    match update_customer_case X session w with
    | (Normal v, w') | (Returned v, w') => (Normal v, w')
    | (Thrown e, w') =>
        (Normal (error_result ("Error processing system tool " +:+ name tool
                               +:+ ": " +:+ e)), w')
    end.
Proof. intros Hcase. by rewrite (handleSystemToolCall_case _ _ _ _ _ _ _ _ _ Hcase). Qed.

Lemma handleSystemToolCall_schedule S R X tool actionsSystem session action w :
  dispatches tool actionsSystem "schedule" action →
  handleSystemToolCall S R X tool actionsSystem session w =
    match schedule_case S R action session w with
    | (Normal v, w') | (Returned v, w') => (Normal v, w')
    | (Thrown e, w') =>
        (Normal (error_result ("Error processing system tool " +:+ name tool
                               +:+ ": " +:+ e)), w')
    end.
Proof. intros Hcase. by rewrite (handleSystemToolCall_case _ _ _ _ _ _ _ _ _ Hcase). Qed.

Lemma start_flow_case_run S R X tool session w :
  match start_flow_case S R X session w with
  | (Normal v, w') | (Returned v, w') => (Normal v, w')
  | (Thrown e, w') =>
      (Normal (error_result ("Error processing system tool " +:+ name tool
                             +:+ ": " +:+ e)), w')
  end =
  match resolve_flow_name S R session w with
  | (Normal _, w1) =>
      (Normal (executor_result tool
                 (processStartFlowAction X (forwarded_flow_action (args w1)) (args w1)
                    session)), w1)
  | (Returned v, w1) => (Normal v, w1)
  | (Thrown e, w1) =>
      (Normal (error_result ("Error processing system tool " +:+ name tool
                             +:+ ": " +:+ e)), w1)
  end.
Proof.
  unfold start_flow_case. rewrite Eff_bind_run.
  destruct (resolve_flow_name S R session w) as [[[]|v|e] w1]; [|done..].
  run (arg_run "flow_id" w1). cbn zeta.
  rewrite Eff_bind_run. cbn [read_args]. rewrite Eff_bind_run.
  unfold forwarded_flow_action. by destruct (processStartFlowAction X _ _ _).
Qed.

Lemma update_chat_case_run S R X tool session w :
  match update_chat_case S R X session w with
  | (Normal v, w') | (Returned v, w') => (Normal v, w')
  | (Thrown e, w') =>
      (Normal (error_result ("Error processing system tool " +:+ name tool
                             +:+ ": " +:+ e)), w')
  end =
  match resolve_team_name S R session w with
  | (Normal _, w1) =>
      (Normal (executor_result tool
                 (processUpdateChatAction X (forwarded_chat_action (args w1)) (args w1)
                    session)), w1)
  | (Returned v, w1) => (Normal v, w1)
  | (Thrown e, w1) =>
      (Normal (error_result ("Error processing system tool " +:+ name tool
                             +:+ ": " +:+ e)), w1)
  end.
Proof.
  unfold update_chat_case. rewrite Eff_bind_run.
  destruct (resolve_team_name S R session w) as [[[]|v|e] w1]; [|done..].
  run (arg_run "title" w1). run (arg_run "status" w1). run (arg_run "team_id" w1).
  cbn zeta. rewrite Eff_bind_run. cbn [read_args]. rewrite Eff_bind_run.
  unfold forwarded_chat_action. by destruct (processUpdateChatAction X _ _ _).
Qed.

Lemma update_customer_case_run X tool session w :
  match update_customer_case X session w with
  | (Normal v, w') | (Returned v, w') => (Normal v, w')
  | (Thrown e, w') =>
      (Normal (error_result ("Error processing system tool " +:+ name tool
                             +:+ ": " +:+ e)), w')
  end =
  (Normal (executor_result tool
             (processUpdateCustomerAction X (forwarded_customer_action (args w)) (args w)
                session)), w).
Proof.
  unfold update_customer_case. run (arg_run "name" w). cbn zeta.
  rewrite Eff_bind_run. cbn [read_args]. rewrite Eff_bind_run.
  unfold forwarded_customer_action. by destruct (processUpdateCustomerAction X _ _ _).
Qed.

Lemma processCheckScheduleAction_completes S R action a session w :
  ∃ v w', processCheckScheduleAction S R action a session w = (Normal v, w').
Proof.
  unfold processCheckScheduleAction, call, Eff_try_catch.
  destruct (processCheckScheduleAction_try S R action a session w) as [[v|v|e] w'];
    by eexists _, _.
Qed.

Lemma schedule_case_run S R tool action session scheduleId w :
  schedule_found S session action scheduleId →
  match schedule_case S R action session w with
  | (Normal v, w') | (Returned v, w') => (Normal v, w')
  | (Thrown e, w') =>
      (Normal (error_result ("Error processing system tool " +:+ name tool
                             +:+ ": " +:+ e)), w')
  end =
  match resolve_service_name S R session scheduleId w with
  | (Normal _, w1) =>
      match resolve_provider_name S R session scheduleId w1 with
      | (Normal _, w2) =>
          processCheckScheduleAction S R (forwarded_schedule_action scheduleId (args w2))
            (args w2) session w2
      | (Returned v, w2) => (Normal v, w2)
      | (Thrown e, w2) =>
          (Normal (error_result ("Error processing system tool " +:+ name tool
                                 +:+ ": " +:+ e)), w2)
      end
  | (Returned v, w1) => (Normal v, w1)
  | (Thrown e, w1) =>
      (Normal (error_result ("Error processing system tool " +:+ name tool
                             +:+ ": " +:+ e)), w1)
  end.
Proof.
  intros Hfound. rewrite (schedule_case_steps _ _ _ _ _ _ Hfound). rewrite Eff_bind_run.
  destruct (resolve_service_name S R session scheduleId w) as [[[]|v|e] w1]; [|done..].
  rewrite Eff_bind_run.
  destruct (resolve_provider_name S R session scheduleId w1) as [[[]|v|e] w2]; [|done..].
  run (arg_run "operation" w2). run (arg_run "date" w2). run (arg_run "time" w2).
  run (arg_run "appointmentId" w2). run (arg_run "serviceId" w2). run (arg_run "notes" w2).
  cbn zeta. rewrite Eff_bind_run. cbn [read_args]. rewrite Eff_bind_run.
  fold (forwarded_schedule_action scheduleId (args w2)).
  destruct (processCheckScheduleAction_completes S R
              (forwarded_schedule_action scheduleId (args w2)) (args w2) session w2)
    as (v & w' & Hrun).
  unfold forwarded_schedule_action in *. by rewrite Hrun.
Qed.

(** *** A name that is not in the map *)

Lemma resolve_flow_name_unknown S R session w map cache' key found :
  truthy (or_undefined (args w !! "flow_name")) = true →
  name_map R (nameToIdCache w) (organization_id session) "flows" JNull
    (active_flows S (organization_id session)) Ok "name" map cache' →
  lower_name R (or_undefined (args w !! "flow_name")) = Ok key →
  get_prop map key = Ok found → truthy found = false →
  resolve_flow_name S R session w =
    (Returned (not_found "Flow" (or_undefined (args w !! "flow_name"))),
     with_cache w cache').
Proof.
  intros Hgiven Hmap Hkey Hid Hfalsy. unfold resolve_flow_name.
  run (arg_run "flow_name" w). rewrite Hgiven. cbn [negb].
  destruct Hmap as [(Hhit & Hmap & ->)|(cached & r & rows & built & Hmiss & Hcached & Hr &
                                         Hfound & [= <-] & Hbuilt & -> & Hset)].
  - run (look_in_cache_run _ _ _ _ _ _ Hhit). rewrite Hmap. cbn [negb].
    run (mret_run map w). run (lift_run _ _ w Hkey). run (lift_run _ _ w Hid).
    rewrite Hfalsy. by destruct w.
  - run (look_in_cache_run _ _ _ _ _ _ Hmiss). rewrite Hcached. cbn [negb].
    run_rebuild Hr Hfound Hr Hbuilt Hset.
    run (lift_run _ _ (with_cache w cache') Hkey).
    run (lift_run _ _ (with_cache w cache') Hid). by rewrite Hfalsy.
Qed.

Lemma resolve_team_name_unknown S R session w map cache' key found :
  truthy (or_undefined (args w !! "team_name")) = true →
  name_map R (nameToIdCache w) (organization_id session) "teams" JNull
    (teams_of S (organization_id session)) Ok "name" map cache' →
  lower_name R (or_undefined (args w !! "team_name")) = Ok key →
  get_prop map key = Ok found → truthy found = false →
  resolve_team_name S R session w =
    (Returned (not_found "Team" (or_undefined (args w !! "team_name"))),
     with_cache w cache').
Proof.
  intros Hgiven Hmap Hkey Hid Hfalsy. unfold resolve_team_name.
  run (arg_run "team_name" w). rewrite Hgiven.
  destruct Hmap as [(Hhit & Hmap & ->)|(cached & r & rows & built & Hmiss & Hcached & Hr &
                                         Hfound & [= <-] & Hbuilt & -> & Hset)].
  - run (look_in_cache_run _ _ _ _ _ _ Hhit). rewrite Hmap. cbn [negb].
    run (mret_run map w). rewrite Hmap.
    run (lift_run _ _ w Hkey). run (lift_run _ _ w Hid).
    rewrite Hfalsy. by destruct w.
  - run (look_in_cache_run _ _ _ _ _ _ Hmiss). rewrite Hcached. cbn [negb].
    run_rebuild Hr Hfound Hr Hbuilt Hset. cbn [truthy].
    run (lift_run _ _ (with_cache w cache') Hkey).
    run (lift_run _ _ (with_cache w cache') Hid). by rewrite Hfalsy.
Qed.

Lemma resolve_service_name_unknown S R session scheduleId w map cache' key found :
  truthy (or_undefined (args w !! "service_name")) = true →
  name_map R (nameToIdCache w) (organization_id session) "services" scheduleId
    (active_services S scheduleId) Ok "title" map cache' →
  lower_name R (or_undefined (args w !! "service_name")) = Ok key →
  get_prop map key = Ok found → truthy found = false →
  resolve_service_name S R session scheduleId w =
    (Returned (not_found "Service" (or_undefined (args w !! "service_name"))),
     with_cache w cache').
Proof.
  intros Hgiven Hmap Hkey Hid Hfalsy. unfold resolve_service_name.
  run (arg_run "service_name" w). rewrite Hgiven.
  destruct Hmap as [(Hhit & Hmap & ->)|(cached & r & rows & built & Hmiss & Hcached & Hr &
                                         Hfound & [= <-] & Hbuilt & -> & Hset)].
  - run (look_in_cache_run _ _ _ _ _ _ Hhit). rewrite Hmap. cbn [negb].
    run (mret_run map w). run (lift_run _ _ w Hkey). run (lift_run _ _ w Hid).
    rewrite Hfalsy. by destruct w.
  - run (look_in_cache_run _ _ _ _ _ _ Hmiss). rewrite Hcached. cbn [negb].
    run_rebuild Hr Hfound Hr Hbuilt Hset.
    run (lift_run _ _ (with_cache w cache') Hkey).
    run (lift_run _ _ (with_cache w cache') Hid). by rewrite Hfalsy.
Qed.

Lemma resolve_provider_name_unknown S R session scheduleId w map cache' key found :
  truthy (or_undefined (args w !! "provider_name")) = true →
  name_map R (nameToIdCache w) (organization_id session) "providers" scheduleId
    (active_providers_profiles S scheduleId) profiles_of "full_name" map cache' →
  lower_name R (or_undefined (args w !! "provider_name")) = Ok key →
  get_prop map key = Ok found → truthy found = false →
  resolve_provider_name S R session scheduleId w = (Normal (), with_cache w cache').
Proof.
  intros Hgiven Hmap Hkey Hid Hfalsy. unfold resolve_provider_name.
  run (arg_run "provider_name" w). rewrite Hgiven.
  destruct Hmap as [(Hhit & Hmap & ->)|(cached & r & rows & built & Hmiss & Hcached & Hr &
                                         Hfound & Hrows & Hbuilt & -> & Hset)].
  - run (look_in_cache_run _ _ _ _ _ _ Hhit). rewrite Hmap. cbn [negb].
    run (mret_run map w). rewrite Hmap.
    run (lift_run _ _ w Hkey). run (lift_run _ _ w Hid).
    rewrite Hfalsy. by destruct w.
  - run (look_in_cache_run _ _ _ _ _ _ Hmiss). rewrite Hcached. cbn [negb].
    run_rebuild Hr Hfound Hrows Hbuilt Hset. cbn [truthy].
    run (lift_run _ _ (with_cache w cache') Hkey).
    run (lift_run _ _ (with_cache w cache') Hid). by rewrite Hfalsy.
Qed.

(** X24. A name that is not in the map, none of the names every object
    inherits, while no row of the store is named [__proto__]. For a flow, a
    team or a service the call ends there, with the error envelope that
    names what was asked for, and the executor is not called; the cache
    keeps the map that was built. For a provider, who is optional, the call
    goes on to [processCheckScheduleAction] without a [provider_id]. *)
Theorem handleSystemToolCall_unknown_name
    (S : Store) (R : Runtime) (X : Executors) (tool : Tool) (actionsSystem : jsval)
    (session : Session) (w : World) :
  let org := organization_id session in
  let run := handleSystemToolCall S R X tool actionsSystem session w in
  let given key := or_undefined (args w !! key) in
  (∀ action map cache',
     dispatches tool actionsSystem "start_flow" action →
     truthy (given "flow_name") = true →
     plain_rows R (active_flows S org) Ok "name" →
     name_map R (nameToIdCache w) org "flows" JNull (active_flows S org) Ok "name"
       map cache' →
     unknown_name R map (given "flow_name") →
     run = (Normal (not_found "Flow" (given "flow_name")), with_cache w cache')) ∧
  (∀ action map cache',
     dispatches tool actionsSystem "update_chat" action →
     truthy (given "team_name") = true →
     plain_rows R (teams_of S org) Ok "name" →
     name_map R (nameToIdCache w) org "teams" JNull (teams_of S org) Ok "name"
       map cache' →
     unknown_name R map (given "team_name") →
     run = (Normal (not_found "Team" (given "team_name")), with_cache w cache')) ∧
  (∀ action scheduleId map cache',
     dispatches tool actionsSystem "schedule" action →
     schedule_found S session action scheduleId →
     truthy (given "service_name") = true →
     plain_rows R (active_services S scheduleId) Ok "title" →
     name_map R (nameToIdCache w) org "services" scheduleId
       (active_services S scheduleId) Ok "title" map cache' →
     unknown_name R map (given "service_name") →
     run = (Normal (not_found "Service" (given "service_name")), with_cache w cache')) ∧
  (∀ action scheduleId w1 map cache',
     dispatches tool actionsSystem "schedule" action →
     schedule_found S session action scheduleId →
     resolve_service_name S R session scheduleId w = (Normal (), w1) →
     truthy (or_undefined (args w1 !! "provider_name")) = true →
     plain_rows R (active_providers_profiles S scheduleId) profiles_of "full_name" →
     name_map R (nameToIdCache w1) org "providers" scheduleId
       (active_providers_profiles S scheduleId) profiles_of "full_name" map cache' →
     unknown_name R map (or_undefined (args w1 !! "provider_name")) →
     run = processCheckScheduleAction S R
             (forwarded_schedule_action scheduleId (args w1)) (args w1) session
             (with_cache w1 cache')).
Proof.
  cbn zeta. split; [|split; [|split]].
  - intros action map cache' Hcase Hgiven _ Hmap (key & m & Hkey & _ & -> & Hfalsy).
    rewrite !(handleSystemToolCall_flow _ _ _ _ _ _ _ _ Hcase).
    rewrite (start_flow_case_run S R X tool session w).
    by rewrite (resolve_flow_name_unknown _ _ _ _ _ _ _ _ Hgiven Hmap Hkey eq_refl Hfalsy).
  - intros action map cache' Hcase Hgiven _ Hmap (key & m & Hkey & _ & -> & Hfalsy).
    rewrite !(handleSystemToolCall_chat _ _ _ _ _ _ _ _ Hcase).
    rewrite (update_chat_case_run S R X tool session w).
    by rewrite (resolve_team_name_unknown _ _ _ _ _ _ _ _ Hgiven Hmap Hkey eq_refl Hfalsy).
  - intros action scheduleId map cache' Hcase Hfound Hgiven _ Hmap
      (key & m & Hkey & _ & -> & Hfalsy).
    rewrite (handleSystemToolCall_schedule _ _ _ _ _ _ _ _ Hcase).
    rewrite (schedule_case_run S R tool action session scheduleId w Hfound).
    by rewrite (resolve_service_name_unknown _ _ _ _ _ _ _ _ _ Hgiven Hmap Hkey eq_refl
                  Hfalsy).
  - intros action scheduleId w1 map cache' Hcase Hfound Hservice Hgiven _ Hmap
      (key & m & Hkey & _ & -> & Hfalsy).
    rewrite (handleSystemToolCall_schedule _ _ _ _ _ _ _ _ Hcase).
    rewrite (schedule_case_run S R tool action session scheduleId w Hfound), Hservice.
    by rewrite (resolve_provider_name_unknown _ _ _ _ _ _ _ _ _ Hgiven Hmap Hkey eq_refl
                  Hfalsy).
Qed.

Lemma handleSystemToolCall_unknown_name_witness :
  ∃ w',
    handleSystemToolCall Salon.store Salon.runtime Salon.executors Booking.tool
      (JArr [Booking.action]) Salon.session
      (Salon.world (object [("operation", JStr "checkAvailability");
                            ("date", JStr "2024-01-08");
                            ("service_name", JStr "Barba")]))
    = (Normal (not_found "Service" (JStr "Barba")), w').
Proof.
  pose proof (handleSystemToolCall_unknown_name Salon.store Salon.runtime Salon.executors
                Booking.tool (JArr [Booking.action]) Salon.session
                (Salon.world (object [("operation", JStr "checkAvailability");
                                      ("date", JStr "2024-01-08");
                                      ("service_name", JStr "Barba")]))) as H.
  cbn zeta in H. destruct H as (_ & _ & Hservice & _).
  eexists. eapply (Hservice Booking.action (JStr "sch-1")).
  - eexists _, _. repeat split; reflexivity.
  - eexists _, _, _, _. repeat split; reflexivity.
  - reflexivity.
  - intros r rows items item id Hr Hrows -> Hin (name & Hfields & Hkey).
    vm_compute in Hr. injection Hr as <-. vm_compute in Hrows. injection Hrows as <-.
    apply list_elem_of_singleton in Hin as ->.
    vm_compute in Hfields. injection Hfields as <- <-. by vm_compute in Hkey.
  - right. eexists _, _, _, _. repeat split; reflexivity.
  - eexists _, _. repeat split; reflexivity.
Defined.

(** *** Nothing to resolve a name with *)

Lemma resolve_flow_name_none S R session w :
  truthy (or_undefined (args w !! "flow_name")) = true →
  nothing_to_resolve R (nameToIdCache w) (organization_id session) "flows" JNull
    (active_flows S (organization_id session)) →
  resolve_flow_name S R session w =
    (Returned (error_result "No active flows found for this organization."), w).
Proof.
  intros Hgiven (cached & r & Hmiss & Hcached & Hr & Hnone). unfold resolve_flow_name.
  run (arg_run "flow_name" w). rewrite Hgiven. cbn [negb].
  run (look_in_cache_run _ _ _ _ _ _ Hmiss). rewrite Hcached. cbn [negb].
  rewrite Eff_bind_run. run (lift_run _ _ w Hr). cbn zeta. by rewrite Hnone.
Qed.

Lemma resolve_service_name_none S R session scheduleId w :
  truthy (or_undefined (args w !! "service_name")) = true →
  nothing_to_resolve R (nameToIdCache w) (organization_id session) "services" scheduleId
    (active_services S scheduleId) →
  resolve_service_name S R session scheduleId w =
    (Returned (error_result "No services found for this schedule."), w).
Proof.
  intros Hgiven (cached & r & Hmiss & Hcached & Hr & Hnone). unfold resolve_service_name.
  run (arg_run "service_name" w). rewrite Hgiven.
  run (look_in_cache_run _ _ _ _ _ _ Hmiss). rewrite Hcached. cbn [negb].
  rewrite Eff_bind_run. run (lift_run _ _ w Hr). cbn zeta. by rewrite Hnone.
Qed.

Lemma resolve_team_name_none S R session w :
  nothing_to_resolve R (nameToIdCache w) (organization_id session) "teams" JNull
    (teams_of S (organization_id session)) →
  resolve_team_name S R session w = (Normal (), w).
Proof.
  intros (cached & r & Hmiss & Hcached & Hr & Hnone). unfold resolve_team_name.
  run (arg_run "team_name" w). destruct (truthy (or_undefined (args w !! "team_name")));
    [|done].
  run (look_in_cache_run _ _ _ _ _ _ Hmiss). rewrite Hcached. cbn [negb].
  erewrite bind_run; cycle 1.
  { run (lift_run _ _ w Hr). cbn zeta. rewrite Hnone. apply mret_run. }
  by rewrite Hcached.
Qed.

Lemma resolve_provider_name_none S R session scheduleId w :
  nothing_to_resolve R (nameToIdCache w) (organization_id session) "providers" scheduleId
    (active_providers_profiles S scheduleId) →
  resolve_provider_name S R session scheduleId w = (Normal (), w).
Proof.
  intros (cached & r & Hmiss & Hcached & Hr & Hnone). unfold resolve_provider_name.
  run (arg_run "provider_name" w).
  destruct (truthy (or_undefined (args w !! "provider_name"))); [|done].
  run (look_in_cache_run _ _ _ _ _ _ Hmiss). rewrite Hcached. cbn [negb].
  erewrite bind_run; cycle 1.
  { run (lift_run _ _ w Hr). cbn zeta. rewrite Hnone. apply mret_run. }
  by rewrite Hcached.
Qed.

(** X25. With no valid map in the cache and no rows in the store, the four
    kinds of names are treated in two ways. A flow name or a service name
    ends the call with an error envelope and nothing changes. A team name
    or a provider name is passed over: the chat executor, or
    [processCheckScheduleAction], is called with the arguments as they were,
    so without a [team_id] or a [provider_id]. *)
Theorem handleSystemToolCall_nothing_to_resolve
    (S : Store) (R : Runtime) (X : Executors) (tool : Tool) (actionsSystem : jsval)
    (session : Session) (w : World) :
  let org := organization_id session in
  let run := handleSystemToolCall S R X tool actionsSystem session w in
  (∀ action,
     dispatches tool actionsSystem "start_flow" action →
     truthy (or_undefined (args w !! "flow_name")) = true →
     nothing_to_resolve R (nameToIdCache w) org "flows" JNull (active_flows S org) →
     run = (Normal (error_result "No active flows found for this organization."), w)) ∧
  (∀ action scheduleId,
     dispatches tool actionsSystem "schedule" action →
     schedule_found S session action scheduleId →
     truthy (or_undefined (args w !! "service_name")) = true →
     nothing_to_resolve R (nameToIdCache w) org "services" scheduleId
       (active_services S scheduleId) →
     run = (Normal (error_result "No services found for this schedule."), w)) ∧
  (∀ action,
     dispatches tool actionsSystem "update_chat" action →
     nothing_to_resolve R (nameToIdCache w) org "teams" JNull (teams_of S org) →
     run = (Normal (executor_result tool
                      (processUpdateChatAction X (forwarded_chat_action (args w)) (args w)
                         session)), w)) ∧
  (∀ action scheduleId w1,
     dispatches tool actionsSystem "schedule" action →
     schedule_found S session action scheduleId →
     resolve_service_name S R session scheduleId w = (Normal (), w1) →
     nothing_to_resolve R (nameToIdCache w1) org "providers" scheduleId
       (active_providers_profiles S scheduleId) →
     run = processCheckScheduleAction S R
             (forwarded_schedule_action scheduleId (args w1)) (args w1) session w1).
Proof.
  cbn zeta. split; [|split; [|split]].
  - intros action Hcase Hgiven Hnothing.
    rewrite !(handleSystemToolCall_flow _ _ _ _ _ _ _ _ Hcase).
    rewrite (start_flow_case_run S R X tool session w).
    by rewrite (resolve_flow_name_none _ _ _ _ Hgiven Hnothing).
  - intros action scheduleId Hcase Hfound Hgiven Hnothing.
    rewrite (handleSystemToolCall_schedule _ _ _ _ _ _ _ _ Hcase).
    rewrite (schedule_case_run S R tool action session scheduleId w Hfound).
    by rewrite (resolve_service_name_none _ _ _ _ _ Hgiven Hnothing).
  - intros action Hcase Hnothing.
    rewrite !(handleSystemToolCall_chat _ _ _ _ _ _ _ _ Hcase).
    rewrite (update_chat_case_run S R X tool session w).
    by rewrite (resolve_team_name_none _ _ _ _ Hnothing).
  - intros action scheduleId w1 Hcase Hfound Hservice Hnothing.
    rewrite (handleSystemToolCall_schedule _ _ _ _ _ _ _ _ Hcase).
    rewrite (schedule_case_run S R tool action session scheduleId w Hfound), Hservice.
    by rewrite (resolve_provider_name_none _ _ _ _ _ Hnothing).
Qed.

Lemma handleSystemToolCall_nothing_to_resolve_witness :
  handleSystemToolCall Salon.store Salon.runtime Salon.executors {| name := "fluxo" |}
    (JArr [JObj (object [("name", JStr "fluxo"); ("type", JStr "start_flow");
                         ("config", JObj ∅)])])
    {| organization_id := JStr "org-2"; customer_id := JStr "cust-1";
       chat_id := JStr "chat-1" |}
    (Salon.world (object [("flow_name", JStr "Boas-vindas")]))
  = (Normal (error_result "No active flows found for this organization."),
     Salon.world (object [("flow_name", JStr "Boas-vindas")])).
Proof.
  pose proof (handleSystemToolCall_nothing_to_resolve Salon.store Salon.runtime
                Salon.executors {| name := "fluxo" |}
                (JArr [JObj (object [("name", JStr "fluxo"); ("type", JStr "start_flow");
                                     ("config", JObj ∅)])])
                {| organization_id := JStr "org-2"; customer_id := JStr "cust-1";
                   chat_id := JStr "chat-1" |}
                (Salon.world (object [("flow_name", JStr "Boas-vindas")]))) as H.
  cbn zeta in H. destruct H as (Hflow & _).
  eapply Hflow.
  - eexists _, _. repeat split; reflexivity.
  - reflexivity.
  - eexists _, _. repeat split; reflexivity.
Defined.

(** *** A map that is in the cache *)

Lemma resolve_flow_name_hit S R session w map :
  getCachedMap (Date_now R) (nameToIdCache w) (organization_id session) "flows" JNull
    = Ok map →
  truthy map = true →
  resolve_flow_name S R session w =
    (flow_name ← arg "flow_name";
     if negb (truthy flow_name) then return_ (error_result "Flow name is required.")
     else
       flowName ← lift (lower_name R flow_name);
       found ← lift (get_prop map flowName);
       if truthy found then assign_arg "flow_id" found
       else return_ (not_found "Flow" flow_name)) w.
Proof.
  intros Hhit Hmap. unfold resolve_flow_name.
  run (arg_run "flow_name" w). run (arg_run "flow_name" w).
  destruct (negb (truthy (or_undefined (args w !! "flow_name")))); [done|].
  run (look_in_cache_run _ _ _ _ _ _ Hhit). rewrite Hmap. cbn [negb].
  by run (mret_run map w).
Qed.

Lemma resolve_team_name_hit S R session w map :
  getCachedMap (Date_now R) (nameToIdCache w) (organization_id session) "teams" JNull
    = Ok map →
  truthy map = true →
  resolve_team_name S R session w =
    (team_name ← arg "team_name";
     if truthy team_name then
       teamName ← lift (lower_name R team_name);
       found ← lift (get_prop map teamName);
       if truthy found then assign_arg "team_id" found
       else return_ (not_found "Team" team_name)
     else mret ()) w.
Proof.
  intros Hhit Hmap. unfold resolve_team_name.
  run (arg_run "team_name" w). run (arg_run "team_name" w).
  destruct (truthy (or_undefined (args w !! "team_name"))); [|done].
  run (look_in_cache_run _ _ _ _ _ _ Hhit). rewrite Hmap. cbn [negb].
  run (mret_run map w). by rewrite Hmap.
Qed.

(** X26. While the cache holds a valid map of the flows, or of the teams, of
    the organization, the flow case and the chat case answer from it: the
    outcome of the call is the same whatever the store holds, and the call
    leaves the cache as it was, so the entry is not renewed by being used. *)
Theorem handleSystemToolCall_answers_from_cache
    (S S' : Store) (R : Runtime) (X : Executors) (tool : Tool) (actionsSystem : jsval)
    (session : Session) (w : World) :
  let org := organization_id session in
  let run := handleSystemToolCall S R X tool actionsSystem session w in
  (∀ action map,
     dispatches tool actionsSystem "start_flow" action →
     getCachedMap (Date_now R) (nameToIdCache w) org "flows" JNull = Ok map →
     truthy map = true →
     run = handleSystemToolCall S' R X tool actionsSystem session w ∧
     nameToIdCache run.2 = nameToIdCache w) ∧
  (∀ action map,
     dispatches tool actionsSystem "update_chat" action →
     getCachedMap (Date_now R) (nameToIdCache w) org "teams" JNull = Ok map →
     truthy map = true →
     run = handleSystemToolCall S' R X tool actionsSystem session w ∧
     nameToIdCache run.2 = nameToIdCache w).
Proof.
  cbn zeta. split.
  - intros action map Hcase Hhit Hmap.
    rewrite !(handleSystemToolCall_flow _ _ _ _ _ _ _ _ Hcase).
    rewrite !(start_flow_case_run _ R X tool session w).
    rewrite (resolve_flow_name_hit S _ _ _ _ Hhit Hmap),
      (resolve_flow_name_hit S' _ _ _ _ Hhit Hmap).
    split; [done|].
    run (arg_run "flow_name" w).
    destruct (negb (truthy (or_undefined (args w !! "flow_name")))); [done|].
    destruct (lower_name _ _) as [flowName|e];
      [rewrite lift_Ok_bind | by rewrite lift_Throw_bind].
    destruct (get_prop map flowName) as [found|e];
      [rewrite lift_Ok_bind | by rewrite lift_Throw_bind].
    by destruct (truthy found).
  - intros action map Hcase Hhit Hmap.
    rewrite !(handleSystemToolCall_chat _ _ _ _ _ _ _ _ Hcase).
    rewrite !(update_chat_case_run _ R X tool session w).
    rewrite (resolve_team_name_hit S _ _ _ _ Hhit Hmap),
      (resolve_team_name_hit S' _ _ _ _ Hhit Hmap).
    split; [done|].
    run (arg_run "team_name" w).
    destruct (truthy (or_undefined (args w !! "team_name"))); [|done].
    destruct (lower_name _ _) as [teamName|e];
      [rewrite lift_Ok_bind | by rewrite lift_Throw_bind].
    destruct (get_prop map teamName) as [found|e];
      [rewrite lift_Ok_bind | by rewrite lift_Throw_bind].
    by destruct (truthy found).
Qed.

Lemma handleSystemToolCall_answers_from_cache_witness :
  ∃ cache,
    setCachedMap 500 ∅ (JStr "org-1") "flows" (JObj {["boas-vindas" := JStr "flow-1"]})
      JNull = Ok cache ∧
    handleSystemToolCall Salon.store Salon.runtime Salon.executors {| name := "fluxo" |}
      (JArr [JObj (object [("name", JStr "fluxo"); ("type", JStr "start_flow");
                           ("config", JObj ∅)])])
      Salon.session
      {| nameToIdCache := cache; args := object [("flow_name", JStr "Boas-vindas")];
         writes := [] |}
    = handleSystemToolCall Salon.offline Salon.runtime Salon.executors {| name := "fluxo" |}
        (JArr [JObj (object [("name", JStr "fluxo"); ("type", JStr "start_flow");
                             ("config", JObj ∅)])])
        Salon.session
        {| nameToIdCache := cache; args := object [("flow_name", JStr "Boas-vindas")];
           writes := [] |}.
Proof.
  destruct (setCachedMap 500 ∅ (JStr "org-1") "flows"
              (JObj {["boas-vindas" := JStr "flow-1"]}) JNull) as [cache|] eqn:Hset;
    [|by vm_compute in Hset].
  exists cache. split; [done|].
  pose proof (handleSystemToolCall_answers_from_cache Salon.store Salon.offline
                Salon.runtime Salon.executors {| name := "fluxo" |}
                (JArr [JObj (object [("name", JStr "fluxo"); ("type", JStr "start_flow");
                                     ("config", JObj ∅)])])
                Salon.session
                {| nameToIdCache := cache;
                   args := object [("flow_name", JStr "Boas-vindas")];
                   writes := [] |}) as H.
  cbn zeta in H. destruct H as [Hflow _].
  eapply (Hflow _ (JObj {["boas-vindas" := JStr "flow-1"]})).
  - eexists _, _. repeat split; reflexivity.
  - vm_compute in Hset. injection Hset as <-. reflexivity.
  - reflexivity.
Defined.

(** X27. What reaches the executors. The customer case calls its executor
    with the arguments as they are and changes nothing. The chat case does
    the same when no team name is given. When the team name, or the flow
    name, resolves to an identifier, the executor is called with the
    arguments that now hold the identifier and with an action whose
    configuration carries it. The answer of the dispatcher is the result of
    the executor, or the error envelope when the executor throws. *)
Theorem handleSystemToolCall_forwards
    (S : Store) (R : Runtime) (X : Executors) (tool : Tool) (actionsSystem : jsval)
    (session : Session) (w : World) :
  let org := organization_id session in
  let run := handleSystemToolCall S R X tool actionsSystem session w in
  (∀ action,
     dispatches tool actionsSystem "update_customer" action →
     run = (Normal (executor_result tool
                      (processUpdateCustomerAction X (forwarded_customer_action (args w))
                         (args w) session)), w)) ∧
  (∀ action,
     dispatches tool actionsSystem "update_chat" action →
     truthy (or_undefined (args w !! "team_name")) = false →
     run = (Normal (executor_result tool
                      (processUpdateChatAction X (forwarded_chat_action (args w))
                         (args w) session)), w)) ∧
  (∀ action map cache' id,
     dispatches tool actionsSystem "update_chat" action →
     truthy (or_undefined (args w !! "team_name")) = true →
     name_map R (nameToIdCache w) org "teams" JNull (teams_of S org) Ok "name"
       map cache' →
     resolves R map (or_undefined (args w !! "team_name")) id →
     let a := <["team_id" := id]> (args w) in
     run = (Normal (executor_result tool
                      (processUpdateChatAction X (forwarded_chat_action a) a session)),
            with_arg (with_cache w cache') "team_id" id) ∧
     get_prop (forwarded_chat_action a) "config" ≫= (λ c, get_prop c "teamId") = Ok id) ∧
  (∀ action map cache' id,
     dispatches tool actionsSystem "start_flow" action →
     truthy (or_undefined (args w !! "flow_name")) = true →
     name_map R (nameToIdCache w) org "flows" JNull (active_flows S org) Ok "name"
       map cache' →
     resolves R map (or_undefined (args w !! "flow_name")) id →
     let a := <["flow_id" := id]> (args w) in
     run = (Normal (executor_result tool
                      (processStartFlowAction X (forwarded_flow_action a) a session)),
            with_arg (with_cache w cache') "flow_id" id) ∧
     get_prop (forwarded_flow_action a) "config" ≫= (λ c, get_prop c "flowId") = Ok id).
Proof.
  cbn zeta. split; [|split; [|split]].
  - intros action Hcase. rewrite (handleSystemToolCall_customer _ _ _ _ _ _ _ _ Hcase).
    apply update_customer_case_run.
  - intros action Hcase Hnone. rewrite (handleSystemToolCall_chat _ _ _ _ _ _ _ _ Hcase).
    rewrite (update_chat_case_run S R X tool session w).
    unfold resolve_team_name. run (arg_run "team_name" w). by rewrite Hnone.
  - intros action map cache' id Hcase Hgiven Hmap Hid. split.
    + rewrite (handleSystemToolCall_chat _ _ _ _ _ _ _ _ Hcase).
      rewrite (update_chat_case_run S R X tool session w).
      by rewrite (resolve_team_name_resolves _ _ _ _ _ _ _ _ eq_refl Hgiven Hmap Hid).
    + unfold forwarded_chat_action. rewrite get_prop_obj. cbn [or_undefined].
      change (object [("type", JStr "update_chat"); ("config", ?c)] !! "config")
        with (Some c). cbn [or_undefined]. rewrite bind_Ok, get_prop_obj.
      change (object [("title", ?t); ("status", ?s); ("teamId", ?i)] !! "teamId")
        with (Some i). cbn [or_undefined]. by rewrite lookup_insert_eq.
  - intros action map cache' id Hcase Hgiven Hmap Hid. split.
    + rewrite (handleSystemToolCall_flow _ _ _ _ _ _ _ _ Hcase).
      rewrite (start_flow_case_run S R X tool session w).
      by rewrite (resolve_flow_name_resolves _ _ _ _ _ _ _ _ eq_refl Hgiven Hmap Hid).
    + unfold forwarded_flow_action. rewrite get_prop_obj.
      change (object [("type", JStr "start_flow"); ("config", ?c)] !! "config")
        with (Some c). cbn [or_undefined]. rewrite bind_Ok, get_prop_obj.
      change (object [("flowId", ?i)] !! "flowId") with (Some i).
      cbn [or_undefined]. by rewrite lookup_insert_eq.
Qed.

Lemma handleSystemToolCall_forwards_witness :
  let equipe := JObj (object [("name", JStr "equipe"); ("type", JStr "update_chat");
                              ("config", JObj ∅)]) in
  ∃ w' w'',
    (handleSystemToolCall Salon.store Salon.runtime Salon.executors {| name := "equipe" |}
       (JArr [equipe]) Salon.session (Salon.world (object [("team_name", JStr "VENDAS")]))
     = (Normal (JObj (object [("status", JStr "success");
                              ("message", JStr "chat updated")])), w') ∧
     args w' !! "team_id" = Some (JStr "team-1")) ∧
    (handleSystemToolCall Salon.two_sections Salon.runtime Salon.executors
       {| name := "equipe" |} (JArr [equipe]) Salon.session
       (Salon.world (object [("team_name", JStr "seção")]))
     = (Normal (JObj (object [("status", JStr "success");
                              ("message", JStr "chat updated")])), w'') ∧
     args w'' !! "team_id" = Some (JStr "team-3")).
Proof.
  intros equipe.
  pose proof (handleSystemToolCall_forwards Salon.store Salon.runtime Salon.executors
                {| name := "equipe" |} (JArr [equipe]) Salon.session
                (Salon.world (object [("team_name", JStr "VENDAS")]))) as H.
  pose proof (handleSystemToolCall_forwards Salon.two_sections Salon.runtime
                Salon.executors {| name := "equipe" |} (JArr [equipe]) Salon.session
                (Salon.world (object [("team_name", JStr "seção")]))) as H'.
  cbn zeta in H, H'. destruct H as (_ & _ & Hteam & _). destruct H' as (_ & _ & Hteam' & _).
  edestruct (Hteam equipe) as [Hrun _].
  { eexists _, _. repeat split; reflexivity. }
  { reflexivity. }
  { right. eexists _, _, _, _. repeat split; reflexivity. }
  { eexists. repeat split; reflexivity. }
  edestruct (Hteam' equipe) as [Hrun' _].
  { eexists _, _. repeat split; reflexivity. }
  { reflexivity. }
  { right. eexists _, _, _, _. repeat split; reflexivity. }
  { eexists. repeat split; reflexivity. }
  eexists _, _. split; (split; [eassumption|reflexivity]).
Defined.
